(** * nebe devstack: the command line and its commands

    A shallow embedding of the command class [Dev] (its constructor, its
    method [handle], first as the steps that make the session and then with
    every call it makes, the helpers that choose the visual, the [bundled]
    handler it attaches to every bundler and the callbacks of its two file
    watchers), of [checkConfig], of the script that dispatches a command
    line to a command, and of the commands [set-root] and [sync]; followed
    by the properties of the markup post-processing, of the port
    assignment, of the start-up guards and loop, of the watchers, of the
    dispatch and of the two commands.

    Strings are lists of characters, numbers are integers ([Z]: every
    number that occurs is a port, an index, a length or a time in
    milliseconds), [state.bundlers] is a finite map from indices to
    records, and what the process does to its surroundings is recorded in a
    state that the code is threaded through. *)

From Stdlib Require Import ZArith NArith Ascii String Decimal DecimalString DecimalZ Lia.
From stdpp Require Import base option list gmap sorting.

Local Open Scope Z_scope.

(** ** JavaScript strings

    A string is modelled as the list of its characters.  Every token the
    code searches for or splices in is plain ASCII, so the 8-bit character
    type of the standard library is enough to express them. *)

Module JS.

Definition Text := list ascii.

(** A string literal of the source. *)
Definition txt (s : string) : Text := list_ascii_of_string s.

(** The line feed written [\n] in the source, and the double quote. *)
Definition nl : ascii := "010"%char.
Definition dq : ascii := "034"%char.

(** [stripPrefix p s] is the rest of [s] after the prefix [p], if [s] starts
    with [p]. *)
Fixpoint stripPrefix (p s : Text) : option Text :=
  match p, s with
  | [], _ => Some s
  | _ :: _, [] => None
  | c :: p', d :: s' => if Ascii.eqb c d then stripPrefix p' s' else None
  end.

(** The text before and the text after the leftmost occurrence of [p] in
    [s]. *)
Fixpoint splitFirst (p s : Text) : option (Text * Text) :=
  match stripPrefix p s with
  | Some rest => Some ([], rest)
  | None =>
      match s with
      | [] => None
      | c :: s' =>
          match splitFirst p s' with
          | Some (a, b) => Some (c :: a, b)
          | None => None
          end
      end
  end.

(** [String.prototype.indexOf]: the position of the leftmost occurrence,
    or [-1]. *)
Definition indexOf (s p : Text) : Z :=
  match splitFirst p s with
  | Some (a, _) => Z.of_nat (length a)
  | None => -1
  end.

(** The replacement text of [String.prototype.replace] when the pattern is
    a string (ECMAScript's GetSubstitution with no captures): [$$] is a
    dollar sign, [$&] the matched text, [$`] the text before the match,
    [$'] the text after it; every other character, a dollar sign followed
    by anything else included, stands for itself. *)
Fixpoint getSubstitution (matched before after tpl : Text) : Text :=
  match tpl with
  | [] => []
  | c :: t =>
      if Ascii.eqb c "$" then
        match t with
        | [] => [c]
        | d :: t' =>
            if Ascii.eqb d "$" then
              "$"%char :: getSubstitution matched before after t'
            else if Ascii.eqb d "&" then
              matched ++ getSubstitution matched before after t'
            else if Ascii.eqb d "`" then
              before ++ getSubstitution matched before after t'
            else if Ascii.eqb d "'" then
              after ++ getSubstitution matched before after t'
            else c :: getSubstitution matched before after t
        end
      else c :: getSubstitution matched before after t
  end.

(** [s.replace(p, r)] with a string pattern: only the leftmost occurrence
    is replaced; without an occurrence [s] is returned as it is. *)
Definition replace (s p r : Text) : Text :=
  match splitFirst p s with
  | Some (a, b) => a ++ getSubstitution p a b r ++ b
  | None => s
  end.

(** [Number.prototype.toString] on an integer, as a template literal
    renders it. *)
Definition numberToString (n : Z) : Text :=
  txt (NilEmpty.string_of_int (Z.to_int n)).

(** [Array.prototype.join]. *)
Fixpoint join (sep : Text) (l : list Text) : Text :=
  match l with
  | [] => []
  | [x] => x
  | x :: rest => x ++ sep ++ join sep rest
  end.

(** *** Notions used to state properties of texts *)

(** [p] occurs in [s]. *)
Definition occurs (p s : Text) : Prop := ∃ a b, s = a ++ p ++ b.

Definition occursb (p s : Text) : bool :=
  match splitFirst p s with Some _ => true | None => false end.

Definition startsWith (p s : Text) : bool :=
  match stripPrefix p s with Some _ => true | None => false end.

Definition hasChar (c : ascii) (l : Text) : bool := existsb (Ascii.eqb c) l.

(** No dollar sign: nothing for [replace] to substitute. *)
Definition plain (v : Text) : Prop := "$"%char ∉ v.

(** A token that starts with [<] and has no other [<]. *)
Definition headed (t : Text) : bool :=
  match t with
  | c :: t' => Ascii.eqb c "<" && negb (hasChar "<" t')
  | [] => false
  end.

(** Pieces of text, each followed by one separating character, and what
    comes after the last. *)
Fixpoint flatten (pieces : list (Text * ascii)) (tail : Text) : Text :=
  match pieces with
  | [] => tail
  | (x, c) :: rest => x ++ c :: flatten rest tail
  end.

(** One line written to the console, by [console.log], [console.warn] or
    [console.error] ([chalk] only colours the text). *)
Inductive Console :=
| console_log (msg : Text)
| console_warn (msg : Text)
| console_error (msg : Text).

Definition Error := Text.

(** How a piece of code ends: normally, by [process.exit], or by an
    exception (for an [async] function, a rejected promise). *)
Inductive Completion (A : Type) :=
| Normal (a : A)
| Exit (code : Z)
| Throw (error : Error).
Arguments Normal {A} a.
Arguments Exit {A} code.
Arguments Throw {A} error.

End JS.

Import JS.

(** ** The [bundled] handler: markup post-processing

    [bundler.on('bundled', ...)] reads the built [index.html], splices six
    marker blocks into it and writes it back.  The six [if] blocks of the
    source have one shape: look for the marker's opening comment and, when
    it is absent, replace the anchor tag by the block followed by the
    anchor tag. *)

Module Markup.

(** What one [if] block of the handler is made of. *)
Record Injection := {
  name : Text;          (* the marker's name, as the debug lines print it *)
  openToken : Text;     (* argument of [indexOf] *)
  anchor : Text;        (* first argument of [replace] *)
  replacement : Text    (* second argument of [replace] *)
}.

(** The values the closure of the handler captures. *)
Record Ctx := {
  local : bool;         (* [this.local], the [--local] flag *)
  debug : bool;         (* [this.debug], the [--debug] flag *)
  fill : Text;          (* [fill], from [getFill(schemaPath)] *)
  folder : Text;        (* [folder], the selected size folder *)
  visualPath : Text;    (* [visualPath] *)
  port : Z              (* [port] *)
}.

Definition head_tag : Text := txt "</head>".
Definition body_tag : Text := txt "</body>".

Definition visualClientScript (ctx : Ctx) (time : Z) : Text :=
  if local ctx then
    txt "<script src=" ++ dq :: txt "http://localhost:1236/visual-client.min.js?cb="
      ++ numberToString time ++ dq :: txt "></script>"
  else
    txt "<script src=" ++ dq
      :: txt "https://cdn.nebe.app/store/serving/dist/visual-client.min.js?cb="
      ++ numberToString time ++ dq :: txt "></script>".

Definition visualHelperUrl (ctx : Ctx) : Text :=
  if local ctx then txt "http://localhost:1235/"
  else txt "https://cdn.nebe.app/store/utils/dist/".

Definition polyfills : Injection := {|
  name := txt "NEBE_POLYFILLS";
  openToken := txt "<!--NEBE_POLYFILLS-->";
  anchor := head_tag;
  replacement :=
    nl :: txt "<!--NEBE_POLYFILLS--><script src=" ++ dq
      :: txt "https://cdnjs.cloudflare.com/ajax/libs/promise-polyfill/8.1.3/polyfill.min.js"
      ++ dq :: txt "></script><script src=" ++ dq
      :: txt "https://cdn.jsdelivr.net/npm/regenerator-runtime@0.13.7/runtime.min.js"
      ++ dq :: txt "></script><!--/NEBE_POLYFILLS-->" ++ nl :: txt "</head>"
|}.

Definition demoFill (ctx : Ctx) : Injection := {|
  name := txt "NEBE_DEMO_FILL";
  openToken := txt "<!--NEBE_DEMO_FILL-->";
  anchor := body_tag;
  replacement :=
    nl :: txt "<!--NEBE_DEMO_FILL-->" ++ nl :: fill ctx
      ++ nl :: txt "<!--/NEBE_DEMO_FILL-->" ++ nl :: txt "</body>"
|}.

Definition visualClient (ctx : Ctx) (time : Z) : Injection := {|
  name := txt "NEBE_VISUAL_CLIENT";
  openToken := txt "<!--NEBE_VISUAL_CLIENT-->";
  anchor := head_tag;
  replacement :=
    nl :: txt "<!--NEBE_VISUAL_CLIENT-->" ++ nl :: visualClientScript ctx time
      ++ nl :: txt "<!--/NEBE_VISUAL_CLIENT-->" ++ nl :: txt "</head>"
|}.

Definition env (ctx : Ctx) : Injection := {|
  name := txt "NEBE_ENV";
  openToken := txt "<!--NEBE_ENV-->";
  anchor := head_tag;
  replacement :=
    nl :: txt "<!--NEBE_ENV-->" ++ nl
      :: txt "<script>window.MODE = 'dev'; window.FOLDER = '" ++ folder ctx
      ++ txt "';</script>" ++ nl :: txt "<!--/NEBE_ENV-->" ++ nl :: txt "</head>"
|}.

Definition documentTitle (ctx : Ctx) : Injection := {|
  name := txt "NEBE_DOCUMENT_TITLE";
  openToken := txt "<!--NEBE_DOCUMENT_TITLE-->";
  anchor := head_tag;
  replacement :=
    nl :: txt "<!--NEBE_DOCUMENT_TITLE-->" ++ nl
      :: txt "<script>document.title = " ++ dq :: folder ctx ++ txt " "
      ++ visualPath ctx ++ dq :: txt ";</script>" ++ nl
      :: txt "<!--/NEBE_DOCUMENT_TITLE-->" ++ nl :: txt "</head>"
|}.

Definition visualHelper (ctx : Ctx) : Injection := {|
  name := txt "NEBE_VISUAL_HELPER";
  openToken := txt "<!--NEBE_VISUAL_HELPER-->";
  anchor := head_tag;
  replacement :=
    nl :: txt "<!--NEBE_VISUAL_HELPER-->" ++ nl
      :: txt "<link rel=" ++ dq :: txt "stylesheet" ++ dq :: txt " href=" ++ dq
      :: visualHelperUrl ctx ++ txt "visual-helper.min.css" ++ dq :: txt " type="
      ++ dq :: txt "text/css" ++ dq :: txt ">" ++ nl
      :: txt "<script src=" ++ dq :: visualHelperUrl ctx
      ++ txt "visual-helper.min.js" ++ dq :: txt "></script>" ++ nl
      :: txt "<!--/NEBE_VISUAL_HELPER-->" ++ nl :: txt "</head>"
|}.

(** [this.debug ? console.log(msg) : true] *)
Definition debugLog (ctx : Ctx) (msg : Text) : list Console :=
  if debug ctx then [console_log msg] else [].

(** One [if (markupContents.indexOf(open) === -1) { ... } else { ... }]
    block: the new value of [markupContents] and the lines printed. *)
Definition inject (ctx : Ctx) (inj : Injection) (markupContents : Text)
  : Text * list Console :=
  if indexOf markupContents (openToken inj) =? -1 then
    (replace markupContents (anchor inj) (replacement inj),
     debugLog ctx (txt "Adding " ++ name inj ++ txt " to markup"))
  else
    (markupContents, debugLog ctx (name inj ++ txt " already in markup")).

(** The six markers, in the order of the source. *)
Definition injections (ctx : Ctx) (time : Z) : list Injection :=
  [polyfills; demoFill ctx; visualClient ctx time; env ctx;
   documentTitle ctx; visualHelper ctx].

(** The value of [markupContents] when it is written back. *)
Definition postProcess (ctx : Ctx) (time : Z) (markupContents : Text) : Text :=
  fold_left (λ m inj, fst (inject ctx inj m)) (injections ctx time) markupContents.

(** What one run of the handler leaves behind. *)
Record Bundled := {
  written : Text;             (* [fs.writeFileSync(outDir/index.html, ...)] *)
  printed : list Console;
  isFirstBundle : bool        (* the closure variable, after the run *)
}.

(** The handler.  [time] is the value of [new Date().getTime()], [file] the
    content of [outDir/index.html], [first] the closure variable
    [isFirstBundle] before the run. *)
Definition bundled (ctx : Ctx) (time : Z) (first : bool) (file : Text) : Bundled :=
  let l0 := debugLog ctx (txt "Using VisualClient on URL " ++ visualClientScript ctx time) in
  let markupContents := file in
  let '(markupContents, l1) := inject ctx polyfills markupContents in
  let '(markupContents, l2) := inject ctx (demoFill ctx) markupContents in
  let '(markupContents, l3) := inject ctx (visualClient ctx time) markupContents in
  let '(markupContents, l4) := inject ctx (env ctx) markupContents in
  let '(markupContents, l5) := inject ctx (documentTitle ctx) markupContents in
  let l6 := debugLog ctx (txt "Using VisualHelper on URL " ++ visualHelperUrl ctx) in
  let '(markupContents, l7) := inject ctx (visualHelper ctx) markupContents in
  let l8 :=
    if (indexOf markupContents (txt "<main>") =? -1)
       && (indexOf markupContents (txt "<main ") =? -1)
    then [console_error (txt "Resize " ++ folder ctx
                           ++ txt " does not contain element <main>!")]
    else [] in
  let l9 :=
    if first then []
    else [console_log (txt "Bundled " ++ folder ctx ++ txt " on http://localhost:"
                         ++ numberToString (port ctx))] in
  {| written := markupContents;
     printed := l0 ++ l1 ++ l2 ++ l3 ++ l4 ++ l5 ++ l6 ++ l7 ++ l8 ++ l9;
     isFirstBundle := false |}.

End Markup.

(** ** [checkConfig] *)

Module CheckConfig.

(** What [typeof] tells [checkConfig] about a property. *)
Inductive JsValue :=
| JsString (s : Text)
| JsOther.

(** The file at [configPath]: missing, not parsable ([fs.readJsonSync]
    throws), or parsed; a parsed value is truthy or not, and [format],
    [name] and [description] are what its properties of these names hold. *)
Inductive ConfigFile :=
| Missing
| Malformed (error : Error)
| Parsed (truthy : bool) (format name description : JsValue).

Definition formats : list Text :=
  [txt "fallback"; txt "html"; txt "print"; txt "image"; txt "video"; txt "audio";
   txt "source"].

Definition isString (v : JsValue) : bool :=
  match v with JsString _ => true | JsOther => false end.

(** [['fallback', ...].indexOf(configContents.format) === -1] *)
Definition knownFormat (v : JsValue) : bool :=
  match v with
  | JsString s => bool_decide (s ∈ formats)
  | JsOther => false
  end.

(** [checkConfig(configPath)]: how the call ends and what it prints. *)
Definition checkConfig (file : ConfigFile) : Completion bool * list Console :=
  match file with
  | Missing => (Normal false, [console_error (txt "config.json does not exist!")])
  | Malformed e => (Throw e, [])
  | Parsed truthy format name description =>
      if negb truthy then
        (Normal false, [console_error (txt "config.json is not valid JSON")])
      else if negb (isString format) then
        (Normal false, [console_error (txt "Visual's format is not defined")])
      else if negb (knownFormat format) then
        (Normal false, [console_error (txt "Visual's format is not correct")])
      else if negb (isString name) then
        (Normal false, [console_error (txt "Visual's name is not defined")])
      else if negb (isString description) then
        (Normal true, [console_warn (txt "Visual's description is not defined")])
      else
        (Normal true, [console_log (txt "Config seems ok")])
  end.

End CheckConfig.

(** ** [Dev.handle]

    The command runs on Node's single thread.  Everything outside the
    process (the port probe, the file system, the prompts, the bundling
    engine, the helpers [checkSchema] and [getFill]) is an oracle, [World];
    what the command does to its surroundings and to its own variables is
    recorded in [Proc]. *)

Module Dev.

Import CheckConfig.

(** [tcpPortUsed.check(port, '127.0.0.1')]: the promise resolves to a
    boolean or rejects. *)
Inductive Probe :=
| InUse
| Free
| ProbeFails (error : Error).

(** What the [try] block of one iteration of the start-up loop meets:
    [new Bundler(...)] throws, [await bundler.serve(port)] rejects, or the
    target is served. *)
Inductive Start :=
| BundlerThrows (error : Error)
| ServeRejects (error : Error)
| Served.

(** One entry of [state.bundlers].  The entry starts as [{}] and its
    properties are assigned one by one, so each may be missing. *)
Record BundlerState := {
  folder : option Text;
  port : option Z;
  error : option bool
}.

Definition emptyBundlerState : BundlerState :=
  {| folder := None; port := None; error := None |}.

(** The oracle.  Times are in milliseconds.  [checkSchema] and [getFill] are
    helpers whose source is not at hand: of [checkSchema] only whether the
    promise it returns resolves matters here, and it is taken to leave
    [state.folders] and [state.bundlers] alone; [getFill] gives the fill,
    which depends on [schema.json] as it is when the call is made. *)
Record World := {
  local : bool;                     (* [this.local] *)
  debug : bool;                     (* [this.debug] *)
  startTime : Z;                    (* when [handle] runs *)
  portCheck : Z → Probe;
  visual : option Text;             (* the visual chosen; [None]: choosing ended the process *)
  configFile : Z → ConfigFile;      (* [config.json], at a given time *)
  checkSchema : Z → option Error;   (* [await checkSchema(schemaPath, state)]: [None] when it resolves *)
  getFill : Z → Text;               (* [getFill(schemaPath)], at a given time *)
  folders : list Text;              (* [glob.sync(.../[!_][0-9]*/index.html)] *)
  selectedFolders : list Text;      (* [folderAnswers.folders] *)
  start : nat → Start               (* the [try] block of iteration [i] *)
}.

(** The process: its effects on the outside and the variables of
    [handle].
    - [console]: lines printed;
    - [notifications]: messages given to [notifier.notify];
    - [sentry]: [Sentry.captureException];
    - [listening]: ports this process listens on;
    - [created]: iterations whose [new Bundler] returned;
    - [serveCalls]: [bundler.serve(port)] calls;
    - [bundlers]: the array [bundlers]: handles, by iteration;
    - [state_visualPath]: [state.visualPath];
    - [state_folders]: [state.folders];
    - [state_bundlers]: [state.bundlers];
    - [fill]: the variable [fill];
    - [timers]: pending [setTimeout] callbacks of the schema watcher: when each is due;
    - [schemaChecks]: [checkSchema] calls made by the schema watcher;
    - [fillUpdates]: [getFill] calls made by the schema watcher;
    - [rebuilds]: [bundler.bundle()] calls: the handle, in call order;
    - [configChecks]: [checkConfig] calls made by the config watcher;
    - [dist]: [dist/<folder>/index.html] of each target, as last written;
    - [seenBundle]: targets whose [isFirstBundle] is no longer [true]. *)
Record Proc := {
  console : list Console;
  notifications : list Text;
  sentry : list Error;
  listening : list Z;
  created : list nat;
  serveCalls : list (nat * Z);
  bundlers : list nat;
  state_visualPath : option Text;
  state_folders : option (list Text);
  state_bundlers : gmap nat BundlerState;
  fill : Text;
  timers : list Z;
  schemaChecks : nat;
  fillUpdates : nat;
  rebuilds : list nat;
  configChecks : nat;
  dist : gmap nat Text;
  seenBundle : gmap nat bool
}.

Definition initial : Proc :=
  {| console := []; notifications := []; sentry := []; listening := []; created := [];
     serveCalls := []; bundlers := []; state_visualPath := None; state_folders := None;
     state_bundlers := ∅; fill := []; timers := []; schemaChecks := 0%nat;
     fillUpdates := 0%nat; rebuilds := []; configChecks := 0%nat; dist := ∅; seenBundle := ∅ |}.

Definition upd_console (f : list Console → list Console) (p : Proc) : Proc :=
  {| console := f (console p); notifications := notifications p; sentry := sentry p;
     listening := listening p; created := created p; serveCalls := serveCalls p;
     bundlers := bundlers p; state_visualPath := state_visualPath p;
     state_folders := state_folders p; state_bundlers := state_bundlers p; fill := fill p;
     timers := timers p; schemaChecks := schemaChecks p; fillUpdates := fillUpdates p;
     rebuilds := rebuilds p; configChecks := configChecks p; dist := dist p;
     seenBundle := seenBundle p |}.

Definition upd_notifications (f : list Text → list Text) (p : Proc) : Proc :=
  {| console := console p; notifications := f (notifications p); sentry := sentry p;
     listening := listening p; created := created p; serveCalls := serveCalls p;
     bundlers := bundlers p; state_visualPath := state_visualPath p;
     state_folders := state_folders p; state_bundlers := state_bundlers p; fill := fill p;
     timers := timers p; schemaChecks := schemaChecks p; fillUpdates := fillUpdates p;
     rebuilds := rebuilds p; configChecks := configChecks p; dist := dist p;
     seenBundle := seenBundle p |}.

Definition upd_sentry (f : list Error → list Error) (p : Proc) : Proc :=
  {| console := console p; notifications := notifications p; sentry := f (sentry p);
     listening := listening p; created := created p; serveCalls := serveCalls p;
     bundlers := bundlers p; state_visualPath := state_visualPath p;
     state_folders := state_folders p; state_bundlers := state_bundlers p; fill := fill p;
     timers := timers p; schemaChecks := schemaChecks p; fillUpdates := fillUpdates p;
     rebuilds := rebuilds p; configChecks := configChecks p; dist := dist p;
     seenBundle := seenBundle p |}.

Definition upd_listening (f : list Z → list Z) (p : Proc) : Proc :=
  {| console := console p; notifications := notifications p; sentry := sentry p;
     listening := f (listening p); created := created p; serveCalls := serveCalls p;
     bundlers := bundlers p; state_visualPath := state_visualPath p;
     state_folders := state_folders p; state_bundlers := state_bundlers p; fill := fill p;
     timers := timers p; schemaChecks := schemaChecks p; fillUpdates := fillUpdates p;
     rebuilds := rebuilds p; configChecks := configChecks p; dist := dist p;
     seenBundle := seenBundle p |}.

Definition upd_created (f : list nat → list nat) (p : Proc) : Proc :=
  {| console := console p; notifications := notifications p; sentry := sentry p;
     listening := listening p; created := f (created p); serveCalls := serveCalls p;
     bundlers := bundlers p; state_visualPath := state_visualPath p;
     state_folders := state_folders p; state_bundlers := state_bundlers p; fill := fill p;
     timers := timers p; schemaChecks := schemaChecks p; fillUpdates := fillUpdates p;
     rebuilds := rebuilds p; configChecks := configChecks p; dist := dist p;
     seenBundle := seenBundle p |}.

Definition upd_serveCalls (f : list (nat * Z) → list (nat * Z)) (p : Proc) : Proc :=
  {| console := console p; notifications := notifications p; sentry := sentry p;
     listening := listening p; created := created p; serveCalls := f (serveCalls p);
     bundlers := bundlers p; state_visualPath := state_visualPath p;
     state_folders := state_folders p; state_bundlers := state_bundlers p; fill := fill p;
     timers := timers p; schemaChecks := schemaChecks p; fillUpdates := fillUpdates p;
     rebuilds := rebuilds p; configChecks := configChecks p; dist := dist p;
     seenBundle := seenBundle p |}.

Definition upd_bundlers (f : list nat → list nat) (p : Proc) : Proc :=
  {| console := console p; notifications := notifications p; sentry := sentry p;
     listening := listening p; created := created p; serveCalls := serveCalls p;
     bundlers := f (bundlers p); state_visualPath := state_visualPath p;
     state_folders := state_folders p; state_bundlers := state_bundlers p; fill := fill p;
     timers := timers p; schemaChecks := schemaChecks p; fillUpdates := fillUpdates p;
     rebuilds := rebuilds p; configChecks := configChecks p; dist := dist p;
     seenBundle := seenBundle p |}.

Definition upd_state_visualPath (f : option Text → option Text) (p : Proc) : Proc :=
  {| console := console p; notifications := notifications p; sentry := sentry p;
     listening := listening p; created := created p; serveCalls := serveCalls p;
     bundlers := bundlers p; state_visualPath := f (state_visualPath p);
     state_folders := state_folders p; state_bundlers := state_bundlers p; fill := fill p;
     timers := timers p; schemaChecks := schemaChecks p; fillUpdates := fillUpdates p;
     rebuilds := rebuilds p; configChecks := configChecks p; dist := dist p;
     seenBundle := seenBundle p |}.

Definition upd_state_folders (f : option (list Text) → option (list Text)) (p : Proc) : Proc :=
  {| console := console p; notifications := notifications p; sentry := sentry p;
     listening := listening p; created := created p; serveCalls := serveCalls p;
     bundlers := bundlers p; state_visualPath := state_visualPath p;
     state_folders := f (state_folders p); state_bundlers := state_bundlers p;
     fill := fill p; timers := timers p; schemaChecks := schemaChecks p;
     fillUpdates := fillUpdates p; rebuilds := rebuilds p; configChecks := configChecks p;
     dist := dist p; seenBundle := seenBundle p |}.

Definition upd_state_bundlers (f : gmap nat BundlerState → gmap nat BundlerState) (p : Proc) : Proc :=
  {| console := console p; notifications := notifications p; sentry := sentry p;
     listening := listening p; created := created p; serveCalls := serveCalls p;
     bundlers := bundlers p; state_visualPath := state_visualPath p;
     state_folders := state_folders p; state_bundlers := f (state_bundlers p);
     fill := fill p; timers := timers p; schemaChecks := schemaChecks p;
     fillUpdates := fillUpdates p; rebuilds := rebuilds p; configChecks := configChecks p;
     dist := dist p; seenBundle := seenBundle p |}.

Definition upd_fill (f : Text → Text) (p : Proc) : Proc :=
  {| console := console p; notifications := notifications p; sentry := sentry p;
     listening := listening p; created := created p; serveCalls := serveCalls p;
     bundlers := bundlers p; state_visualPath := state_visualPath p;
     state_folders := state_folders p; state_bundlers := state_bundlers p;
     fill := f (fill p); timers := timers p; schemaChecks := schemaChecks p;
     fillUpdates := fillUpdates p; rebuilds := rebuilds p; configChecks := configChecks p;
     dist := dist p; seenBundle := seenBundle p |}.

Definition upd_timers (f : list Z → list Z) (p : Proc) : Proc :=
  {| console := console p; notifications := notifications p; sentry := sentry p;
     listening := listening p; created := created p; serveCalls := serveCalls p;
     bundlers := bundlers p; state_visualPath := state_visualPath p;
     state_folders := state_folders p; state_bundlers := state_bundlers p; fill := fill p;
     timers := f (timers p); schemaChecks := schemaChecks p; fillUpdates := fillUpdates p;
     rebuilds := rebuilds p; configChecks := configChecks p; dist := dist p;
     seenBundle := seenBundle p |}.

Definition upd_schemaChecks (f : nat → nat) (p : Proc) : Proc :=
  {| console := console p; notifications := notifications p; sentry := sentry p;
     listening := listening p; created := created p; serveCalls := serveCalls p;
     bundlers := bundlers p; state_visualPath := state_visualPath p;
     state_folders := state_folders p; state_bundlers := state_bundlers p; fill := fill p;
     timers := timers p; schemaChecks := f (schemaChecks p); fillUpdates := fillUpdates p;
     rebuilds := rebuilds p; configChecks := configChecks p; dist := dist p;
     seenBundle := seenBundle p |}.

Definition upd_fillUpdates (f : nat → nat) (p : Proc) : Proc :=
  {| console := console p; notifications := notifications p; sentry := sentry p;
     listening := listening p; created := created p; serveCalls := serveCalls p;
     bundlers := bundlers p; state_visualPath := state_visualPath p;
     state_folders := state_folders p; state_bundlers := state_bundlers p; fill := fill p;
     timers := timers p; schemaChecks := schemaChecks p; fillUpdates := f (fillUpdates p);
     rebuilds := rebuilds p; configChecks := configChecks p; dist := dist p;
     seenBundle := seenBundle p |}.

Definition upd_rebuilds (f : list nat → list nat) (p : Proc) : Proc :=
  {| console := console p; notifications := notifications p; sentry := sentry p;
     listening := listening p; created := created p; serveCalls := serveCalls p;
     bundlers := bundlers p; state_visualPath := state_visualPath p;
     state_folders := state_folders p; state_bundlers := state_bundlers p; fill := fill p;
     timers := timers p; schemaChecks := schemaChecks p; fillUpdates := fillUpdates p;
     rebuilds := f (rebuilds p); configChecks := configChecks p; dist := dist p;
     seenBundle := seenBundle p |}.

Definition upd_configChecks (f : nat → nat) (p : Proc) : Proc :=
  {| console := console p; notifications := notifications p; sentry := sentry p;
     listening := listening p; created := created p; serveCalls := serveCalls p;
     bundlers := bundlers p; state_visualPath := state_visualPath p;
     state_folders := state_folders p; state_bundlers := state_bundlers p; fill := fill p;
     timers := timers p; schemaChecks := schemaChecks p; fillUpdates := fillUpdates p;
     rebuilds := rebuilds p; configChecks := f (configChecks p); dist := dist p;
     seenBundle := seenBundle p |}.

Definition upd_dist (f : gmap nat Text → gmap nat Text) (p : Proc) : Proc :=
  {| console := console p; notifications := notifications p; sentry := sentry p;
     listening := listening p; created := created p; serveCalls := serveCalls p;
     bundlers := bundlers p; state_visualPath := state_visualPath p;
     state_folders := state_folders p; state_bundlers := state_bundlers p; fill := fill p;
     timers := timers p; schemaChecks := schemaChecks p; fillUpdates := fillUpdates p;
     rebuilds := rebuilds p; configChecks := configChecks p; dist := f (dist p);
     seenBundle := seenBundle p |}.

Definition upd_seenBundle (f : gmap nat bool → gmap nat bool) (p : Proc) : Proc :=
  {| console := console p; notifications := notifications p; sentry := sentry p;
     listening := listening p; created := created p; serveCalls := serveCalls p;
     bundlers := bundlers p; state_visualPath := state_visualPath p;
     state_folders := state_folders p; state_bundlers := state_bundlers p; fill := fill p;
     timers := timers p; schemaChecks := schemaChecks p; fillUpdates := fillUpdates p;
     rebuilds := rebuilds p; configChecks := configChecks p; dist := dist p;
     seenBundle := f (seenBundle p) |}.

Definition M (A : Type) : Type := Proc → Completion A * Proc.

#[global] Instance M_ret : MRet M := λ A a p, (Normal a, p).
#[global] Instance M_bind : MBind M := λ A B f m p,
  match m p with
  | (Normal a, p') => f a p'
  | (Exit code, p') => (Exit code, p')
  | (Throw e, p') => (Throw e, p')
  end.

(** [try { body } catch (error) { handler }]: [process.exit] is not an
    exception and is not caught. *)
Definition tryCatch {A} (body : M A) (handler : Error → M A) : M A := λ p,
  match body p with
  | (Throw e, p') => handler e p'
  | r => r
  end.

Definition throw {A} (e : Error) : M A := λ p, (Throw e, p).
Definition process_exit {A} (code : Z) : M A := λ p, (Exit code, p).
Definition modify (f : Proc → Proc) : M unit := λ p, (Normal (), f p).
Definition get {A} (f : Proc → A) : M A := λ p, (Normal (f p), p).

Definition push {A} (x : A) (l : list A) : list A := l ++ [x].

Definition print (c : Console) : M unit := modify (upd_console (push c)).
Definition printAll (cs : list Console) : M unit := modify (upd_console (λ l, l ++ cs)).
Definition notify (message : Text) : M unit := modify (upd_notifications (push message)).
Definition captureException (e : Error) : M unit := modify (upd_sentry (push e)).
Definition listen (port : Z) : M unit := modify (upd_listening (push port)).

(** [state.bundlers[i] = {}] *)
Definition reset_entry (i : nat) : M unit :=
  modify (upd_state_bundlers (insert i emptyBundlerState)).

(** [state.bundlers[i].prop = value] *)
Definition update_entry (i : nat) (f : BundlerState → BundlerState) : M unit :=
  modify (upd_state_bundlers (alter f i)).

Definition set_folder (v : Text) (b : BundlerState) : BundlerState :=
  {| folder := Some v; port := port b; error := error b |}.
Definition set_port (v : Z) (b : BundlerState) : BundlerState :=
  {| folder := folder b; port := Some v; error := error b |}.
Definition set_error (v : bool) (b : BundlerState) : BundlerState :=
  {| folder := folder b; port := port b; error := Some v |}.

(** [new Bundler(entryPoint, options)] in iteration [i]. *)
Definition newBundler (w : World) (i : nat) : M unit :=
  match start w i with
  | BundlerThrows e => throw e
  | _ => modify (upd_created (push i))
  end.

(** [await bundler.serve(port)] in iteration [i]. *)
Definition serve (w : World) (i : nat) (port : Z) : M unit :=
  modify (upd_serveCalls (push (i, port))) ;;
  match start w i with
  | Served => listen port
  | ServeRejects e => throw e
  | BundlerThrows e => throw e
  end.

Definition basePort : Z := 1200.
Definition portsToCheck : list Z := [basePort; 1400].

(** The key of index [i], as [for (let i in array)] gives it: a decimal
    string. *)
Definition key (i : nat) : Text := numberToString (Z.of_nat i).

(** [parseInt] on the decimal string of an integer.  The code applies it to
    a key of an array and to the number [basePort], which is turned into
    its decimal string first; no other text reaches it, so that [NaN] has no
    counterpart here. *)
Definition parseInt (s : Text) : Z :=
  match NilEmpty.int_of_string (string_of_list_ascii s) with
  | Some d => Z.of_int d
  | None => 0
  end.

(** The [try] of the preflight loop with its [catch], for one port. *)
Definition checkPort (w : World) (port : Z) : M unit :=
  match portCheck w port with
  | InUse =>
      let message := txt "🛑 Port " ++ numberToString port
        ++ txt " is not available, possibly another bundle is already running" in
      print (console_error message) ;;
      notify message ;;
      process_exit 0
  | Free => mret ()
  | ProbeFails error =>
      print (console_log (txt "An error occurred while detecting availability of port "
        ++ numberToString port ++ txt ", skipping this check")) ;;
      print (console_log error)
  end.

(** [for (let i in portsToCheck) { ... }] *)
Fixpoint preflight (w : World) (ports : list Z) : M unit :=
  match ports with
  | [] => mret ()
  | port :: rest => checkPort w port ;; preflight w rest
  end.

(** [if (folders.length === 0) { ... process.exit(); }] *)
Definition checkFolders (w : World) : M unit :=
  if (length (folders w) =? 0)%nat then
    let message := txt "🛑 Template does not contain any size folders, eg. 300x300. Create it or use example templates at https://github.com/nebe-app" in
    print (console_error message) ;;
    notify message ;;
    process_exit 0
  else mret ().

(** [if (selectedFolders.length === 0) { ... process.exit(); }] *)
Definition checkSelection (w : World) : M unit :=
  if (length (selectedFolders w) =? 0)%nat then
    let message := txt "🛑 No sizes where picked to bundle" in
    print (console_error message) ;;
    notify message ;;
    process_exit 0
  else mret ().

(** [port] of iteration [i]: [parseInt(basePort) + parseInt(i)]. *)
Definition portOf (i : nat) : Z := parseInt (numberToString basePort) + parseInt (key i).

(** One iteration of [for (let i in selectedFolders) { ... }]. *)
Definition startTarget (w : World) (i : nat) (folder : Text) : M unit :=
  reset_entry i ;;
  update_entry i (set_folder folder) ;;
  tryCatch
    (newBundler w i ;;
     let port := portOf i in
     serve w i port ;;
     print (console_log (numberToString (parseInt (key i) + 1) ++ txt "/"
       ++ numberToString (Z.of_nat (length (selectedFolders w))) ++ txt " Serving "
       ++ folder ++ txt " on http://localhost:" ++ numberToString port)) ;;
     modify (upd_bundlers (push i)) ;;
     update_entry i (set_error false) ;;
     update_entry i (set_port port))
    (λ error,
     captureException error ;;
     print (console_error (numberToString (parseInt (key i) + 1) ++ txt "/"
       ++ numberToString (Z.of_nat (length (folders w))) ++ txt " Error " ++ folder)) ;;
     print (console_error error) ;;
     update_entry i (set_error false)).

(** The loop, from index [i] on. *)
Fixpoint startFrom (w : World) (i : nat) (selected : list Text) : M unit :=
  match selected with
  | [] => mret ()
  | folder :: rest => startTarget w i folder ;; startFrom w (S i) rest
  end.

Definition startAll (w : World) : M unit := startFrom w 0 (selectedFolders w).

(** An [async] helper that prints and completes. *)
Definition call {A} (r : Completion A * list Console) : M A := λ p,
  (fst r, upd_console (λ l, l ++ snd r) p).

(** [await checkSchema(schemaPath, state)] *)
Definition awaitCheckSchema (w : World) (t : Z) : M unit :=
  match checkSchema w t with
  | None => mret ()
  | Some e => throw e
  end.

(** [handle()], up to the registration of the watchers.  Choosing the
    visual is a matter of prompts; it ends the process when there is no
    brand or no template ([visual w = None]).  Preparing the folder, the
    git status, and copying [config.json] and the include folders to
    [dist] are left out: they change none of the variables followed here
    and, when they succeed, not the course of [handle]. *)
Definition handle (w : World) : M unit :=
  preflight w portsToCheck ;;
  visualPath ← match visual w with
               | Some v => mret v
               | None => process_exit 0
               end ;
  print (console_log (txt "Building " ++ visualPath)) ;;
  modify (upd_state_visualPath (λ _, Some visualPath)) ;;
  listen 1400 ;;
  configResult ← call (checkConfig (configFile w (startTime w))) ;
  (if negb configResult then process_exit 1 else mret ()) ;;
  awaitCheckSchema w (startTime w) ;;
  modify (upd_fill (λ _, getFill w (startTime w))) ;;
  checkFolders w ;;
  print (console_log (txt "Bundling "
    ++ numberToString (Z.of_nat (length (folders w))) ++ txt " sizes")) ;;
  modify (upd_state_folders (λ _, Some (folders w))) ;;
  checkSelection w ;;
  print (console_log (txt "Running bundlers for sizes: "
    ++ join (txt ",") (selectedFolders w))) ;;
  modify (upd_state_bundlers (λ _, ∅)) ;;
  startAll w ;;
  print (console_log (txt "Listening to file changes... Press Ctrl+C to stop servers")).

(** *** After start-up: the callbacks

    Each callback runs to completion on the event loop; [t] is the time at
    which it runs. *)

(** [fs.watch(schemaPath, {}, async () => { ...; setTimeout(..., 200); })] *)
Definition onSchemaChange (t : Z) : M unit :=
  print (console_log (txt "Schema changed, checking and rebundling...")) ;;
  modify (upd_timers (push (t + 200))).

(** The callback given to [setTimeout]. *)
Definition onTimeout (w : World) (t : Z) : M unit :=
  modify (upd_schemaChecks S) ;;
  awaitCheckSchema w t ;;
  modify (upd_fillUpdates S) ;;
  modify (upd_fill (λ _, getFill w t)) ;;
  hs ← get bundlers ;
  modify (upd_rebuilds (λ l, l ++ hs)).

(** [fs.watch(configPath, {}, async () => { ... })] *)
Definition onConfigChange (w : World) (t : Z) : M unit :=
  print (console_log (txt "Config changed, validating")) ;;
  modify (upd_configChecks S) ;;
  _ ← call (checkConfig (configFile w t)) ;
  mret ().

(** The closure of the [bundled] handler of target [i]. *)
Definition ctxOf (w : World) (p : Proc) (i : nat) : Markup.Ctx :=
  {| Markup.local := local w;
     Markup.debug := debug w;
     Markup.fill := fill p;
     Markup.folder := default [] (state_bundlers p !! i ≫= folder);
     Markup.visualPath := default [] (state_visualPath p);
     Markup.port := portOf i |}.

(** [bundler.on('bundled', ...)] for target [i]; [file] is the
    [index.html] the bundling engine has just produced. *)
Definition onBundled (w : World) (i : nat) (file : Text) (t : Z) : M unit :=
  p ← get id ;
  let r := Markup.bundled (ctxOf w p i) t (negb (default false (seenBundle p !! i))) file in
  modify (upd_dist (insert i (Markup.written r))) ;;
  printAll (Markup.printed r) ;;
  modify (upd_seenBundle (insert i true)).

(** What the event loop is given from outside: a change of [schema.json]
    (its watcher is set up when the file exists at the end of [handle]), a
    change of [config.json], or the [bundled] event of the bundler of
    target [i]. *)
Inductive Event :=
| SchemaChange
| ConfigChange
| BundledEvent (i : nat) (file : Text).

(** A callback that ends with an exception leaves an unhandled rejection
    behind; the process goes on. *)
Definition runCallback (c : M unit) (p : Proc) : Proc := snd (c p).

(** The timers due at time [t] run, oldest first, each at the time it is
    due; the others stay. *)
Definition runTimers (w : World) (t : Z) (p : Proc) : Proc :=
  let due := filter (λ d, d ≤ t) (timers p) in
  let later := filter (λ d, ¬ d ≤ t) (timers p) in
  fold_left (λ q d, runCallback (onTimeout w d) q) due (upd_timers (λ _, later) p).

Definition dispatch (w : World) (t : Z) (e : Event) : M unit :=
  match e with
  | SchemaChange => onSchemaChange t
  | ConfigChange => onConfigChange w t
  | BundledEvent i file => onBundled w i file t
  end.

(** One event arriving at time [t]. *)
Definition step (w : World) (p : Proc) (te : Z * Event) : Proc :=
  runCallback (dispatch w (fst te) (snd te)) (runTimers w (fst te) p).

Definition run (w : World) (events : list (Z * Event)) (p : Proc) : Proc :=
  fold_left (step w) events p.

(** Nothing more arrives and every pending timer fires. *)
Definition settle (w : World) (p : Proc) : Proc :=
  fold_left (λ q d, runCallback (onTimeout w d) q) (timers p) (upd_timers (λ _, []) p).

End Dev.

(** ** Notions used to state the properties of the markup

    None of this is in the source: these are the words in which the
    properties below are stated and proved. *)

Module MarkupSpec.

Import Markup.

(** The step of one injection, on the text alone. *)
Definition step (ctx : Ctx) (m : Text) (inj : Injection) : Text := fst (inject ctx inj m).

(** The six markers, by name. *)
Inductive Marker :=
| NEBE_POLYFILLS
| NEBE_DEMO_FILL
| NEBE_VISUAL_CLIENT
| NEBE_ENV
| NEBE_DOCUMENT_TITLE
| NEBE_VISUAL_HELPER.

Definition markers : list Marker :=
  [NEBE_POLYFILLS; NEBE_DEMO_FILL; NEBE_VISUAL_CLIENT; NEBE_ENV; NEBE_DOCUMENT_TITLE;
   NEBE_VISUAL_HELPER].

(** The opening comment of a marker: what its [if] block gives to
    [indexOf]. *)
Definition openTokenOf (m : Marker) : Text :=
  match m with
  | NEBE_POLYFILLS => txt "<!--NEBE_POLYFILLS-->"
  | NEBE_DEMO_FILL => txt "<!--NEBE_DEMO_FILL-->"
  | NEBE_VISUAL_CLIENT => txt "<!--NEBE_VISUAL_CLIENT-->"
  | NEBE_ENV => txt "<!--NEBE_ENV-->"
  | NEBE_DOCUMENT_TITLE => txt "<!--NEBE_DOCUMENT_TITLE-->"
  | NEBE_VISUAL_HELPER => txt "<!--NEBE_VISUAL_HELPER-->"
  end.

(** The markers whose opening comment starts at the front of [s]. *)
Definition markerAt (s : Text) : list Marker :=
  List.filter (λ m, startsWith (openTokenOf m) s) markers.

(** The opening comments found in [s], from left to right. *)
Fixpoint markerSequence (s : Text) : list Marker :=
  match s with
  | [] => []
  | c :: s' => markerAt (c :: s') ++ markerSequence s'
  end.

(** The block an injection splices in: its replacement without the anchor
    tag that ends it. *)
Definition block (inj : Injection) : Text :=
  take (length (replacement inj) - length (anchor inj))
       (replacement inj).

(** A value spliced into a block that brings in neither a substitution
    pattern nor the opening comment of a marker. *)
Definition clean (v : Text) : Prop :=
  plain v ∧ ∀ m, ¬ occurs (openTokenOf m) v.

(** The text of a replacement between its leading line feed and the line
    feed before its anchor. *)
Definition bodyOf (inj : Injection) : Text :=
  let r := replacement inj in
  take (length r - length (anchor inj) - 2) (drop 1 r).

(** The replacements, cut at characters that occur in no token. *)
Definition polyfillsPieces : list (Text * ascii) :=
  [(bodyOf polyfills, nl)].

Definition demoFillPieces (ctx : Ctx) : list (Text * ascii) :=
  [(txt "<!--NEBE_DEMO_FILL-->", nl); (fill ctx, nl);
   (txt "<!--/NEBE_DEMO_FILL-->", nl)].

Definition visualClientPieces (ctx : Ctx) (time : Z) : list (Text * ascii) :=
  [(txt "<!--NEBE_VISUAL_CLIENT-->", nl);
   (if local ctx
    then txt "<script src=" ++ dq :: txt "http://localhost:1236/visual-client.min.js?cb"
    else txt "<script src=" ++ dq
           :: txt "https://cdn.nebe.app/store/serving/dist/visual-client.min.js?cb",
    "="%char);
   (numberToString time, dq);
   (txt "></script>", nl);
   (txt "<!--/NEBE_VISUAL_CLIENT-->", nl)].

Definition envPieces (ctx : Ctx) : list (Text * ascii) :=
  [(txt "<!--NEBE_ENV-->", nl);
   (txt "<script>window.MODE = 'dev'; window.FOLDER = ", "'"%char);
   (folder ctx, "'"%char);
   (txt ";</script>", nl);
   (txt "<!--/NEBE_ENV-->", nl)].

Definition documentTitlePieces (ctx : Ctx) : list (Text * ascii) :=
  [(txt "<!--NEBE_DOCUMENT_TITLE-->", nl);
   (txt "<script>document.title = ", dq);
   (folder ctx, " "%char);
   (visualPath ctx, dq);
   (txt ";</script>", nl);
   (txt "<!--/NEBE_DOCUMENT_TITLE-->", nl)].

Definition visualHelperPieces (ctx : Ctx) : list (Text * ascii) :=
  [(bodyOf (visualHelper ctx), nl)].

(** What [shaped_from_pieces] asks of an injection and its pieces. *)
Definition shapeCheck (inj : Injection) (ps : list (Text * ascii)) : bool :=
  headed (openToken inj) && headed (anchor inj)
  && negb (hasChar "$" (nl :: openToken inj))
  && negb (hasChar "$" (nl :: anchor inj))
  && negb (hasChar nl (openToken inj))
  && match last ps with Some (_, c) => Ascii.eqb c nl | None => false end
  && match stripPrefix (openToken inj) (flatten ps []) with
     | Some _ => true
     | None => false
     end.

(** The shape all six replacements have. *)
Record Shaped (inj : Injection) : Prop := {
  shaped_open : headed (openToken inj) = true;
  shaped_anchor : headed (anchor inj) = true;
  shaped_plain : hasChar "$" (nl :: openToken inj) = false
                 ∧ hasChar "$" (nl :: anchor inj) = false;
  shaped_replacement :
    ∃ body, replacement inj = (nl :: openToken inj) ++ body ++ nl :: anchor inj
}.

(** [Keeps ctx t inj]: the step of [inj] brings no occurrence of [t] into a
    document that has none. *)
Definition Keeps (ctx : Ctx) (t : Text) (inj : Injection) : Prop :=
  ∀ doc, ¬ occurs t doc → ¬ occurs t (step ctx doc inj).

(** What the fill must be like for a document without [</head>], and what
    the folder and the path must be like for one without [</body>]. *)
Definition fillKeepsHead (ctx : Ctx) : Prop :=
  plain (fill ctx) ∧ ¬ occurs head_tag (fill ctx).

Definition namesKeepBody (ctx : Ctx) : Prop :=
  plain (folder ctx) ∧ plain (visualPath ctx)
  ∧ ¬ occurs body_tag (folder ctx) ∧ ¬ occurs body_tag (visualPath ctx).

(** A character that is in none of the opening comments. *)
Definition sepOK (c : ascii) : bool :=
  forallb (λ m, negb (hasChar c (openTokenOf m))) markers.

End MarkupSpec.

(** ** Notions used to state the properties of [handle] *)

Module DevSpec.

Import CheckConfig Dev.

(** The entry of [state.bundlers] that iteration [i] leaves. *)
Definition entryOf (w : World) (i : nat) (folder : Text) : BundlerState :=
  {| folder := Some folder;
     port := match start w i with Served => Some (portOf i) | _ => None end;
     error := Some false |}.

Definition isServed (s : Start) : bool :=
  match s with Served => true | _ => false end.

Definition isCreated (s : Start) : bool :=
  match s with BundlerThrows _ => false | _ => true end.

Definition errorOf (s : Start) : list Error :=
  match s with BundlerThrows e | ServeRejects e => [e] | Served => [] end.

Definition callOf (w : World) (i : nat) : list (nat * Z) :=
  if isCreated (start w i) then [(i, portOf i)] else [].

(** The same world, but for what the [try] block of iteration [k] meets. *)
Definition withStart (w : World) (k : nat) (s : Start) : World :=
  {| local := local w; debug := debug w; startTime := startTime w;
     portCheck := portCheck w; visual := visual w; configFile := configFile w;
     checkSchema := checkSchema w; getFill := getFill w; folders := folders w;
     selectedFolders := selectedFolders w;
     start := λ i, if decide (i = k) then s else start w i |}.

(** The start-up gets as far as looking for size folders. *)
Definition reachesDiscovery (w : World) : Prop :=
  portCheck w 1200 ≠ InUse ∧ portCheck w 1400 ≠ InUse
  ∧ is_Some (visual w)
  ∧ fst (checkConfig (configFile w (startTime w))) = Normal true
  ∧ checkSchema w (startTime w) = None.

Definition isSchemaChange (e : Event) : bool :=
  match e with SchemaChange => true | _ => false end.

(** What has been done and what is still to be done by pending timers. *)
Record Tally := { t_checks : nat; t_fills : nat; t_rebuilds : list nat }.

Definition tally (p : Proc) : Tally :=
  {| t_checks := schemaChecks p + length (timers p);
     t_fills := fillUpdates p + length (timers p);
     t_rebuilds := rebuilds p ++ concat (replicate (length (timers p)) (bundlers p)) |}.

(** The time for which the change event [te] sets its timer. *)
Definition timerOf (te : Z * Event) : Z := fst te + 200.

(** [te] is a change of [schema.json] whose timer is due by time [T]. *)
Definition dueBy (T : Z) (te : Z * Event) : bool :=
  isSchemaChange (snd te) && bool_decide (timerOf te ≤ T).

(** [te] is a change of [schema.json] whose timer is not yet due at time [T]. *)
Definition pendingAt (T : Z) (te : Z * Event) : bool :=
  isSchemaChange (snd te) && bool_decide (¬ timerOf te ≤ T).

End DevSpec.

(** ** Concrete inputs, for the examples below *)

Module Samples.

Definition ctxA : Markup.Ctx :=
  {| Markup.local := false; Markup.debug := false;
     Markup.fill := txt "<script>window.FILL = {};</script>";
     Markup.folder := txt "300x300"; Markup.visualPath := txt "brand/visual";
     Markup.port := 1200 |}.

(** A fill that holds a closing head tag. *)
Definition ctxB : Markup.Ctx :=
  {| Markup.local := false; Markup.debug := false;
     Markup.fill := txt "</head>";
     Markup.folder := txt "300x300"; Markup.visualPath := txt "brand/visual";
     Markup.port := 1200 |}.

Definition docA : Text :=
  txt "<html><head><title>x</title></head><body><main></main></body></html>".

(** A document without [</head>]. *)
Definition docB : Text := txt "<body></body>".

Definition goodConfig : CheckConfig.ConfigFile :=
  CheckConfig.Parsed true (CheckConfig.JsString (txt "html"))
    (CheckConfig.JsString (txt "banner")) (CheckConfig.JsString (txt "a banner")).

(** Two size folders, both selected; the first one cannot be served. *)
Definition worldA : Dev.World :=
  {| Dev.local := false; Dev.debug := false; Dev.startTime := 0;
     Dev.portCheck := λ _, Dev.Free;
     Dev.visual := Some (txt "brand/visual");
     Dev.configFile := λ _, goodConfig;
     Dev.checkSchema := λ _, None;
     Dev.getFill := λ _, txt "<script>window.FILL = {};</script>";
     Dev.folders := [txt "/work/src/brand/visual/300x300/index.html";
                     txt "/work/src/brand/visual/728x90/index.html"];
     Dev.selectedFolders := [txt "300x300"; txt "728x90"];
     Dev.start := λ i, match i with
                       | O => Dev.ServeRejects (txt "listen EADDRINUSE")
                       | _ => Dev.Served
                       end |}.

(** The same folders, both served. *)
Definition worldB : Dev.World := DevSpec.withStart worldA 0 Dev.Served.

(** The same folders, none selected. *)
Definition worldC : Dev.World :=
  {| Dev.local := false; Dev.debug := false; Dev.startTime := 0;
     Dev.portCheck := λ _, Dev.Free;
     Dev.visual := Some (txt "brand/visual");
     Dev.configFile := λ _, goodConfig;
     Dev.checkSchema := λ _, None;
     Dev.getFill := λ _, txt "<script>window.FILL = {};</script>";
     Dev.folders := [txt "/work/src/brand/visual/300x300/index.html";
                     txt "/work/src/brand/visual/728x90/index.html"];
     Dev.selectedFolders := [];
     Dev.start := λ _, Dev.Served |}.

End Samples.

(** ** Code that acts on its surroundings, outside [Dev.handle]

    The entry point, the other commands and the helpers of [Dev] are
    written like [Dev.handle], each over a state of its own: a computation
    takes the state and ends normally, by [process.exit] or by an
    exception. *)

Module Effect.

Definition Eff (S A : Type) : Type := S → Completion A * S.

#[global] Instance Eff_ret {S} : MRet (Eff S) := λ A a s, (Normal a, s).
#[global] Instance Eff_bind {S} : MBind (Eff S) := λ A B f m s,
  match m s with
  | (Normal a, s') => f a s'
  | (Exit code, s') => (Exit code, s')
  | (Throw e, s') => (Throw e, s')
  end.

(** [try { body } catch (error) { handler }] *)
Definition tryCatch {S A} (body : Eff S A) (handler : Error → Eff S A) : Eff S A := λ s,
  match body s with
  | (Throw e, s') => handler e s'
  | r => r
  end.

Definition throw {S A} (e : Error) : Eff S A := λ s, (Throw e, s).
Definition process_exit {S A} (code : Z) : Eff S A := λ s, (Exit code, s).
Definition modify {S} (f : S → S) : Eff S unit := λ s, (Normal (), f s).
Definition get {S A} (f : S → A) : Eff S A := λ s, (Normal (f s), s).

(** [for (let key in object) { body }], over the entries in the order in
    which they are visited. *)
Fixpoint forEach {S A} (body : A → Eff S unit) (l : list A) : Eff S unit :=
  match l with
  | [] => mret ()
  | x :: rest => body x ;; forEach body rest
  end.

End Effect.

(** ** The constructor of [Dev]: the flags *)

Module Options.

(** [args && args.join(' ').indexOf(flag) !== -1]; [args] is an array, and
    an array is truthy. *)
Definition hasFlag (args : list Text) (flag : Text) : bool :=
  negb (indexOf (join (txt " ") args) flag =? -1).

Record Dev := {
  keepRunning : bool;
  debug : bool;
  newest : bool;
  latest : bool;
  local : bool
}.

(** [new Dev()], with [argv] the value of [process.argv]. *)
Definition constructor (argv : list Text) : Dev :=
  let args := drop 2 argv in
  {| keepRunning := true;
     debug := hasFlag args (txt "--debug");
     newest := hasFlag args (txt "--newest");
     latest := hasFlag args (txt "--latest");
     local := hasFlag args (txt "--local") |}.

End Options.

(** ** The entry point

    The script reads the name of the command from the command line, loads
    the class of this name from [lib/commands], and calls its [handle].
    The classes are loaded by name, so that the script is modelled over any
    collection of them; [S] is the state the commands act on. *)

Module Cli.

Import Effect.

Section Main.
Context {S : Type}.

(** An instance of a command class. *)
Record Command := {
  keepRunning : bool;                 (* [command.keepRunning === true] *)
  handle : list Text → Eff S unit     (* [command.handle(commandArgs)] *)
}.

(** What the script finds around it: the helpers [checkForUpdate] (called
    and not awaited) and [checkInstall], whose sources are not at hand,
    whether [lib/commands/<name>.js] exists, the instance that
    [new (require(...))()] gives, and the console. *)
Record Host := {
  checkForUpdate : S → S;
  checkInstall : Eff S unit;
  commandExists : Text → bool;
  load : Text → Command;
  console_out : Console → S → S
}.

(** [Array.prototype.indexOf]: the first index that holds [x], or [-1]. *)
Fixpoint arrayIndexOf (l : list Text) (x : Text) : Z :=
  match l with
  | [] => -1
  | y :: rest =>
      if bool_decide (y = x) then 0
      else let i := arrayIndexOf rest x in if i =? -1 then -1 else i + 1
  end.

(** [commandName]: ['help'], or [_.toString(args[0])]; an argument of the
    command line is a string, which [_.toString] gives back as it is. *)
Definition commandNameOf (argv : list Text) : Text :=
  match drop 2 argv with
  | [] => txt "help"
  | name :: _ => name
  end.

(** [commandName !== 'install' && commandName !== 'login' && commandName !== 'help'] *)
Definition needsInstall (commandName : Text) : bool :=
  negb (bool_decide (commandName = txt "install"))
  && negb (bool_decide (commandName = txt "login"))
  && negb (bool_decide (commandName = txt "help")).

(** [commandIndex > 0 ? process.argv.slice(commandIndex + 1) : []] *)
Definition commandArgsOf (argv : list Text) (commandName : Text) : list Text :=
  let commandIndex := arrayIndexOf argv commandName in
  if 0 <? commandIndex then drop (Z.to_nat (commandIndex + 1)) argv else [].

(** The body of the script, with [argv] the value of [process.argv]. *)
Definition main (h : Host) (argv : list Text) : Eff S unit :=
  modify (checkForUpdate h) ;;
  let commandName := commandNameOf argv in
  (if needsInstall commandName then checkInstall h else mret ()) ;;
  if negb (commandExists h commandName) then
    modify (console_out h (console_error
      (txt "Command " ++ commandName
         ++ txt " does not exist. Run nebe help for the command list"))) ;;
    process_exit 0
  else
    let command := load h commandName in
    let commandArgs := commandArgsOf argv commandName in
    handle command commandArgs ;;
    if keepRunning command then mret () else process_exit 0.

End Main.

Arguments Command S : clear implicits.
Arguments Host S : clear implicits.

End Cli.

(** ** The command [set-root] *)

Module SetRoot.

Import Effect.

(** The console and the store behind [config.set]. *)
Record Proc := {
  console : list Console;
  config : gmap Text Text
}.

Definition initial : Proc := {| console := []; config := ∅ |}.

Definition upd_console (f : list Console → list Console) (p : Proc) : Proc :=
  {| console := f (console p); config := config p |}.

Definition upd_config (f : gmap Text Text → gmap Text Text) (p : Proc) : Proc :=
  {| console := console p; config := f (config p) |}.

(** [handle(args)]; [cwd] is the value of [process.cwd()]. *)
Definition handle (cwd : Text) (args : list Text) : Eff Proc unit :=
  if (length args =? 1)%nat then
    modify (upd_config (insert (txt "root") cwd)) ;;
    modify (upd_console (λ l, l ++ [console_log (txt "Root set")]))
  else mret ().

(** The class sets no [keepRunning]. *)
Definition command (cwd : Text) : Cli.Command Proc :=
  {| Cli.keepRunning := false; Cli.handle := handle cwd |}.

End SetRoot.

(** ** Choosing the visual

    The start of [Dev.handle] and the helpers [getLastVisual],
    [detectLastVisual] and [selectVisual]. *)

Module Visual.

Import Effect.

(** A question of type [list] put to the user by [inquirer.prompt]. *)
Record Question := {
  message : Text;
  choices : list Text
}.

(** What the helpers find around them.  A path is given as the arguments
    of [path.join]; [getDirectories], whose source is not at hand, is taken
    to resolve to a list of strings or to reject.
    - [newest], [latest]: [this.newest], [this.latest];
    - [root]: [getRoot()];
    - [newestVisual]: [getConfig('newestVisual')];
    - [lastDev]: [getLastDev()];
    - [isDirectory]: [(await lstat(...)).isDirectory()]; [None] when
      [lstat] rejects, which happens inside a [try];
    - [getDirectories]: [await getDirectories(...)]: the error it rejects
      with, or the list;
    - [answer]: [await inquirer.prompt(...)]: the error it rejects with, or
      what the user picks, [answers.first]. *)
Record World := {
  newest : bool;
  latest : bool;
  root : Text;
  newestVisual : option Text;
  lastDev : option Text;
  isDirectory : list Text → option bool;
  getDirectories : list Text → Error + list Text;
  answer : Question → Error + Text
}.

(** The lines printed, the questions asked and the paths given to
    [lstat]. *)
Record Proc := {
  console : list Console;
  asked : list Question;
  stats : list (list Text)
}.

Definition initial : Proc := {| console := []; asked := []; stats := [] |}.

Definition upd_console (f : list Console → list Console) (p : Proc) : Proc :=
  {| console := f (console p); asked := asked p; stats := stats p |}.

Definition upd_asked (f : list Question → list Question) (p : Proc) : Proc :=
  {| console := console p; asked := f (asked p); stats := stats p |}.

Definition upd_stats (f : list (list Text) → list (list Text)) (p : Proc) : Proc :=
  {| console := console p; asked := asked p; stats := f (stats p) |}.

Definition print (c : Console) : Eff Proc unit := modify (upd_console (λ l, l ++ [c])).

(** [await] outside any [try]: the value, or the rejection as an
    exception. *)
Definition await {A} (r : Error + A) : Eff Proc A :=
  match r with
  | inl e => throw e
  | inr a => mret a
  end.

(** [(await inquirer.prompt(question)).first] *)
Definition prompt (w : World) (q : Question) : Eff Proc Text :=
  modify (upd_asked (λ l, l ++ [q])) ;;
  await (answer w q).

(** Whether a value is truthy: [undefined], [null] and the empty string are
    not. *)
Definition truthy (v : option Text) : bool :=
  match v with
  | Some (_ :: _) => true
  | _ => false
  end.

(** The [try] that looks at the path of the visual developed last, with
    its empty [catch]: the value of [visualExists] after it. *)
Definition visualExists (w : World) (lastDev : Text) : Eff Proc bool :=
  let path := [root w; txt "src"; lastDev] in
  modify (upd_stats (λ l, l ++ [path])) ;;
  mret (default false (isDirectory w path)).

(** [getLastVisual()]: [null] or [lastDev]. *)
Definition getLastVisual (w : World) : Eff Proc (option Text) :=
  if negb (truthy (lastDev w)) then mret None
  else
    let lastDev := default [] (lastDev w) in
    found ← visualExists w lastDev ;
    if negb found then mret None
    else mret (Some lastDev).

(** [detectLastVisual()]: [null] or [lastDev]. *)
Definition detectLastVisual (w : World) : Eff Proc (option Text) :=
  if negb (truthy (lastDev w)) then mret None
  else
    let lastDev := default [] (lastDev w) in
    found ← visualExists w lastDev ;
    let lastVisualContent := lastDev in
    if negb found then mret None
    else
      first ← prompt w {| message := txt "Develop recent template? " ++ lastVisualContent;
                          choices := [txt "Yes"; txt "No"] |} ;
      mret (if bool_decide (first = txt "Yes") then Some lastVisualContent else None).

(** [folder[0] !== '.'] *)
Definition visible (folder : Text) : bool :=
  match folder with
  | c :: _ => negb (Ascii.eqb c ".")
  | [] => true
  end.

(** The names under which the brands and the templates are offered. *)
Definition brandChoice (w : World) (brandPath : Text) : Text :=
  replace (replace brandPath (root w ++ txt "/src/") []) (txt "/brand.json") [].

Definition visualChoice (w : World) (selectedBrand visualPath : Text) : Text :=
  replace (replace visualPath (root w ++ txt "/src/" ++ selectedBrand ++ txt "/") [])
    (txt "/") [].

(** [selectVisual()] *)
Definition selectVisual (w : World) : Eff Proc Text :=
  brandFolders ← await (getDirectories w [root w; txt "src"]) ;
  let brands := List.filter visible brandFolders in
  (if (length brands =? 0)%nat
   then print (console_error (txt "No brands")) ;; process_exit 0
   else mret ()) ;;
  selectedBrand ←
    match brands with
    | [brand] => mret brand             (* [brands.length === 1]: [brands[0]] *)
    | _ =>
        first ← prompt w {| message := txt "Select brand";
                            choices := map (brandChoice w) brands |} ;
        print (console_log first) ;;
        mret first
    end ;
  visualFolders ← await (getDirectories w [root w; txt "src"; selectedBrand]) ;
  let visuals := List.filter visible visualFolders in
  (if (length visuals =? 0)%nat
   then print (console_error (txt "No templates")) ;; process_exit 0
   else mret ()) ;;
  let visuals := rev visuals in
  selectedVisual ← prompt w {| message := txt "Select template";
                               choices := map (visualChoice w selectedBrand) visuals |} ;
  mret (selectedBrand ++ txt "/" ++ selectedVisual).

(** The choice of [visualPath] at the start of [Dev.handle]. *)
Definition chooseVisual (w : World) : Eff Proc Text :=
  visualPath ←
    (if newest w && truthy (newestVisual w) then mret (newestVisual w)
     else if latest w then getLastVisual w
     else detectLastVisual w) ;
  if negb (truthy visualPath) then selectVisual w
  else mret (default [] visualPath).

End Visual.

(** ** The command [sync]

    The command asks the server for the visuals of every brand and sees to
    it that each has a directory with a repository in it.  What it does to
    the file system and through [git] is recorded as a list of operations;
    whether an operation throws, and what the file system answers, may
    depend on the operations made before. *)

Module Sync.

Import Effect CheckConfig.

(** One visual of the response; [output_category] is compared with a
    string, [origin] is given to [git]. *)
Record VisualData := {
  output_category : JsValue;
  origin : Text
}.

(** [response.data.brands]: brand by brand and, in a brand, visual by
    visual, in the order in which [for ... in] visits the keys. *)
Definition Brands : Type := list (Text * list (Text * VisualData)).

(** An operation that changes something. *)
Inductive Op :=
| WriteFileSync (path content : Text)   (* [fs.writeFileSync] *)
| Mkdir (path : Text)                   (* [fs.promises.mkdir] *)
| MkdirSync (path : Text)               (* [fs.mkdirSync] *)
| GitCwd (path : Text)                  (* [git.cwd] *)
| GitInit                               (* [git.init] *)
| GitAddRemote (name url : Text)        (* [git.addRemote] *)
| GitClone (url path : Text).           (* [git.clone] *)

(** What the command finds around it.  The first argument of the last four
    fields is the list of the operations made so far.
    - [root]: [config.get('root')], as a template renders it;
    - [request]: [await axios.get(...)]: the error it rejects with, or
      [response.data.brands];
    - [inspect]: an error as [console.log] shows it;
    - [messageOf]: [error.message];
    - [pathJoin]: [path.join];
    - [outcome]: the exception an operation ends with, if any;
    - [lstatSync]: [fs.lstatSync(path).isDirectory()], or the exception;
    - [readdirSync]: [fs.readdirSync(path)], or the exception;
    - [existsSync]: [fs.existsSync(path)]. *)
Record World := {
  root : Text;
  request : Error + Brands;
  inspect : Error → Text;
  messageOf : Error → Text;
  pathJoin : list Text → Text;
  outcome : list Op → Op → option Error;
  lstatSync : list Op → Text → Error + bool;
  readdirSync : list Op → Text → Error + list Text;
  existsSync : list Op → Text → bool
}.

(** The lines printed and the operations made, those that threw
    included. *)
Record Proc := {
  console : list Console;
  ops : list Op
}.

Definition initial : Proc := {| console := []; ops := [] |}.

Definition upd_console (f : list Console → list Console) (p : Proc) : Proc :=
  {| console := f (console p); ops := ops p |}.

Definition upd_ops (f : list Op → list Op) (p : Proc) : Proc :=
  {| console := console p; ops := f (ops p) |}.

Definition print (c : Console) : Eff Proc unit := modify (upd_console (λ l, l ++ [c])).

(** An operation: it is recorded, and it returns or throws as the
    surroundings say. *)
Definition perform (w : World) (op : Op) : Eff Proc unit := λ p,
  (match outcome w (ops p) op with
   | None => Normal ()
   | Some e => Throw e
   end,
   upd_ops (λ l, l ++ [op]) p).

(** A call that returns a value or throws. *)
Definition ask {A} (r : list Op → Error + A) : Eff Proc A := λ p,
  (match r (ops p) with
   | inl e => Throw e
   | inr a => Normal a
   end, p).

(** The [try] that looks at [path] and the [catch] that creates it; [what]
    is the text printed in front of the path. *)
Definition ensureDirectory (w : World) (path what : Text) : Eff Proc unit :=
  tryCatch
    (isDirectory ← ask (λ h, lstatSync w h path) ;
     if negb isDirectory then throw (txt "Not directory") else mret ())
    (λ _,
     perform w (MkdirSync path) ;;
     print (console_log (what ++ path))).

(** [visualData.output_category === 'source'] *)
Definition isSource (v : JsValue) : bool :=
  match v with
  | JsString s => bool_decide (s = txt "source")
  | JsOther => false
  end.

(** The body of the inner loop. *)
Definition syncVisual (w : World) (brand : Text) (entry : Text * VisualData)
  : Eff Proc unit :=
  let visual := fst entry in
  let visualData := snd entry in
  (if isSource (output_category visualData)
   then print (console_log (txt "Skipping source visual " ++ visual))
   else mret ()) ;;
  let repoPath := root w ++ txt "/src/" ++ brand ++ txt "/" ++ visual in
  ensureDirectory w repoPath (txt "Creating repo directory ") ;;
  files ← ask (λ h, readdirSync w h repoPath) ;
  if (0 <? length files)%nat then
    tryCatch
      (perform w (GitCwd repoPath) ;;
       perform w GitInit ;;
       perform w (GitAddRemote (txt "origin") (origin visualData)) ;;
       print (console_log (txt "Repository successfully inited")))
      (λ _, mret ())
  else
    hasGit ← get (λ p, existsSync w (ops p) (pathJoin w [repoPath; txt ".git"])) ;
    if negb hasGit then
      perform w (GitClone (origin visualData) repoPath) ;;
      print (console_log (txt "Repository successfully cloned"))
    else mret ().

(** The body of the outer loop. *)
Definition syncBrand (w : World) (entry : Text * list (Text * VisualData))
  : Eff Proc unit :=
  let brand := fst entry in
  let brandPath := root w ++ txt "/src/" ++ brand in
  ensureDirectory w brandPath (txt "Creating directory ") ;;
  forEach (syncVisual w brand) (snd entry).

(** [handle()]: [false], or [undefined] at the end of the body.  The user
    name and the password read from the configuration go into the request
    and nowhere else. *)
Definition handle (w : World) : Eff Proc (option bool) :=
  match request w with
  | inl error =>
      print (console_log (inspect w error)) ;;
      print (console_error (messageOf w error)) ;;
      mret (Some false)
  | inr brands =>
      perform w (WriteFileSync (root w ++ txt "/.gitignore") (txt "*.url")) ;;
      tryCatch (perform w (Mkdir (root w ++ txt "/src"))) (λ _, mret ()) ;;
      forEach (syncBrand w) brands ;;
      mret None
  end.

(** The class sets no [keepRunning]. *)
Definition command (w : World) : Cli.Command Proc :=
  {| Cli.keepRunning := false; Cli.handle := λ _, _ ← handle w ; mret () |}.

End Sync.

(** ** [Dev.handle], with every call it makes

    [Dev.handle] above follows the variables of the session.  Between its
    steps the code calls the configuration, the file system, [git],
    [glob], [express], [rimraf] and [inquirer]; none of these calls is
    inside a [try], so that an exception of any of them ends [handle].
    After the loop it registers the two watchers with [fs.watch], outside
    any [try] as well.  Here each such call is a site of its own, in the
    order of the source; what it returns, when it returns, is what
    [Dev.World] gives.  Writing to the console and raising a desktop
    notification are taken to return, as in [Dev.handle]. *)

Module Startup.

Import Effect CheckConfig.

(** The calls of [handle] that are outside every [try]. *)
Inductive Site :=
| GetRoot         (* [getRoot()] *)
| PathJoin        (* [path.join(root)] *)
| PrepareFolder   (* [await prepareFolder()]: its [process.chdir] is outside its [try] *)
| ChooseVisual    (* [getConfig], [getLastVisual], [detectLastVisual], [selectVisual] *)
| SetLastDev      (* [setConfig('lastDev', visualPath)] *)
| RemoveDist      (* [fs.removeSync(path.join(bundlerFolder, 'dist'))] *)
| SimpleGit       (* [simpleGit()] *)
| GitCwd          (* [await git.cwd(...)] *)
| GitStatus       (* [await git.status()] *)
| Express         (* [express()], [app.get(...)], [app.listen(1400)] *)
| CopyConfig      (* [fs.copySync(configPath, destConfigPath)] *)
| ReadConfig      (* [fs.readJsonSync(configPath)] *)
| GlobIncludes    (* [glob.sync(.../include/)] *)
| CopyIncludes    (* the loop of [fs.copySync] over the include folders *)
| GetFill         (* [getFill(schemaPath)] *)
| GlobFolders     (* [glob.sync(.../[!_][0-9]*/index.html)] *)
| Rimraf          (* [rimraf.sync(bundlerFolder + '/.cache')] *)
| PromptFolders   (* [await inquirer.prompt(folderChoices)] *)
| WatchSchema     (* [fs.watch(schemaPath, ...)] *)
| WatchConfig.    (* [fs.watch(configPath, ...)] *)

(** What [handle] finds around it.
    - [dev]: what [Dev.handle] is given;
    - [fails]: the exception a call ends with, if any;
    - [schemaExists]: [fs.existsSync(schemaPath)] after the loop. *)
Record World := {
  dev : Dev.World;
  fails : Site → option Error;
  schemaExists : bool
}.

(** The process of [Dev.handle], the calls made so far, those that threw
    included, and the watchers registered. *)
Record Proc := {
  session : Dev.Proc;
  called : list Site;
  watchers : list Site
}.

Definition initial : Proc := {| session := Dev.initial; called := []; watchers := [] |}.

Definition upd_session (f : Dev.Proc → Dev.Proc) (s : Proc) : Proc :=
  {| session := f (session s); called := called s; watchers := watchers s |}.

Definition upd_called (f : list Site → list Site) (s : Proc) : Proc :=
  {| session := session s; called := f (called s); watchers := watchers s |}.

Definition upd_watchers (f : list Site → list Site) (s : Proc) : Proc :=
  {| session := session s; called := called s; watchers := f (watchers s) |}.

(** A step of [Dev.handle]. *)
Definition lift {A} (m : Dev.M A) : Eff Proc A := λ s,
  (fst (m (session s)), upd_session (λ _, snd (m (session s))) s).

(** A call outside every [try]. *)
Definition site (w : World) (x : Site) : Eff Proc unit :=
  modify (upd_called (λ l, l ++ [x])) ;;
  match fails w x with
  | Some e => throw e
  | None => mret ()
  end.

(** [fs.watch(path, {}, callback)]: the watcher is there when the call
    returns. *)
Definition watch (w : World) (x : Site) : Eff Proc unit :=
  site w x ;;
  modify (upd_watchers (λ l, l ++ [x])).

(** [handle()] *)
Definition handle (w : World) : Eff Proc unit :=
  let d := dev w in
  lift (Dev.preflight d Dev.portsToCheck) ;;
  site w GetRoot ;;
  site w PathJoin ;;
  site w PrepareFolder ;;
  site w ChooseVisual ;;
  visualPath ← lift (match Dev.visual d with
                     | Some v => mret v
                     | None => Dev.process_exit 0
                     end) ;
  lift (Dev.print (console_log (txt "Building " ++ visualPath))) ;;
  site w SetLastDev ;;
  site w RemoveDist ;;
  site w SimpleGit ;;
  site w GitCwd ;;
  site w GitStatus ;;
  lift (Dev.modify (Dev.upd_state_visualPath (λ _, Some visualPath))) ;;
  site w Express ;;
  lift (Dev.listen 1400) ;;
  configResult ← lift (Dev.call (checkConfig (Dev.configFile d (Dev.startTime d)))) ;
  (if negb configResult then process_exit 1 else mret ()) ;;
  site w CopyConfig ;;
  site w ReadConfig ;;
  site w GlobIncludes ;;
  site w CopyIncludes ;;
  lift (Dev.awaitCheckSchema d (Dev.startTime d)) ;;
  site w GetFill ;;
  lift (Dev.modify (Dev.upd_fill (λ _, Dev.getFill d (Dev.startTime d)))) ;;
  site w GlobFolders ;;
  lift (Dev.checkFolders d) ;;
  lift (Dev.print (console_log (txt "Bundling "
    ++ numberToString (Z.of_nat (length (Dev.folders d))) ++ txt " sizes"))) ;;
  lift (Dev.modify (Dev.upd_state_folders (λ _, Some (Dev.folders d)))) ;;
  site w Rimraf ;;
  site w PromptFolders ;;
  lift (Dev.checkSelection d) ;;
  lift (Dev.print (console_log (txt "Running bundlers for sizes: "
    ++ join (txt ",") (Dev.selectedFolders d)))) ;;
  lift (Dev.modify (Dev.upd_state_bundlers (λ _, ∅))) ;;
  lift (Dev.startAll d) ;;
  lift (Dev.print (console_log
    (txt "Listening to file changes... Press Ctrl+C to stop servers"))) ;;
  (if schemaExists w then watch w WatchSchema else mret ()) ;;
  watch w WatchConfig.

End Startup.
(** ** Notions used to state the properties of the entry point *)

Module CliSpec.

Import Effect Cli.

Section Spec.
Context {S : Type}.

(** What the script does before it looks for the command. *)
Definition prelude (h : Host S) (argv : list Text) : Eff S unit :=
  modify (checkForUpdate h) ;;
  if needsInstall (commandNameOf argv) then checkInstall h else mret ().

(** The same surroundings, with another [checkInstall]. *)
Definition withCheckInstall (h : Host S) (c : Eff S unit) : Host S :=
  {| checkForUpdate := checkForUpdate h; checkInstall := c;
     commandExists := commandExists h; load := load h; console_out := console_out h |}.

(** How the script ends after a handler that ended with [c]. *)
Definition after (command : Command S) (c : Completion unit) : Completion unit :=
  match c with
  | Normal _ => if keepRunning command then Normal () else Exit 0
  | c => c
  end.

End Spec.

(** The surroundings of [Dev.handle], with the flags that the constructor
    reads from the command line. *)
Definition withFlags (o : Options.Dev) (w : Dev.World) : Dev.World :=
  {| Dev.local := Options.local o; Dev.debug := Options.debug o;
     Dev.startTime := Dev.startTime w; Dev.portCheck := Dev.portCheck w;
     Dev.visual := Dev.visual w; Dev.configFile := Dev.configFile w;
     Dev.checkSchema := Dev.checkSchema w; Dev.getFill := Dev.getFill w;
     Dev.folders := Dev.folders w; Dev.selectedFolders := Dev.selectedFolders w;
     Dev.start := Dev.start w |}.

(** The instance of [Dev] that the script makes for a command line, in
    surroundings [w]. *)
Definition devCommand (argv : list Text) (w : Dev.World) : Command Dev.Proc :=
  let o := Options.constructor argv in
  {| keepRunning := Options.keepRunning o;
     handle := λ _, Dev.handle (withFlags o w) |}.

End CliSpec.

(** ** Notions used to state the properties of the handler and the watchers *)

Module WatchSpec.

Import Dev DevSpec.


(** A line printed by [console.log]. *)
Definition isLog (c : Console) : Prop := ∃ m, c = console_log m.

(** The line that tells of a bundle after the first. *)
Definition bundledLine (ctx : Markup.Ctx) : Console :=
  console_log (txt "Bundled " ++ Markup.folder ctx ++ txt " on http://localhost:"
                 ++ numberToString (Markup.port ctx)).

(** The line that tells of a missing [<main>]. *)
Definition mainWarning (ctx : Markup.Ctx) : Console :=
  console_error (txt "Resize " ++ Markup.folder ctx
                   ++ txt " does not contain element <main>!").

(** The closure of a handler, with another fill. *)
Definition withFill (ctx : Markup.Ctx) (fill : Text) : Markup.Ctx :=
  {| Markup.local := Markup.local ctx; Markup.debug := Markup.debug ctx;
     Markup.fill := fill; Markup.folder := Markup.folder ctx;
     Markup.visualPath := Markup.visualPath ctx; Markup.port := Markup.port ctx |}.

End WatchSpec.

(** ** Notions used to state the properties of the choice of the visual *)

Module VisualSpec.

Import Visual.

(** The arguments of [path.join] for the visual developed last. *)
Definition lastDevPath (w : World) : list Text :=
  [root w; txt "src"; default [] (lastDev w)].

(** The question about the visual developed last. *)
Definition recent (w : World) : Question :=
  {| message := txt "Develop recent template? " ++ default [] (lastDev w);
     choices := [txt "Yes"; txt "No"] |}.

(** The visual developed last is set and is a directory. *)
Definition lastDevFound (w : World) : bool :=
  truthy (lastDev w) && bool_decide (isDirectory w (lastDevPath w) = Some true).

(** No flag settles the choice. *)
Definition noShortcut (w : World) : bool :=
  negb (newest w && truthy (newestVisual w)) && negb (latest w).

(** A name that is not hidden: it does not start with a dot. *)
Definition shown (name : Text) : bool := negb (startsWith (txt ".") name).

(** The entries of a listing that are not hidden, or the error of the
    listing. *)
Definition listing (w : World) (path : list Text) : Error + list Text :=
  match getDirectories w path with
  | inl e => inl e
  | inr l => inr (List.filter shown l)
  end.

(** The brands and, in a brand, the templates that are not hidden. *)
Definition brandsOf (w : World) : Error + list Text :=
  listing w [root w; txt "src"].

Definition templatesOf (w : World) (brand : Text) : Error + list Text :=
  listing w [root w; txt "src"; brand].

(** The two questions of [selectVisual]. *)
Definition brandQuestion (w : World) (brands : list Text) : Question :=
  {| message := txt "Select brand"; choices := map (brandChoice w) brands |}.

Definition templateQuestion (w : World) (brand : Text) (templates : list Text)
  : Question :=
  {| message := txt "Select template";
     choices := map (visualChoice w brand) (rev templates) |}.

(** The brand that [selectVisual] goes on with, when it gets that far: the
    only brand, or the answer to the question about the brand, which may
    be a rejection. *)
Definition brandPicked (w : World) : option (Error + Text) :=
  match brandsOf w with
  | inl _ | inr [] => None
  | inr [brand] => Some (inr brand)
  | inr brands => Some (answer w (brandQuestion w brands))
  end.

(** Every entry of every listing is a name: it holds no slash. *)
Definition listsNames (w : World) : Prop :=
  ∀ path l f, getDirectories w path = inr l → f ∈ l → "/"%char ∉ f.

End VisualSpec.

(** ** Notions used to state the properties of [sync] *)

Module SyncSpec.

Import Effect CheckConfig Sync.

(** The same surroundings, with another answer to the request. *)
Definition withRequest (w : World) (r : Error + Brands) : World :=
  {| root := root w; request := r; inspect := inspect w; messageOf := messageOf w;
     pathJoin := pathJoin w; outcome := outcome w; lstatSync := lstatSync w;
     readdirSync := readdirSync w; existsSync := existsSync w |}.

(** The same brands and visuals, with the categories that [f] gives. *)
Definition recategorise (f : Text → Text → JsValue) (brands : Brands) : Brands :=
  map (λ b, (fst b,
             map (λ v, (fst v, {| output_category := f (fst b) (fst v);
                                  origin := origin (snd v) |})) (snd b)))
      brands.

Definition brandPathOf (w : World) (brand : Text) : Text :=
  root w ++ txt "/src/" ++ brand.

Definition repoPathOf (w : World) (brand visual : Text) : Text :=
  root w ++ txt "/src/" ++ brand ++ txt "/" ++ visual.

(** The operations that download everything: the directory of every brand
    and, in it, the directory and the clone of every visual. *)
Definition downloadOps (w : World) (brands : Brands) : list Op :=
  WriteFileSync (root w ++ txt "/.gitignore") (txt "*.url")
  :: Mkdir (root w ++ txt "/src")
  :: concat (map (λ b,
       MkdirSync (brandPathOf w (fst b))
       :: concat (map (λ v,
            [MkdirSync (repoPathOf w (fst b) (fst v));
             GitClone (origin (snd v)) (repoPathOf w (fst b) (fst v))]) (snd b)))
       brands).

(** Two computations that end alike and make the same operations, from
    states that hold the same operations. *)
Definition alike {A} (m m' : Eff Proc A) : Prop :=
  ∀ p p', ops p = ops p' →
    fst (m p) = fst (m' p') ∧ ops (snd (m p)) = ops (snd (m' p')).

(** A computation that never ends the process, and one that always
    returns. *)
Definition noExit {A} (m : Eff Proc A) : Prop :=
  ∀ p code, fst (m p) ≠ Exit code.

Definition returns {A} (m : Eff Proc A) : Prop :=
  ∀ p, ∃ a, fst (m p) = Normal a.

(** Of the operations [l], made one after the other after the operations
    [h], those up to and including the first that throws; and whether
    none throws. *)
Fixpoint upToFailure (w : World) (h l : list Op) : list Op * bool :=
  match l with
  | [] => ([], true)
  | op :: rest =>
      match outcome w h op with
      | Some _ => ([op], false)
      | None => let r := upToFailure w (h ++ [op]) rest in (op :: fst r, snd r)
      end
  end.

End SyncSpec.

(** ** Notions used to state the properties of the start-up *)

Module StartupSpec.

Import Effect CheckConfig Startup.

(** The calls of [handle], in the order of the source: up to the check of
    [config.json], from there to the loop, and after the loop. *)
Definition sitesBeforeConfig : list Site :=
  [GetRoot; PathJoin; PrepareFolder; ChooseVisual; SetLastDev; RemoveDist; SimpleGit;
   GitCwd; GitStatus; Express].

Definition sitesBeforeLoop : list Site :=
  [CopyConfig; ReadConfig; GlobIncludes; CopyIncludes; GetFill; GlobFolders; Rimraf;
   PromptFolders].

Definition sitesAfterLoop (w : World) : list Site :=
  (if schemaExists w then [WatchSchema] else []) ++ [WatchConfig].

Definition allSites (w : World) : list Site :=
  sitesBeforeConfig ++ sitesBeforeLoop ++ sitesAfterLoop w.

(** Of the calls [l], made one after the other, those up to and including
    the first that throws, and its exception. *)
Fixpoint upToFailure (w : World) (l : list Site) : list Site * option Error :=
  match l with
  | [] => ([], None)
  | x :: rest =>
      match fails w x with
      | Some e => ([x], Some e)
      | None => let r := upToFailure w rest in (x :: fst r, snd r)
      end
  end.

(** *** [handle] as a list of stages

    A stage is a step of [Dev.handle], a call, or the registration of a
    watcher.  [stages] lists the stages of [handle] in the order of the
    source; that [handle] runs them one after the other is
    [StartupFacts.handle_stages]. *)

Inductive Stage :=
| Step (m : Dev.M unit)
| Call (x : Site)
| Watch (x : Site).

Definition runStage (w : World) (st : Stage) : Eff Proc unit :=
  match st with
  | Step m => lift m
  | Call x => site w x
  | Watch x => watch w x
  end.

Fixpoint runStages (w : World) (l : list Stage) : Eff Proc unit :=
  match l with
  | [] => mret ()
  | st :: rest => runStage w st ;; runStages w rest
  end.

Definition stagesBeforeConfig (w : World) : list Stage :=
  let d := dev w in
  let visualPath := default [] (Dev.visual d) in
  [Step (Dev.preflight d Dev.portsToCheck);
   Call GetRoot; Call PathJoin; Call PrepareFolder; Call ChooseVisual;
   Step (match Dev.visual d with
         | Some _ => mret ()
         | None => Dev.process_exit 0
         end);
   Step (Dev.print (console_log (txt "Building " ++ visualPath)));
   Call SetLastDev; Call RemoveDist; Call SimpleGit; Call GitCwd; Call GitStatus;
   Step (Dev.modify (Dev.upd_state_visualPath (λ _, Some visualPath)));
   Call Express;
   Step (Dev.listen 1400)].

Definition configStage (w : World) : Stage :=
  let d := dev w in
  Step (configResult ← Dev.call (checkConfig (Dev.configFile d (Dev.startTime d))) ;
        if negb configResult then Dev.process_exit 1 else mret ()).

Definition stagesBeforeLoop (w : World) : list Stage :=
  let d := dev w in
  [Call CopyConfig; Call ReadConfig; Call GlobIncludes; Call CopyIncludes;
   Step (Dev.awaitCheckSchema d (Dev.startTime d));
   Call GetFill;
   Step (Dev.modify (Dev.upd_fill (λ _, Dev.getFill d (Dev.startTime d))));
   Call GlobFolders;
   Step (Dev.checkFolders d);
   Step (Dev.print (console_log (txt "Bundling "
     ++ numberToString (Z.of_nat (length (Dev.folders d))) ++ txt " sizes")));
   Step (Dev.modify (Dev.upd_state_folders (λ _, Some (Dev.folders d))));
   Call Rimraf; Call PromptFolders;
   Step (Dev.checkSelection d);
   Step (Dev.print (console_log (txt "Running bundlers for sizes: "
     ++ join (txt ",") (Dev.selectedFolders d))));
   Step (Dev.modify (Dev.upd_state_bundlers (λ _, ∅)))].

Definition loopStage (w : World) : Stage := Step (Dev.startAll (dev w)).

Definition listeningStage : Stage :=
  Step (Dev.print (console_log
    (txt "Listening to file changes... Press Ctrl+C to stop servers"))).

Definition watchStages (w : World) : list Stage :=
  (if schemaExists w then [Watch WatchSchema] else []) ++ [Watch WatchConfig].

(** The stages before the loop that starts the targets, and all of them. *)
Definition stagesToLoop (w : World) : list Stage :=
  stagesBeforeConfig w ++ configStage w :: stagesBeforeLoop w.

Definition stages (w : World) : list Stage :=
  stagesToLoop w ++ loopStage w :: listeningStage :: watchStages w.

(** The steps of [Dev.handle] among the stages, one after the other. *)
Fixpoint devRun (l : list Stage) : Dev.M unit :=
  match l with
  | [] => mret ()
  | Step m :: rest => m ;; devRun rest
  | _ :: rest => devRun rest
  end.

(** How a stage ends, and that this does not depend on the state. *)
Definition outcome (w : World) (st : Stage) : Completion unit :=
  fst (runStage w st initial).

Definition steady (w : World) (st : Stage) : Prop :=
  ∀ s, fst (runStage w st s) = outcome w st.

Definition constant (m : Dev.M unit) : Prop :=
  ∀ p, fst (m p) = fst (m Dev.initial).

(** The first completion that is not normal. *)
Fixpoint firstAbnormal (l : list (Completion unit)) : Completion unit :=
  match l with
  | [] => Normal ()
  | Normal _ :: rest => firstAbnormal rest
  | c :: _ => c
  end.

(** The stages run: those up to and including the first that does not end
    normally. *)
Fixpoint ran (w : World) (l : list Stage) : list Stage :=
  match l with
  | [] => []
  | st :: rest =>
      match outcome w st with
      | Normal _ => st :: ran w rest
      | _ => [st]
      end
  end.

Definition siteOf (st : Stage) : list Site :=
  match st with
  | Step _ => []
  | Call x | Watch x => [x]
  end.

Definition sitesOf (l : list Stage) : list Site := concat (map siteOf l).

Definition isStep (st : Stage) : bool :=
  match st with Step _ => true | _ => false end.

Definition isWatch (st : Stage) : bool :=
  match st with Watch _ => true | _ => false end.

(** Nothing has been started: no bundler, no call of [serve], no record
    of the session, no watcher, and no port but 1400. *)
Definition nothingStarted (s : Proc) : Prop :=
  Dev.created (session s) = [] ∧ Dev.serveCalls (session s) = []
  ∧ Dev.bundlers (session s) = [] ∧ Dev.state_bundlers (session s) = ∅
  ∧ watchers s = []
  ∧ ∀ port, port ∈ Dev.listening (session s) → port = 1400.

End StartupSpec.

(** ** Concrete inputs, for the further examples *)

Module Scenarios.

Import Effect.

(** A command line is [node], the script, and the arguments. *)
Definition commandLine (args : list Text) : list Text :=
  txt "/usr/bin/node" :: txt "/usr/bin/nebe" :: args.

(** Surroundings in which [set-root] is the only command. *)
Definition hostA : Cli.Host SetRoot.Proc :=
  {| Cli.checkForUpdate := id;
     Cli.checkInstall := mret ();
     Cli.commandExists := λ name, bool_decide (name = txt "set-root");
     Cli.load := λ _, SetRoot.command (txt "/work");
     Cli.console_out := λ c, SetRoot.upd_console (λ l, l ++ [c]) |}.

(** Surroundings in which [dev] is the only command, with the two size
    folders of [Samples.worldB]. *)
Definition hostB (argv : list Text) : Cli.Host Dev.Proc :=
  {| Cli.checkForUpdate := id;
     Cli.checkInstall := mret ();
     Cli.commandExists := λ name, bool_decide (name = txt "dev");
     Cli.load := λ _, CliSpec.devCommand argv Samples.worldB;
     Cli.console_out := λ c, Dev.upd_console (λ l, l ++ [c]) |}.

(** The surroundings of [Samples.worldB], with a schema that is found
    broken by the check made at time 210. *)
Definition worldD : Dev.World :=
  {| Dev.local := false; Dev.debug := false; Dev.startTime := 0;
     Dev.portCheck := λ _, Dev.Free;
     Dev.visual := Some (txt "brand/visual");
     Dev.configFile := λ _, Samples.goodConfig;
     Dev.checkSchema := λ t, if t =? 210 then Some (txt "schema.json is not valid") else None;
     Dev.getFill := λ _, txt "<script>window.FILL = {};</script>";
     Dev.folders := [txt "/work/src/brand/visual/300x300/index.html";
                     txt "/work/src/brand/visual/728x90/index.html"];
     Dev.selectedFolders := [txt "300x300"; txt "728x90"];
     Dev.start := λ _, Dev.Served |}.

(** The surroundings of [Samples.worldB], without [config.json]. *)
Definition worldE : Dev.World :=
  {| Dev.local := false; Dev.debug := false; Dev.startTime := 0;
     Dev.portCheck := λ _, Dev.Free;
     Dev.visual := Some (txt "brand/visual");
     Dev.configFile := λ _, CheckConfig.Missing;
     Dev.checkSchema := λ _, None;
     Dev.getFill := λ _, txt "<script>window.FILL = {};</script>";
     Dev.folders := [txt "/work/src/brand/visual/300x300/index.html";
                     txt "/work/src/brand/visual/728x90/index.html"];
     Dev.selectedFolders := [txt "300x300"; txt "728x90"];
     Dev.start := λ _, Dev.Served |}.

(** The surroundings of [Samples.worldB], with calls that all return. *)
Definition startupB : Startup.World :=
  {| Startup.dev := Samples.worldB;
     Startup.fails := λ _, None;
     Startup.schemaExists := true |}.

(** The same, with a [config.json] that cannot be watched. *)
Definition startupW : Startup.World :=
  {| Startup.dev := Samples.worldB;
     Startup.fails := λ x,
       match x with
       | Startup.WatchConfig => Some (txt "ENOSPC: System limit for number of file watchers reached")
       | _ => None
       end;
     Startup.schemaExists := true |}.

(** The same, with a [git.status] that rejects. *)
Definition startupG : Startup.World :=
  {| Startup.dev := Samples.worldB;
     Startup.fails := λ x,
       match x with
       | Startup.GitStatus => Some (txt "fatal: not a git repository")
       | _ => None
       end;
     Startup.schemaExists := true |}.

(** The surroundings of [worldE], without [config.json], with calls that
    all return. *)
Definition startupE : Startup.World :=
  {| Startup.dev := worldE;
     Startup.fails := λ _, None;
     Startup.schemaExists := false |}.

(** Two brands and a hidden directory under [src]; the visual developed
    last is there, and the user answers [No], [acme] and [poster]. *)
Definition visualWorld : Visual.World :=
  {| Visual.newest := false; Visual.latest := false;
     Visual.root := txt "/work";
     Visual.newestVisual := None;
     Visual.lastDev := Some (txt "acme/banner");
     Visual.isDirectory := λ path,
       if bool_decide (path = [txt "/work"; txt "src"; txt "acme/banner"])
       then Some true else None;
     Visual.getDirectories := λ path,
       if bool_decide (path = [txt "/work"; txt "src"])
       then inr [txt ".git"; txt "acme"; txt "zeta"]
       else if bool_decide (path = [txt "/work"; txt "src"; txt "acme"])
       then inr [txt "banner"; txt ".DS_Store"; txt "poster"]
       else inr [];
     Visual.answer := λ q,
       if bool_decide (Visual.message q = txt "Select brand") then inr (txt "acme")
       else if bool_decide (Visual.message q = txt "Select template")
       then inr (txt "poster")
       else inr (txt "No") |}.

(** The same, with listings that hold paths and not names. *)
Definition visualWorldPaths : Visual.World :=
  {| Visual.newest := false; Visual.latest := false;
     Visual.root := txt "/work";
     Visual.newestVisual := None;
     Visual.lastDev := None;
     Visual.isDirectory := λ _, None;
     Visual.getDirectories := λ path,
       if bool_decide (path = [txt "/work"; txt "src"])
       then inr [txt "/work/src/.git"; txt "/work/src/acme"]
       else if bool_decide (path = [txt "/work"; txt "src"; txt "acme"])
       then inr [txt "/work/src/acme/banner"; txt "/work/src/acme/.cache"]
       else inr [];
     Visual.answer := λ q,
       if bool_decide (Visual.message q = txt "Select brand") then inr (txt "acme")
       else inr (txt "banner") |}.

(** A brand with two visuals, one of category [source], on a root that
    holds nothing yet. *)
Definition acme : Sync.Brands :=
  [(txt "acme",
    [(txt "banner", {| Sync.output_category := CheckConfig.JsString (txt "source");
                       Sync.origin := txt "git@example.org:acme/banner.git" |});
     (txt "poster", {| Sync.output_category := CheckConfig.JsString (txt "html");
                       Sync.origin := txt "git@example.org:acme/poster.git" |})])].

Definition syncWorld : Sync.World :=
  {| Sync.root := txt "/work";
     Sync.request := inr acme;
     Sync.inspect := λ e, txt "Error: " ++ e;
     Sync.messageOf := λ e, e;
     Sync.pathJoin := λ l, join (txt "/") l;
     Sync.outcome := λ _ _, None;
     Sync.lstatSync := λ _ _, inl (txt "ENOENT");
     Sync.readdirSync := λ _ _, inr [];
     Sync.existsSync := λ _ _, false |}.

(** A root on which every directory exists and holds a file, and on which
    the remote [origin] cannot be added. *)
Definition syncWorldFilled : Sync.World :=
  {| Sync.root := txt "/work";
     Sync.request := inr acme;
     Sync.inspect := λ e, txt "Error: " ++ e;
     Sync.messageOf := λ e, e;
     Sync.pathJoin := λ l, join (txt "/") l;
     Sync.outcome := λ _ op,
       match op with
       | Sync.GitAddRemote _ _ => Some (txt "remote origin already exists")
       | Sync.Mkdir _ => Some (txt "EEXIST")
       | _ => None
       end;
     Sync.lstatSync := λ _ _, inr true;
     Sync.readdirSync := λ _ _, inr [txt "index.html"];
     Sync.existsSync := λ _ _, true |}.

(** The same root, with a server that cannot be reached. *)
Definition syncWorldDown : Sync.World :=
  SyncSpec.withRequest syncWorld (inl (txt "connect ECONNREFUSED")).

(** Surroundings in which [sync] is the only command. *)
Definition hostC (w : Sync.World) : Cli.Host Sync.Proc :=
  {| Cli.checkForUpdate := id;
     Cli.checkInstall := mret ();
     Cli.commandExists := λ name, bool_decide (name = txt "sync");
     Cli.load := λ _, Sync.command w;
     Cli.console_out := λ c, Sync.upd_console (λ l, l ++ [c]) |}.

End Scenarios.

(** * Properties *)

Module TextFacts.

Lemma hasChar_false c l : hasChar c l = false ↔ c ∉ l.
Proof.
  unfold hasChar. induction l as [|d l IH]; cbn.
  - split; [intros _ H; inversion H | reflexivity].
  - rewrite orb_false_iff, IH, not_elem_of_cons.
    destruct (Ascii.eqb_spec c d); split; intros [? ?]; split; done.
Qed.

Lemma hasChar_app c l1 l2 : hasChar c (l1 ++ l2) = hasChar c l1 || hasChar c l2.
Proof. unfold hasChar. apply existsb_app. Qed.

Lemma stripPrefix_Some p : ∀ s r, stripPrefix p s = Some r ↔ s = p ++ r.
Proof.
  induction p as [|c p IH]; intros s r; cbn.
  - split; [intros [= ->] | intros ->]; reflexivity.
  - destruct s as [|d s]; [split; discriminate|].
    destruct (Ascii.eqb_spec c d) as [->|Hne].
    + rewrite IH. split; [intros -> | intros [= ->]]; reflexivity.
    + split; [discriminate | intros [= ? ?]; congruence].
Qed.

Lemma splitFirst_Some p : ∀ s a b, splitFirst p s = Some (a, b) → s = a ++ p ++ b.
Proof.
  induction s as [|c s IH]; intros a b; cbn [splitFirst].
  - destruct (stripPrefix p []) eqn:E; [|discriminate].
    intros [= <- <-]. apply stripPrefix_Some in E. exact E.
  - destruct (stripPrefix p (c :: s)) eqn:E.
    + intros [= <- <-]. apply stripPrefix_Some in E. exact E.
    + destruct (splitFirst p s) as [[a' b']|]; [|discriminate].
      intros [= <- <-]. cbn. f_equal. apply IH. reflexivity.
Qed.

Lemma splitFirst_None p : ∀ s, splitFirst p s = None → ¬ occurs p s.
Proof.
  induction s as [|c s IH]; cbn [splitFirst].
  - destruct (stripPrefix p []) eqn:E; [discriminate|]. intros _ (a & b & H).
    destruct a; [|discriminate]. cbn in H.
    apply stripPrefix_Some in H. congruence.
  - destruct (stripPrefix p (c :: s)) eqn:E; [discriminate|].
    destruct (splitFirst p s) as [[a' b']|] eqn:E2; [discriminate|].
    intros _ (a & b & H). destruct a as [|c' a].
    + cbn in H. apply stripPrefix_Some in H. congruence.
    + cbn in H. injection H as -> H. apply IH; [reflexivity|]. exists a, b. exact H.
Qed.

Lemma occursb_true p s : occursb p s = true ↔ occurs p s.
Proof.
  unfold occursb. destruct (splitFirst p s) as [[a b]|] eqn:E.
  - split; [|reflexivity]. intros _. exists a, b. apply splitFirst_Some, E.
  - split; [discriminate|]. intros H. apply splitFirst_None in E. contradiction.
Qed.

Lemma occursb_false p s : occursb p s = false ↔ ¬ occurs p s.
Proof. rewrite <- occursb_true. destruct (occursb p s); split; congruence. Qed.

Lemma indexOf_absent s p : (indexOf s p =? -1) = negb (occursb p s).
Proof.
  unfold indexOf, occursb. destruct (splitFirst p s) as [[a b]|]; [|reflexivity].
  cbn. apply Z.eqb_neq. lia.
Qed.

Lemma indexOf_minus_one s p : indexOf s p = -1 ↔ ¬ occurs p s.
Proof. rewrite <- occursb_false, <- Z.eqb_eq, indexOf_absent. destruct (occursb p s); done. Qed.

Lemma replace_absent s p r : ¬ occurs p s → replace s p r = s.
Proof.
  intros H. apply occursb_false in H. unfold replace, occursb in *.
  destruct (splitFirst p s) as [[a b]|]; [discriminate|reflexivity].
Qed.

Lemma replace_present s p r :
  occurs p s →
  ∃ a b, splitFirst p s = Some (a, b) ∧ s = a ++ p ++ b
         ∧ replace s p r = a ++ getSubstitution p a b r ++ b.
Proof.
  intros H. apply occursb_true in H. unfold replace, occursb in *.
  destruct (splitFirst p s) as [[a b]|] eqn:E; [|discriminate].
  exists a, b. split; [reflexivity|]. split; [apply splitFirst_Some, E | reflexivity].
Qed.

Lemma occurs_refl t : occurs t t.
Proof. exists [], []. rewrite ?app_nil_r; reflexivity. Qed.

Lemma occurs_app_l t x y : occurs t x → occurs t (x ++ y).
Proof. intros (a & b & ->). exists a, (b ++ y). rewrite <- ?app_assoc; reflexivity. Qed.

Lemma occurs_app_r t x y : occurs t y → occurs t (x ++ y).
Proof. intros (a & b & ->). exists (x ++ a), b. rewrite <- ?app_assoc; reflexivity. Qed.

Lemma occurs_cons t c y : occurs t y → occurs t (c :: y).
Proof. apply (occurs_app_r t [c] y). Qed.

Lemma occurs_nil t : occurs t [] → t = [].
Proof.
  intros (a & b & H). symmetry in H. apply app_eq_nil in H as [_ H].
  apply app_eq_nil in H as [H _]. exact H.
Qed.

(** A character that is not in [t] separates the occurrences of [t]. *)
Lemma occurs_sep t c x y : c ∉ t → occurs t (x ++ c :: y) → occurs t x ∨ occurs t y.
Proof.
  intros Hc (a & b & H).
  apply List.app_eq_app in H as [l [[-> H]|[-> H]]].
  - apply List.app_eq_app in H as [l2 [[-> H]|[-> ->]]].
    + destruct l2 as [|d l2].
      * left. exists a, []. rewrite ?app_nil_r; reflexivity.
      * injection H as <- _. exfalso. apply Hc. rewrite elem_of_app, elem_of_cons. auto.
    + left. exists a, l2. rewrite <- ?app_assoc; reflexivity.
  - destruct l as [|d l].
    + cbn in H. destruct t as [|d t].
      * left. exists x, []. rewrite ?app_nil_r; reflexivity.
      * injection H as <- _. exfalso. apply Hc. left.
    + injection H as <- ->. right. exists l, b. reflexivity.
Qed.

Lemma headed_inv t : headed t = true → ∃ t', t = "<"%char :: t' ∧ "<"%char ∉ t'.
Proof.
  destruct t as [|c t]; [discriminate|]. cbn. intros H.
  apply andb_true_iff in H as [H1 H2]. apply Ascii.eqb_eq in H1 as ->.
  apply negb_true_iff, hasChar_false in H2. eauto.
Qed.

(** Text spliced in just before a [<] hides no occurrence of a headed
    token. *)
Lemma occurs_splice t a x r :
  headed t = true →
  occurs t (a ++ "<"%char :: r) → occurs t (a ++ x ++ "<"%char :: r).
Proof.
  intros Ht (u & v & H). apply headed_inv in Ht as (t' & -> & Ht').
  apply List.app_eq_app in H as [l [[-> H]|[-> H]]].
  - destruct l as [|c l].
    + cbn in H. injection H as <-. rewrite app_nil_r. exists (u ++ x), v.
      rewrite <- ?app_assoc; reflexivity.
    + cbn in H. injection H as <- H.
      apply List.app_eq_app in H as [l2 [[-> H]|[-> ->]]].
      * destruct l2 as [|d l2].
        -- rewrite app_nil_r. apply occurs_app_l. exists u, []. rewrite ?app_nil_r; reflexivity.
        -- injection H as <- _. exfalso. apply Ht'. rewrite elem_of_app, elem_of_cons. auto.
      * apply occurs_app_l. exists u, l2. cbn. rewrite <- ?app_assoc; reflexivity.
  - exists (a ++ x ++ l), v. rewrite H, <- !app_assoc. reflexivity.
Qed.

(** The leftmost occurrence of a headed token. *)
Lemma splitFirst_first p : headed p = true →
  ∀ a b, ¬ occurs p a → splitFirst p (a ++ p ++ b) = Some (a, b).
Proof.
  intros Hp. induction a as [|c a IH]; intros b Ha.
  - cbn [app]. destruct (p ++ b) eqn:E; cbn [splitFirst].
    + rewrite <- E. rewrite (proj2 (stripPrefix_Some p (p ++ b) b)) by reflexivity.
      reflexivity.
    + rewrite <- E. rewrite (proj2 (stripPrefix_Some p (p ++ b) b)) by reflexivity.
      reflexivity.
  - cbn [app splitFirst].
    destruct (stripPrefix p (c :: a ++ p ++ b)) as [r|] eqn:E.
    + exfalso. apply stripPrefix_Some in E.
      destruct (headed_inv p Hp) as (p' & -> & Hp').
      cbn in E. injection E as -> E.
      apply List.app_eq_app in E as [l [[-> H]|[-> H]]].
      * apply Ha. exists [], l. reflexivity.
      * destruct l as [|d l].
        -- apply Ha. exists [], []. rewrite ?app_nil_r; reflexivity.
        -- injection H as <- _. apply Hp'. rewrite elem_of_app, elem_of_cons. auto.
    + rewrite IH; [reflexivity|]. intros H. apply Ha, occurs_cons, H.
Qed.

Lemma getSubstitution_literal m a b l t :
  hasChar "$" l = false →
  getSubstitution m a b (l ++ t) = l ++ getSubstitution m a b t.
Proof.
  induction l as [|c l IH]; [reflexivity|]. intros H.
  unfold hasChar in H. cbn [existsb] in H. apply orb_false_iff in H as [H1 H2].
  cbn [app getSubstitution]. rewrite Ascii.eqb_sym, H1, IH by exact H2.
  reflexivity.
Qed.

Lemma getSubstitution_plain m a b l :
  hasChar "$" l = false → getSubstitution m a b l = l.
Proof.
  intros H. rewrite <- (app_nil_r l) at 1.
  rewrite getSubstitution_literal by exact H. cbn. apply app_nil_r.
Qed.

(** Whatever precedes it, a literal tail survives the substitution, up to
    its first character. *)
Lemma getSubstitution_tail m a b c l :
  hasChar "$" (c :: l) = false →
  ∀ t, ∃ x, getSubstitution m a b (t ++ c :: l) = x ++ l.
Proof.
  intros H t.
  unfold hasChar in H. cbn [existsb] in H. apply orb_false_iff in H as [Hc Hl].
  rewrite Ascii.eqb_sym in Hc. fold (hasChar "$" l) in Hl.
  remember (length t) as n eqn:Hn. revert t Hn.
  induction n as [n IH] using lt_wf_ind. intros t Hn.
  destruct t as [|d t].
  - exists [c]. cbn [app getSubstitution].
    rewrite Hc, getSubstitution_plain by exact Hl. reflexivity.
  - cbn [app getSubstitution]. destruct (Ascii.eqb d "$") eqn:Hd.
    + destruct t as [|e t]; cbn [app].
      * rewrite Hc.
        destruct (Ascii.eqb c "&"); [|destruct (Ascii.eqb c "`"); [|destruct (Ascii.eqb c "'")]].
        -- exists m. rewrite getSubstitution_plain by exact Hl. reflexivity.
        -- exists a. rewrite getSubstitution_plain by exact Hl. reflexivity.
        -- exists b. rewrite getSubstitution_plain by exact Hl. reflexivity.
        -- exists [d; c]. cbn [app getSubstitution].
           rewrite Hc, getSubstitution_plain by exact Hl. reflexivity.
      * destruct (IH (length t)) with (t := t) as [x Hx]; [cbn in Hn; lia | reflexivity|].
        destruct (IH (length (e :: t))) with (t := e :: t) as [y Hy];
          [cbn in Hn |- *; lia | reflexivity|].
        destruct (Ascii.eqb e "$");
          [|destruct (Ascii.eqb e "&");
            [|destruct (Ascii.eqb e "`"); [|destruct (Ascii.eqb e "'")]]].
        -- exists ("$"%char :: x). rewrite Hx. reflexivity.
        -- exists (m ++ x). rewrite Hx, app_assoc. reflexivity.
        -- exists (a ++ x). rewrite Hx, app_assoc. reflexivity.
        -- exists (b ++ x). rewrite Hx, app_assoc. reflexivity.
        -- exists (d :: y). cbn [app] in Hy. rewrite Hy. reflexivity.
    + destruct (IH (length t)) with (t := t) as [x Hx]; [cbn in Hn; lia | reflexivity|].
      exists (d :: x). rewrite Hx. reflexivity.
Qed.

End TextFacts.

Module MarkupFacts.

Import Markup MarkupSpec TextFacts.

Ltac norm_app := repeat (rewrite <- app_assoc || rewrite <- app_comm_cons).

Lemma postProcess_steps ctx time doc :
  postProcess ctx time doc = fold_left (step ctx) (injections ctx time) doc.
Proof. reflexivity. Qed.

Lemma written_postProcess ctx time first file :
  written (bundled ctx time first file) = postProcess ctx time file.
Proof.
  unfold bundled, postProcess, injections. cbn [fold_left].
  repeat match goal with |- context [inject ?c ?i ?m] =>
    let r := fresh "r" in
    remember (inject c i m) as r; destruct r as [? ?]; cbn [fst] in *
  end.
  reflexivity.
Qed.

Lemma step_skip ctx inj doc :
  occurs (openToken inj) doc ∨ ¬ occurs (anchor inj) doc → step ctx doc inj = doc.
Proof.
  unfold step, inject. rewrite indexOf_absent.
  destruct (occursb (openToken inj) doc) eqn:E; cbn [negb fst]; [reflexivity|].
  intros [H|H].
  - apply occursb_true in H. congruence.
  - apply replace_absent, H.
Qed.

Lemma step_splice ctx inj doc :
  Shaped inj → ¬ occurs (openToken inj) doc → occurs (anchor inj) doc →
  ∃ a b x, splitFirst (anchor inj) doc = Some (a, b)
    ∧ doc = a ++ anchor inj ++ b
    ∧ step ctx doc inj = a ++ (nl :: openToken inj ++ x) ++ anchor inj ++ b.
Proof.
  intros [_ _ [Hp1 Hp2] [body Hr]] Ho Ha.
  unfold step, inject. rewrite indexOf_absent.
  apply occursb_false in Ho. rewrite Ho. cbn [negb fst].
  destruct (replace_present doc (anchor inj) (replacement inj) Ha) as (a & b & Hs & Hd & Hrep).
  rewrite Hrep, Hr. rewrite getSubstitution_literal by exact Hp1.
  destruct (getSubstitution_tail (anchor inj) a b nl (anchor inj) Hp2 body) as [x Hx].
  rewrite Hx. exists a, b, x. split; [exact Hs|]. split; [exact Hd|].
  norm_app. reflexivity.
Qed.

Lemma headed_cons t : headed t = true → ∃ t', t = "<"%char :: t'.
Proof. intros H. apply headed_inv in H as (t' & -> & _). eauto. Qed.

Lemma step_preserves ctx inj doc t :
  Shaped inj → headed t = true → occurs t doc → occurs t (step ctx doc inj).
Proof.
  intros Hs Ht Hocc.
  destruct (occursb (openToken inj) doc) eqn:Eo.
  { rewrite step_skip; [exact Hocc | left; apply occursb_true, Eo]. }
  destruct (occursb (anchor inj) doc) eqn:Ea.
  2:{ rewrite step_skip; [exact Hocc | right; apply occursb_false, Ea]. }
  apply occursb_false in Eo. apply occursb_true in Ea.
  destruct (step_splice ctx inj doc Hs Eo Ea) as (a & b & x & _ & Hd & ->).
  destruct (headed_cons _ (shaped_anchor inj Hs)) as [an Han].
  rewrite Hd, Han in Hocc. rewrite Han. cbn [app] in Hocc.
  pose proof (occurs_splice t a (nl :: openToken inj ++ x) (an ++ b) Ht Hocc) as H.
  revert H. norm_app. auto.
Qed.

Lemma step_marks ctx inj doc :
  Shaped inj → occurs (anchor inj) doc → occurs (openToken inj) (step ctx doc inj).
Proof.
  intros Hs Ha.
  destruct (occursb (openToken inj) doc) eqn:Eo.
  { rewrite step_skip; apply occursb_true in Eo; auto. }
  apply occursb_false in Eo.
  destruct (step_splice ctx inj doc Hs Eo Ha) as (a & b & x & _ & _ & ->).
  exists (a ++ [nl]), (x ++ anchor inj ++ b). norm_app. reflexivity.
Qed.

Section Pass.
Context (ctx : Ctx).

Lemma pass_preserves injs t : Forall Shaped injs → headed t = true →
  ∀ doc, occurs t doc → occurs t (fold_left (step ctx) injs doc).
Proof.
  intros Hs Ht. induction Hs as [|inj injs Hinj _ IH]; intros doc Hocc; [exact Hocc|].
  cbn [fold_left]. apply IH, step_preserves; assumption.
Qed.

(** A step whose anchor is in the document leaves its opening comment in
    the document, and the later steps keep it. *)
Lemma pass_marks_one injs : Forall Shaped injs →
  ∀ doc inj, inj ∈ injs → occurs (anchor inj) doc →
  occurs (openToken inj) (fold_left (step ctx) injs doc).
Proof.
  intros Hs. induction Hs as [|i0 injs Hi0 Hs IH]; intros doc inj Hin Ha.
  - inversion Hin.
  - cbn [fold_left]. apply elem_of_cons in Hin as [->|Hin].
    + apply pass_preserves; [exact Hs | apply (shaped_open _ Hi0) |].
      apply step_marks; assumption.
    + apply IH; [exact Hin|].
      apply step_preserves; [exact Hi0 | | exact Ha].
      apply shaped_anchor. rewrite Forall_forall in Hs. apply Hs, Hin.
Qed.

Lemma pass_fixed injs : ∀ doc,
  (∀ inj, inj ∈ injs → occurs (openToken inj) doc ∨ ¬ occurs (anchor inj) doc) →
  fold_left (step ctx) injs doc = doc.
Proof.
  induction injs as [|inj injs IH]; intros doc H; [reflexivity|].
  cbn [fold_left]. rewrite step_skip by (apply H; left).
  apply IH. intros j Hj. apply H. right. exact Hj.
Qed.

(** A pass over shaped injections whose anchors are all in the document
    leaves a document on which a second pass does nothing. *)
Lemma pass_idempotent injs doc : Forall Shaped injs →
  (∀ inj, inj ∈ injs → occurs (anchor inj) doc) →
  fold_left (step ctx) injs (fold_left (step ctx) injs doc)
  = fold_left (step ctx) injs doc.
Proof.
  intros Hs Ha. apply pass_fixed. intros inj Hin. left.
  apply pass_marks_one; [exact Hs | exact Hin | apply Ha, Hin].
Qed.
End Pass.

Lemma flatten_tail ps : ∀ tail rest, flatten ps tail ++ rest = flatten ps (tail ++ rest).
Proof.
  induction ps as [|[x c] ps IH]; intros tail rest; cbn [flatten]; [reflexivity|].
  norm_app. rewrite IH. reflexivity.
Qed.

Lemma flatten_snoc ps x c tail : flatten (ps ++ [(x, c)]) tail = flatten ps x ++ c :: tail.
Proof.
  induction ps as [|[y d] ps IH]; cbn [flatten app]; [reflexivity|].
  rewrite IH. norm_app. reflexivity.
Qed.

Lemma shaped_from_pieces inj ps :
  replacement inj = nl :: flatten ps (anchor inj) → shapeCheck inj ps = true → Shaped inj.
Proof.
  unfold shapeCheck. intros Hr H.
  repeat (apply andb_true_iff in H as [H ?]).
  repeat match goal with H : negb _ = true |- _ => apply negb_true_iff in H end.
  split; [assumption | assumption | split; assumption|].
  destruct (last ps) as [[x c]|] eqn:El; [|discriminate].
  match goal with H : Ascii.eqb c nl = true |- _ => apply Ascii.eqb_eq in H; subst c end.
  apply last_Some in El as [ps' ->].
  rewrite flatten_snoc in *.
  destruct (stripPrefix _ _) as [r|] eqn:Es; [|discriminate].
  apply stripPrefix_Some in Es.
  destruct (decide (r = [])) as [->|Hne].
  - exfalso. rewrite app_nil_r in Es.
    match goal with H : hasChar nl (openToken inj) = false |- _ =>
      apply hasChar_false in H; apply H end.
    rewrite <- Es, elem_of_app, list_elem_of_singleton. auto.
  - destruct (exists_last Hne) as (r' & c & ->).
    rewrite app_assoc in Es. apply app_inj_tail in Es as [Es _].
    exists r'. rewrite Hr, Es. norm_app. reflexivity.
Qed.

Lemma polyfills_pieces : replacement polyfills = nl :: flatten polyfillsPieces head_tag.
Proof. vm_compute. reflexivity. Qed.

Lemma demoFill_pieces ctx :
  replacement (demoFill ctx) = nl :: flatten (demoFillPieces ctx) body_tag.
Proof. reflexivity. Qed.

Lemma visualClient_pieces ctx time :
  replacement (visualClient ctx time) = nl :: flatten (visualClientPieces ctx time) head_tag.
Proof.
  unfold visualClient, visualClientPieces, visualClientScript.
  destruct (local ctx); cbn [replacement]; norm_app; cbn [flatten]; reflexivity.
Qed.

Lemma env_pieces ctx : replacement (env ctx) = nl :: flatten (envPieces ctx) head_tag.
Proof. reflexivity. Qed.

Lemma documentTitle_pieces ctx :
  replacement (documentTitle ctx) = nl :: flatten (documentTitlePieces ctx) head_tag.
Proof. reflexivity. Qed.

Lemma visualHelper_pieces ctx :
  replacement (visualHelper ctx) = nl :: flatten (visualHelperPieces ctx) head_tag.
Proof.
  unfold visualHelperPieces, bodyOf, visualHelper, visualHelperUrl.
  destruct (local ctx); vm_compute; reflexivity.
Qed.

Lemma shaped_polyfills : Shaped polyfills.
Proof. apply (shaped_from_pieces _ _ polyfills_pieces). vm_compute. reflexivity. Qed.

Lemma shaped_demoFill ctx : Shaped (demoFill ctx).
Proof. apply (shaped_from_pieces _ _ (demoFill_pieces ctx)). vm_compute. reflexivity. Qed.

Lemma shaped_visualClient ctx time : Shaped (visualClient ctx time).
Proof.
  apply (shaped_from_pieces _ _ (visualClient_pieces ctx time)).
  unfold shapeCheck, visualClientPieces. destruct (local ctx); vm_compute; reflexivity.
Qed.

Lemma shaped_env ctx : Shaped (env ctx).
Proof. apply (shaped_from_pieces _ _ (env_pieces ctx)). vm_compute. reflexivity. Qed.

Lemma shaped_documentTitle ctx : Shaped (documentTitle ctx).
Proof. apply (shaped_from_pieces _ _ (documentTitle_pieces ctx)). vm_compute. reflexivity. Qed.

Lemma shaped_visualHelper ctx : Shaped (visualHelper ctx).
Proof.
  apply (shaped_from_pieces _ _ (visualHelper_pieces ctx)).
  unfold shapeCheck, visualHelperPieces, bodyOf, visualHelper, visualHelperUrl.
  destruct (local ctx); vm_compute; reflexivity.
Qed.

Lemma shaped_injections ctx time : Forall Shaped (injections ctx time).
Proof.
  unfold injections.
  refine (Forall_cons_2 _ _ _ shaped_polyfills
    (Forall_cons_2 _ _ _ (shaped_demoFill ctx)
    (Forall_cons_2 _ _ _ (shaped_visualClient ctx time)
    (Forall_cons_2 _ _ _ (shaped_env ctx)
    (Forall_cons_2 _ _ _ (shaped_documentTitle ctx)
    (Forall_cons_2 _ _ _ (shaped_visualHelper ctx) (Forall_nil_2 _))))))).
Qed.

Lemma anchors_injections ctx time inj :
  inj ∈ injections ctx time → anchor inj = head_tag ∨ anchor inj = body_tag.
Proof.
  unfold injections. intros H.
  repeat (apply elem_of_cons in H as [->|H]; [cbn [anchor polyfills demoFill visualClient env
    documentTitle visualHelper]; auto|]).
  inversion H.
Qed.

(** With both anchor tags in the document, a second pass changes nothing. *)
Lemma postProcess_idempotent_anchored ctx time doc :
  occurs head_tag doc → occurs body_tag doc →
  postProcess ctx time (postProcess ctx time doc) = postProcess ctx time doc.
Proof.
  intros Hh Hb. rewrite !postProcess_steps.
  apply pass_idempotent; [apply shaped_injections|].
  intros inj Hin. destruct (anchors_injections ctx time inj Hin) as [-> | ->]; assumption.
Qed.

(** *** Text that a step cannot bring in *)

Lemma flatten_occurs t ps :
  forallb (λ p, negb (hasChar p.2 t)) ps = true →
  ∀ tail, occurs t (flatten ps tail) → Exists (λ p, occurs t p.1) ps ∨ occurs t tail.
Proof.
  induction ps as [|[x c] ps IH]; cbn [forallb flatten]; intros Hs tail H; [auto|].
  apply andb_true_iff in Hs as [Hc Hs]. apply negb_true_iff, hasChar_false in Hc.
  cbn [snd] in Hc. destruct (occurs_sep _ _ _ _ Hc H) as [H1|H1].
  - left. apply Exists_cons_hd. exact H1.
  - destruct (IH Hs tail H1) as [H'|H']; [left; apply Exists_cons_tl, H' | right; exact H'].
Qed.

Lemma flatten_plain ps : Forall (λ p, plain (fst p) ∧ snd p ≠ "$"%char) ps →
  ∀ tail, plain tail → plain (flatten ps tail).
Proof.
  unfold plain.
  induction 1 as [|[x c] ps [Hx Hc] _ IH]; intros tail Ht; cbn [flatten]; [exact Ht|].
  rewrite elem_of_app, elem_of_cons. intros [H|[H|H]].
  - exact (Hx H).
  - exact (Hc (eq_sym H)).
  - exact (IH tail Ht H).
Qed.

Lemma keeps_own_anchor ctx inj : Keeps ctx (anchor inj) inj.
Proof. intros doc H. rewrite step_skip; auto. Qed.

Lemma keeps_from_pieces ctx inj ps t :
  replacement inj = nl :: flatten ps (anchor inj) →
  plain (replacement inj) →
  hasChar nl t = false →
  forallb (λ p, negb (hasChar p.2 t)) ps = true →
  Forall (λ p, ¬ occurs t p.1) ps →
  Keeps ctx t inj.
Proof.
  intros Hr Hd Hnl Hseps Hps doc Hdoc.
  unfold step, inject. rewrite indexOf_absent.
  destruct (occursb (openToken inj) doc); cbn [negb fst]; [exact Hdoc|].
  destruct (occursb (anchor inj) doc) eqn:Ea.
  2:{ apply occursb_false in Ea. rewrite replace_absent by exact Ea. exact Hdoc. }
  apply occursb_true in Ea.
  destruct (replace_present doc (anchor inj) (replacement inj) Ea) as (a & b & _ & Hab & ->).
  rewrite getSubstitution_plain by (apply hasChar_false, Hd).
  rewrite Hr. cbn [app]. rewrite flatten_tail. intros H.
  apply hasChar_false in Hnl.
  destruct (occurs_sep _ _ _ _ Hnl H) as [H1|H1].
  - apply Hdoc. rewrite Hab. apply occurs_app_l, H1.
  - destruct (flatten_occurs t ps Hseps _ H1) as [H2|H2].
    + apply Exists_exists in H2 as (p & Hp & Hocc).
      rewrite Forall_forall in Hps. exact (Hps p Hp Hocc).
    + apply Hdoc. rewrite Hab. apply occurs_app_r, H2.
Qed.

Lemma pass_keeps ctx t injs : Forall (Keeps ctx t) injs →
  ∀ doc, ¬ occurs t doc → ¬ occurs t (fold_left (step ctx) injs doc).
Proof.
  induction 1 as [|inj injs Hk _ IH]; intros doc H; [exact H|].
  cbn [fold_left]. apply IH, Hk, H.
Qed.

(** *** The characters of a number *)

Lemma string_of_uint_chars d c :
  c ∈ txt (NilEmpty.string_of_uint d) → c ∈ txt "0123456789".
Proof.
  unfold txt. induction d; cbn [NilEmpty.string_of_uint list_ascii_of_string]; intros H;
    try (apply elem_of_cons in H as [->|H]; [|exact (IHd H)]).
  1: inversion H.
  all: vm_compute; repeat constructor.
Qed.

Lemma numberToString_chars z c : c ∈ numberToString z → c ∈ txt "-0123456789".
Proof.
  unfold numberToString, NilEmpty.string_of_int.
  destruct (Z.to_int z) as [d|d].
  - intros H. apply string_of_uint_chars in H. right. exact H.
  - unfold txt at 1. cbn [list_ascii_of_string]. intros H.
    apply elem_of_cons in H as [->|H]; [left|]. apply string_of_uint_chars in H. right. exact H.
Qed.

Lemma numberToString_avoids z c :
  hasChar c (txt "-0123456789") = false → c ∉ numberToString z.
Proof. intros H Hin. apply hasChar_false in H. apply H, (numberToString_chars z), Hin. Qed.

Lemma numberToString_no_token z t : headed t = true → ¬ occurs t (numberToString z).
Proof.
  intros Ht (a & b & H). apply headed_inv in Ht as (t' & -> & _).
  apply (numberToString_avoids z "<"); [reflexivity|].
  rewrite H, elem_of_app. right. left.
Qed.

Ltac closed_absent := apply occursb_false; vm_compute; reflexivity.
Ltac closed_plain := split; [apply hasChar_false; vm_compute; reflexivity | discriminate].

Ltac each_piece tac :=
  repeat lazymatch goal with
  | |- Forall _ (_ :: _) => apply Forall_cons_2; [cbn [fst snd]; tac|]
  | |- Forall _ [] => apply Forall_nil_2
  end.

Lemma plain_replacement inj ps :
  replacement inj = nl :: flatten ps (anchor inj) →
  Forall (λ p, plain (fst p) ∧ snd p ≠ "$"%char) ps →
  hasChar "$" (anchor inj) = false →
  plain (replacement inj).
Proof.
  intros -> Hps Ha. unfold plain. apply not_elem_of_cons. split; [discriminate|].
  apply flatten_plain; [exact Hps | apply hasChar_false, Ha].
Qed.

Lemma numberToString_plain z : plain (numberToString z).
Proof. apply numberToString_avoids. reflexivity. Qed.

Section Keeping.
Context (ctx : Ctx) (time : Z).

Lemma plain_polyfills : plain (replacement polyfills).
Proof. apply hasChar_false. vm_compute. reflexivity. Qed.

Lemma plain_demoFill : plain (fill ctx) → plain (replacement (demoFill ctx)).
Proof.
  intros Hd. apply (plain_replacement _ _ (demoFill_pieces ctx)); [|reflexivity].
  unfold demoFillPieces.
  each_piece ltac:(first [closed_plain | split; [exact Hd | discriminate]]).
Qed.

Lemma plain_visualClient : plain (replacement (visualClient ctx time)).
Proof.
  apply (plain_replacement _ _ (visualClient_pieces ctx time)); [|reflexivity].
  unfold visualClientPieces. destruct (local ctx);
    each_piece ltac:(first [closed_plain | split; [apply numberToString_plain | discriminate]]).
Qed.

Lemma plain_env : plain (folder ctx) → plain (replacement (env ctx)).
Proof.
  intros Hd. apply (plain_replacement _ _ (env_pieces ctx)); [|reflexivity].
  unfold envPieces. each_piece ltac:(first [closed_plain | split; [exact Hd | discriminate]]).
Qed.

Lemma plain_documentTitle :
  plain (folder ctx) → plain (visualPath ctx) → plain (replacement (documentTitle ctx)).
Proof.
  intros Hd Hd'. apply (plain_replacement _ _ (documentTitle_pieces ctx)); [|reflexivity].
  unfold documentTitlePieces.
  each_piece ltac:(first [closed_plain | split; [exact Hd | discriminate]
                         | split; [exact Hd' | discriminate]]).
Qed.

Lemma plain_visualHelper : plain (replacement (visualHelper ctx)).
Proof.
  unfold visualHelper, visualHelperUrl. cbn [replacement].
  destruct (local ctx); apply hasChar_false; vm_compute; reflexivity.
Qed.

Lemma keeps_body_polyfills : Keeps ctx body_tag polyfills.
Proof.
  apply (keeps_from_pieces ctx _ _ _ polyfills_pieces);
    [apply plain_polyfills | reflexivity | reflexivity |].
  unfold polyfillsPieces. each_piece closed_absent.
Qed.

Lemma keeps_body_visualClient : Keeps ctx body_tag (visualClient ctx time).
Proof.
  apply (keeps_from_pieces ctx _ _ _ (visualClient_pieces ctx time));
    [apply plain_visualClient | reflexivity | reflexivity |].
  unfold visualClientPieces. destruct (local ctx);
    each_piece ltac:(first [closed_absent | apply numberToString_no_token; reflexivity]).
Qed.

Lemma keeps_body_env :
  plain (folder ctx) → ¬ occurs body_tag (folder ctx) → Keeps ctx body_tag (env ctx).
Proof.
  intros Hd Hb. apply (keeps_from_pieces ctx _ _ _ (env_pieces ctx));
    [apply plain_env, Hd | reflexivity | reflexivity |].
  unfold envPieces. each_piece ltac:(first [closed_absent | exact Hb]).
Qed.

Lemma keeps_body_documentTitle :
  plain (folder ctx) → plain (visualPath ctx) →
  ¬ occurs body_tag (folder ctx) → ¬ occurs body_tag (visualPath ctx) →
  Keeps ctx body_tag (documentTitle ctx).
Proof.
  intros Hd Hd' Hb Hb'. apply (keeps_from_pieces ctx _ _ _ (documentTitle_pieces ctx));
    [apply plain_documentTitle; assumption | reflexivity | reflexivity |].
  unfold documentTitlePieces. each_piece ltac:(first [closed_absent | exact Hb | exact Hb']).
Qed.

Lemma keeps_body_visualHelper : Keeps ctx body_tag (visualHelper ctx).
Proof.
  apply (keeps_from_pieces ctx _ _ _ (visualHelper_pieces ctx));
    [apply plain_visualHelper | reflexivity | reflexivity |].
  unfold visualHelperPieces, bodyOf, visualHelper, visualHelperUrl.
  destruct (local ctx); each_piece closed_absent.
Qed.

Lemma keeps_head_demoFill :
  plain (fill ctx) → ¬ occurs head_tag (fill ctx) → Keeps ctx head_tag (demoFill ctx).
Proof.
  intros Hd Hh. apply (keeps_from_pieces ctx _ _ _ (demoFill_pieces ctx));
    [apply plain_demoFill, Hd | reflexivity | reflexivity |].
  unfold demoFillPieces. each_piece ltac:(first [closed_absent | exact Hh]).
Qed.
End Keeping.

Lemma injections_cases ctx time (P : Injection → Prop) :
  P polyfills → P (demoFill ctx) → P (visualClient ctx time) → P (env ctx) →
  P (documentTitle ctx) → P (visualHelper ctx) →
  ∀ inj, inj ∈ injections ctx time → P inj.
Proof.
  intros H1 H2 H3 H4 H5 H6 inj Hin. unfold injections in Hin.
  repeat (apply elem_of_cons in Hin as [->|Hin]; [assumption|]). inversion Hin.
Qed.

(** A second pass changes nothing, under conditions on the document or on
    what is spliced in. *)
Lemma postProcess_twice (ctx : Ctx) (time : Z) (doc : Text) :
  occurs head_tag doc ∨ ¬ occurs body_tag doc ∨ fillKeepsHead ctx →
  occurs body_tag doc ∨ ¬ occurs head_tag doc ∨ namesKeepBody ctx →
  postProcess ctx time (postProcess ctx time doc) = postProcess ctx time doc.
Proof.
  intros Hfill Hnames.
  destruct (occursb head_tag doc) eqn:Eh; destruct (occursb body_tag doc) eqn:Eb.
  - apply postProcess_idempotent_anchored; apply occursb_true; assumption.
  - (* [</head>] only *)
    apply occursb_true in Eh. apply occursb_false in Eb.
    destruct Hnames as [H|[H|(N1 & N2 & N3 & N4)]]; [contradiction..|].
    rewrite !postProcess_steps. apply pass_fixed.
    assert (Hbody : ¬ occurs body_tag (fold_left (step ctx) (injections ctx time) doc)).
    { apply pass_keeps; [|exact Eb]. unfold injections.
      refine (Forall_cons_2 _ _ _ (keeps_body_polyfills ctx)
        (Forall_cons_2 _ _ _ (keeps_own_anchor ctx (demoFill ctx))
        (Forall_cons_2 _ _ _ (keeps_body_visualClient ctx time)
        (Forall_cons_2 _ _ _ (keeps_body_env ctx N1 N3)
        (Forall_cons_2 _ _ _ (keeps_body_documentTitle ctx N1 N2 N3 N4)
        (Forall_cons_2 _ _ _ (keeps_body_visualHelper ctx) (Forall_nil_2 _))))))). }
    assert (Hmark : ∀ inj, inj ∈ injections ctx time → anchor inj = head_tag →
              occurs (openToken inj) (fold_left (step ctx) (injections ctx time) doc)).
    { intros inj Hin Ha. apply pass_marks_one; [apply shaped_injections | exact Hin|].
      rewrite Ha. exact Eh. }
    apply injections_cases; try (left; apply Hmark; [|reflexivity]; unfold injections).
    + left.
    + right. exact Hbody.
    + right; right; left.
    + do 3 right; left.
    + do 4 right; left.
    + do 5 right; left.
  - (* [</body>] only *)
    apply occursb_false in Eh. apply occursb_true in Eb.
    destruct Hfill as [H|[H|(F1 & F2)]]; [contradiction..|].
    rewrite !postProcess_steps. apply pass_fixed.
    assert (Hhead : ¬ occurs head_tag (fold_left (step ctx) (injections ctx time) doc)).
    { apply pass_keeps; [|exact Eh]. unfold injections.
      refine (Forall_cons_2 _ _ _ (keeps_own_anchor ctx polyfills)
        (Forall_cons_2 _ _ _ (keeps_head_demoFill ctx F1 F2)
        (Forall_cons_2 _ _ _ (keeps_own_anchor ctx (visualClient ctx time))
        (Forall_cons_2 _ _ _ (keeps_own_anchor ctx (env ctx))
        (Forall_cons_2 _ _ _ (keeps_own_anchor ctx (documentTitle ctx))
        (Forall_cons_2 _ _ _ (keeps_own_anchor ctx (visualHelper ctx)) (Forall_nil_2 _))))))). }
    apply injections_cases; try (right; exact Hhead).
    left. apply pass_marks_one; [apply shaped_injections | unfold injections; right; left | exact Eb].
  - (* neither *)
    apply occursb_false in Eh. apply occursb_false in Eb.
    assert (Hfix : postProcess ctx time doc = doc).
    { rewrite postProcess_steps. apply pass_fixed.
      apply injections_cases; right; assumption. }
    rewrite !Hfix. reflexivity.
Qed.

(** C1, as amended.  Applying the post-processing twice gives the same text
    as applying it once, with the same fill, folder, path, mode and time,
    for every document that contains both [</head>] and [</body>]; for a
    document without [</head>] it holds when the fill holds neither a
    dollar sign nor [</head>], for a document without [</body>] when the
    folder and the visual path hold neither a dollar sign nor [</body>],
    and for a document with neither tag the pass changes nothing.  Under
    the same conditions any number of further passes gives the same text
    again, so no block is spliced in twice.  A marker whose opening comment
    is in the text is skipped, whatever the text. *)
Theorem postProcess_idempotent (ctx : Ctx) (time : Z) (doc : Text) :
  occurs head_tag doc ∨ ¬ occurs body_tag doc ∨ fillKeepsHead ctx →
  occurs body_tag doc ∨ ¬ occurs head_tag doc ∨ namesKeepBody ctx →
  postProcess ctx time (postProcess ctx time doc) = postProcess ctx time doc
  ∧ (∀ n, Nat.iter (S n) (postProcess ctx time) doc = postProcess ctx time doc)
  ∧ (∀ inj text, occurs (openToken inj) text →
       inject ctx inj text = (text, debugLog ctx (name inj ++ txt " already in markup"))).
Proof.
  intros Hfill Hnames.
  pose proof (postProcess_twice ctx time doc Hfill Hnames) as Htwice.
  split; [exact Htwice|]. split.
  - induction n as [|n IH]; [reflexivity|].
    change (Nat.iter (S (S n)) (postProcess ctx time) doc)
      with (postProcess ctx time (Nat.iter (S n) (postProcess ctx time) doc)).
    rewrite IH. exact Htwice.
  - intros inj text H. unfold inject. rewrite indexOf_absent.
    apply occursb_true in H. rewrite H. reflexivity.
Qed.

Lemma block_pieces inj ps :
  replacement inj = nl :: flatten ps (anchor inj) → block inj = nl :: flatten ps [].
Proof.
  intros Hr. unfold block. rewrite Hr.
  change (nl :: flatten ps (anchor inj)) with ([nl] ++ flatten ps ([] ++ anchor inj)).
  rewrite <- flatten_tail, app_assoc.
  rewrite length_app, Nat.add_sub. apply take_app_length.
Qed.

Lemma replacement_block inj ps :
  replacement inj = nl :: flatten ps (anchor inj) → replacement inj = block inj ++ anchor inj.
Proof.
  intros Hr. rewrite (block_pieces inj ps Hr), Hr. cbn [app]. rewrite flatten_tail. reflexivity.
Qed.

(** Where a step splices its block. *)
Lemma step_at ctx inj ps a tail doc :
  replacement inj = nl :: flatten ps (anchor inj) →
  plain (replacement inj) →
  headed (anchor inj) = true →
  doc = a ++ anchor inj ++ tail →
  ¬ occurs (openToken inj) doc →
  ¬ occurs (anchor inj) a →
  step ctx doc inj = a ++ block inj ++ anchor inj ++ tail.
Proof.
  intros Hr Hp Hh -> Ho Ha. unfold step, inject. rewrite indexOf_absent.
  apply occursb_false in Ho. rewrite Ho. cbn [negb fst].
  unfold replace. rewrite (splitFirst_first _ Hh a tail Ha).
  rewrite getSubstitution_plain by (apply hasChar_false, Hp).
  rewrite (replacement_block inj ps Hr). norm_app. reflexivity.
Qed.

(** A block's pieces do not contain [t], so splicing the block in brings no
    occurrence of [t]. *)
Lemma block_absent t inj ps a tail doc doc' :
  replacement inj = nl :: flatten ps (anchor inj) →
  hasChar nl t = false →
  forallb (λ p, negb (hasChar p.2 t)) ps = true →
  Forall (λ p, ¬ occurs t p.1) ps →
  doc = a ++ tail → doc' = a ++ block inj ++ tail →
  ¬ occurs t doc → ¬ occurs t doc'.
Proof.
  intros Hr Hnl Hseps Hps -> -> Hdoc H.
  rewrite (block_pieces inj ps Hr) in H. cbn [app] in H. rewrite flatten_tail in H.
  cbn [app] in H. apply hasChar_false in Hnl.
  destruct (occurs_sep _ _ _ _ Hnl H) as [H1|H1].
  - apply Hdoc, occurs_app_l, H1.
  - destruct (flatten_occurs t ps Hseps _ H1) as [H2|H2].
    + apply Exists_exists in H2 as (p & Hp & Hocc).
      rewrite Forall_forall in Hps. exact (Hps p Hp Hocc).
    + apply Hdoc, occurs_app_r, H2.
Qed.


Ltac var_absent :=
  lazymatch goal with
  | H : ∀ m, ¬ occurs (openTokenOf m) ?v |- ¬ occurs (openTokenOf ?k) ?v => exact (H k)
  | |- _ => assumption
  end.

Section Order.
Context (ctx : Ctx) (time : Z).

Lemma avoid_polyfills t a tail doc doc' :
  hasChar nl t = false → occursb t (bodyOf polyfills) = false →
  doc = a ++ tail → doc' = a ++ block polyfills ++ tail →
  ¬ occurs t doc → ¬ occurs t doc'.
Proof.
  intros Hnl Hb. apply (block_absent t _ _ a tail doc doc' polyfills_pieces Hnl).
  - unfold polyfillsPieces. cbn [forallb snd]. rewrite Hnl. reflexivity.
  - unfold polyfillsPieces. apply Forall_cons_2; [|apply Forall_nil_2].
    apply occursb_false, Hb.
Qed.

Lemma avoid_demoFill t a tail doc doc' :
  hasChar nl t = false →
  occursb t (txt "<!--NEBE_DEMO_FILL-->") = false →
  occursb t (txt "<!--/NEBE_DEMO_FILL-->") = false →
  ¬ occurs t (fill ctx) →
  doc = a ++ tail → doc' = a ++ block (demoFill ctx) ++ tail →
  ¬ occurs t doc → ¬ occurs t doc'.
Proof.
  intros Hnl H1 H2 Hv. apply (block_absent t _ _ a tail doc doc' (demoFill_pieces ctx) Hnl).
  - unfold demoFillPieces. cbn [forallb snd]. rewrite Hnl. reflexivity.
  - unfold demoFillPieces.
    repeat (apply Forall_cons_2; [cbn [fst]; first [apply occursb_false; assumption | exact Hv]|]).
    apply Forall_nil_2.
Qed.

Lemma avoid_visualClient t a tail doc doc' :
  headed t = true →
  hasChar nl t = false → hasChar "=" t = false → hasChar dq t = false →
  occursb t (txt "<!--NEBE_VISUAL_CLIENT-->") = false →
  occursb t (txt "<script src=" ++ dq :: txt "http://localhost:1236/visual-client.min.js?cb")
    = false →
  occursb t (txt "<script src=" ++ dq
               :: txt "https://cdn.nebe.app/store/serving/dist/visual-client.min.js?cb")
    = false →
  occursb t (txt "></script>") = false →
  occursb t (txt "<!--/NEBE_VISUAL_CLIENT-->") = false →
  doc = a ++ tail → doc' = a ++ block (visualClient ctx time) ++ tail →
  ¬ occurs t doc → ¬ occurs t doc'.
Proof.
  intros Hh Hnl Heq Hdq H1 H2 H3 H4 H5.
  apply (block_absent t _ _ a tail doc doc' (visualClient_pieces ctx time) Hnl).
  - unfold visualClientPieces. cbn [forallb snd]. rewrite Hnl, Heq, Hdq. reflexivity.
  - unfold visualClientPieces. destruct (local ctx);
    repeat (apply Forall_cons_2;
      [cbn [fst]; first [apply occursb_false; assumption
                       | apply numberToString_no_token, Hh]|]);
    apply Forall_nil_2.
Qed.

Lemma avoid_env t a tail doc doc' :
  hasChar nl t = false → hasChar "'" t = false →
  occursb t (txt "<!--NEBE_ENV-->") = false →
  occursb t (txt "<script>window.MODE = 'dev'; window.FOLDER = ") = false →
  occursb t (txt ";</script>") = false →
  occursb t (txt "<!--/NEBE_ENV-->") = false →
  ¬ occurs t (folder ctx) →
  doc = a ++ tail → doc' = a ++ block (env ctx) ++ tail →
  ¬ occurs t doc → ¬ occurs t doc'.
Proof.
  intros Hnl Hq H1 H2 H3 H4 Hv.
  apply (block_absent t _ _ a tail doc doc' (env_pieces ctx) Hnl).
  - unfold envPieces. cbn [forallb snd]. rewrite Hnl, Hq. reflexivity.
  - unfold envPieces.
    repeat (apply Forall_cons_2; [cbn [fst]; first [apply occursb_false; assumption | exact Hv]|]).
    apply Forall_nil_2.
Qed.

Lemma avoid_documentTitle t a tail doc doc' :
  hasChar nl t = false → hasChar dq t = false → hasChar " " t = false →
  occursb t (txt "<!--NEBE_DOCUMENT_TITLE-->") = false →
  occursb t (txt "<script>document.title = ") = false →
  occursb t (txt ";</script>") = false →
  occursb t (txt "<!--/NEBE_DOCUMENT_TITLE-->") = false →
  ¬ occurs t (folder ctx) → ¬ occurs t (visualPath ctx) →
  doc = a ++ tail → doc' = a ++ block (documentTitle ctx) ++ tail →
  ¬ occurs t doc → ¬ occurs t doc'.
Proof.
  intros Hnl Hdq Hsp H1 H2 H3 H4 Hv Hv'.
  apply (block_absent t _ _ a tail doc doc' (documentTitle_pieces ctx) Hnl).
  - unfold documentTitlePieces. cbn [forallb snd]. rewrite Hnl, Hdq, Hsp. reflexivity.
  - unfold documentTitlePieces.
    repeat (apply Forall_cons_2;
      [cbn [fst]; first [apply occursb_false; assumption | exact Hv | exact Hv']|]).
    apply Forall_nil_2.
Qed.

Ltac side :=
  lazymatch goal with
  | |- _ = false => vm_compute; reflexivity
  | |- _ = true => vm_compute; reflexivity
  | |- ¬ occurs _ _ => var_absent
  | |- _ => rewrite ?app_nil_r; norm_app; reflexivity
  end.

(** One pass over a document that has its first [</head>] before its
    first [</body>] and no marker yet. *)
Lemma postProcess_splices (a b c : Text) :
  let doc := a ++ head_tag ++ b ++ body_tag ++ c in
  (∀ m, ¬ occurs (openTokenOf m) doc) →
  ¬ occurs head_tag a →
  ¬ occurs body_tag (a ++ head_tag ++ b) →
  clean (fill ctx) → clean (folder ctx) → clean (visualPath ctx) →
  ¬ occurs head_tag (folder ctx) → ¬ occurs head_tag (visualPath ctx) →
  postProcess ctx time doc
  = a ++ block polyfills ++ block (visualClient ctx time) ++ block (env ctx)
      ++ block (documentTitle ctx) ++ block (visualHelper ctx)
      ++ head_tag ++ b ++ block (demoFill ctx) ++ body_tag ++ c.
Proof.
  intros doc Hdoc Ha Hab [Pf Of] [Pn On] [Pv Ov] Hn Hv. subst doc.
  set (P := block polyfills). set (D := block (demoFill ctx)).
  set (C := block (visualClient ctx time)). set (E := block (env ctx)).
  set (T := block (documentTitle ctx)). set (V := block (visualHelper ctx)).
  set (s0 := a ++ head_tag ++ b ++ body_tag ++ c) in *.
  set (s1 := a ++ P ++ head_tag ++ b ++ body_tag ++ c).
  set (s2 := a ++ P ++ head_tag ++ b ++ D ++ body_tag ++ c).
  set (s3 := a ++ P ++ C ++ head_tag ++ b ++ D ++ body_tag ++ c).
  set (s4 := a ++ P ++ C ++ E ++ head_tag ++ b ++ D ++ body_tag ++ c).
  set (s5 := a ++ P ++ C ++ E ++ T ++ head_tag ++ b ++ D ++ body_tag ++ c).
  (* what the block of the polyfills cannot bring in *)
  assert (K1 : ∀ m, m ≠ NEBE_POLYFILLS → ¬ occurs (openTokenOf m) s1).
  { intros m Hm.
    apply (avoid_polyfills (openTokenOf m) a (head_tag ++ b ++ body_tag ++ c) s0 s1);
      [destruct m; side | destruct m; try congruence; side | side | side | apply Hdoc]. }
  assert (B1 : ¬ occurs body_tag (a ++ P ++ head_tag ++ b)).
  { apply (avoid_polyfills body_tag a (head_tag ++ b) (a ++ head_tag ++ b)
             (a ++ P ++ head_tag ++ b)); [side.. | exact Hab]. }
  assert (H1 : ¬ occurs head_tag (a ++ P)).
  { apply (avoid_polyfills head_tag a [] a (a ++ P)); [side.. | exact Ha]. }
  (* the block of the demo fill *)
  assert (K2 : ∀ m, m ≠ NEBE_POLYFILLS → m ≠ NEBE_DEMO_FILL → ¬ occurs (openTokenOf m) s2).
  { intros m Hm Hm'.
    apply (avoid_demoFill (openTokenOf m) (a ++ P ++ head_tag ++ b) (body_tag ++ c) s1 s2);
      [destruct m; side | destruct m; try congruence; side | destruct m; side
      | apply Of | side | side | apply K1, Hm]. }
  (* the block of the client script *)
  assert (K3 : ∀ m, m ≠ NEBE_POLYFILLS → m ≠ NEBE_DEMO_FILL → m ≠ NEBE_VISUAL_CLIENT →
               ¬ occurs (openTokenOf m) s3).
  { intros m Hm Hm' Hm''.
    apply (avoid_visualClient (openTokenOf m) (a ++ P)
             (head_tag ++ b ++ D ++ body_tag ++ c) s2 s3);
      [destruct m; side | destruct m; side | destruct m; side | destruct m; side
      | destruct m; try congruence; side | destruct m; side | destruct m; side
      | destruct m; side | destruct m; side | side | side | apply K2; assumption]. }
  assert (H3 : ¬ occurs head_tag (a ++ P ++ C)).
  { apply (avoid_visualClient head_tag (a ++ P) [] (a ++ P) (a ++ P ++ C));
      [side.. | exact H1]. }
  (* the block of the environment *)
  assert (K4 : ∀ m, m = NEBE_DOCUMENT_TITLE ∨ m = NEBE_VISUAL_HELPER →
               ¬ occurs (openTokenOf m) s4).
  { intros m Hm.
    apply (avoid_env (openTokenOf m) (a ++ P ++ C)
             (head_tag ++ b ++ D ++ body_tag ++ c) s3 s4);
      [destruct Hm as [-> | ->]; side .. | apply On | side | side
      | apply K3; destruct Hm as [-> | ->]; discriminate]. }
  assert (H4 : ¬ occurs head_tag (a ++ P ++ C ++ E)).
  { apply (avoid_env head_tag (a ++ P ++ C) [] (a ++ P ++ C) (a ++ P ++ C ++ E));
      [side.. | exact H3]. }
  (* the block of the title *)
  assert (K5 : ¬ occurs (openTokenOf NEBE_VISUAL_HELPER) s5).
  { apply (avoid_documentTitle (openTokenOf NEBE_VISUAL_HELPER) (a ++ P ++ C ++ E)
             (head_tag ++ b ++ D ++ body_tag ++ c) s4 s5);
      [side .. | apply K4; right; reflexivity]. }
  assert (H5 : ¬ occurs head_tag (a ++ P ++ C ++ E ++ T)).
  { apply (avoid_documentTitle head_tag (a ++ P ++ C ++ E) [] (a ++ P ++ C ++ E)
             (a ++ P ++ C ++ E ++ T)); [side.. | exact H4]. }
  (* the six steps *)
  rewrite postProcess_steps. unfold injections. cbn [fold_left].
  rewrite (step_at ctx polyfills _ a (b ++ body_tag ++ c) s0 polyfills_pieces
             plain_polyfills eq_refl eq_refl (Hdoc NEBE_POLYFILLS) Ha).
  change (anchor polyfills) with head_tag. fold P. fold s1.
  rewrite (step_at ctx (demoFill ctx) _ (a ++ P ++ head_tag ++ b) c s1 (demoFill_pieces ctx)
             (plain_demoFill ctx Pf)); [|reflexivity | subst s1; side
             | apply (K1 NEBE_DEMO_FILL); discriminate | exact B1].
  fold D. change (anchor (demoFill ctx)) with body_tag.
  replace ((a ++ P ++ head_tag ++ b) ++ D ++ body_tag ++ c) with s2 by (subst s2; side).
  rewrite (step_at ctx (visualClient ctx time) _ (a ++ P) (b ++ D ++ body_tag ++ c) s2
             (visualClient_pieces ctx time) (plain_visualClient ctx time));
    [|reflexivity | subst s2; side
     | apply (K2 NEBE_VISUAL_CLIENT); discriminate | exact H1].
  fold C. change (anchor (visualClient ctx time)) with head_tag.
  replace ((a ++ P) ++ C ++ head_tag ++ b ++ D ++ body_tag ++ c) with s3 by (subst s3; side).
  rewrite (step_at ctx (env ctx) _ (a ++ P ++ C) (b ++ D ++ body_tag ++ c) s3
             (env_pieces ctx) (plain_env ctx Pn));
    [|reflexivity | subst s3; side | apply (K3 NEBE_ENV); discriminate | exact H3].
  fold E. change (anchor (env ctx)) with head_tag.
  replace ((a ++ P ++ C) ++ E ++ head_tag ++ b ++ D ++ body_tag ++ c) with s4
    by (subst s4; side).
  rewrite (step_at ctx (documentTitle ctx) _ (a ++ P ++ C ++ E) (b ++ D ++ body_tag ++ c) s4
             (documentTitle_pieces ctx) (plain_documentTitle ctx Pn Pv));
    [|reflexivity | subst s4; side | apply (K4 NEBE_DOCUMENT_TITLE); left; reflexivity
     | exact H4].
  fold T. change (anchor (documentTitle ctx)) with head_tag.
  replace ((a ++ P ++ C ++ E) ++ T ++ head_tag ++ b ++ D ++ body_tag ++ c) with s5
    by (subst s5; side).
  rewrite (step_at ctx (visualHelper ctx) _ (a ++ P ++ C ++ E ++ T) (b ++ D ++ body_tag ++ c)
             s5 (visualHelper_pieces ctx) (plain_visualHelper ctx));
    [|reflexivity | subst s5; side | exact K5 | exact H5].
  fold V. change (anchor (visualHelper ctx)) with head_tag. side.
Qed.
End Order.

(** *** Reading the markers off a document *)

Lemma startsWith_occurs t s : startsWith t s = true → occurs t s.
Proof.
  unfold startsWith. destruct (stripPrefix t s) as [r|] eqn:E; [|discriminate].
  intros _. apply stripPrefix_Some in E. exists [], r. exact E.
Qed.

Lemma startsWith_sep t c y : c ∉ t → t ≠ [] →
  ∀ u, startsWith t (u ++ c :: y) = startsWith t u.
Proof.
  unfold startsWith. induction t as [|e t IH]; intros Hc Hne u; [congruence|].
  apply not_elem_of_cons in Hc as [Hce Hc].
  destruct u as [|d u]; cbn [app stripPrefix].
  - destruct (Ascii.eqb_spec e c); [congruence | reflexivity].
  - destruct (Ascii.eqb e d); [|reflexivity].
    destruct t as [|e' t]; [reflexivity|]. apply IH; [exact Hc | discriminate].
Qed.

Lemma markerAt_sep c y u : sepOK c = true → markerAt (u ++ c :: y) = markerAt u.
Proof.
  intros Hc. unfold markerAt. apply List.filter_ext_in. intros m _.
  apply startsWith_sep.
  - unfold sepOK in Hc. rewrite forallb_forall in Hc.
    apply hasChar_false, negb_true_iff, Hc. destruct m; vm_compute; tauto.
  - destruct m; discriminate.
Qed.

Lemma markerSequence_sep c x y : sepOK c = true →
  markerSequence (x ++ c :: y) = markerSequence x ++ markerSequence y.
Proof.
  intros Hc. induction x as [|d x IH]; cbn [app markerSequence].
  - pose proof (markerAt_sep c y [] Hc) as H0. cbn [app] in H0. rewrite H0. reflexivity.
  - rewrite IH. change (d :: x ++ c :: y) with ((d :: x) ++ c :: y).
    rewrite (markerAt_sep c y (d :: x) Hc), <- app_assoc. reflexivity.
Qed.

Lemma markerSequence_flatten ps : forallb (λ p, sepOK p.2) ps = true →
  ∀ tail, markerSequence (flatten ps tail)
          = concat (map (λ p, markerSequence p.1) ps) ++ markerSequence tail.
Proof.
  induction ps as [|[x c] ps IH]; cbn [forallb flatten map concat]; intros H tail;
    [reflexivity|].
  apply andb_true_iff in H as [Hc H]. cbn [snd fst] in *.
  rewrite (markerSequence_sep c x _ Hc), (IH H), <- app_assoc. reflexivity.
Qed.

Lemma filter_none {A} (f : A → bool) l : (∀ x, In x l → f x = false) → List.filter f l = [].
Proof.
  induction l as [|x l IH]; intros H; [reflexivity|]. cbn [List.filter].
  rewrite (H x) by (left; reflexivity). apply IH. intros y Hy. apply H. right. exact Hy.
Qed.

Lemma markerSequence_none x : (∀ m, ¬ occurs (openTokenOf m) x) → markerSequence x = [].
Proof.
  induction x as [|c x IH]; intros H; [reflexivity|]. cbn [markerSequence].
  rewrite IH by (intros m Hm; apply (H m), occurs_cons, Hm).
  rewrite app_nil_r. apply filter_none. intros m _.
  destruct (startsWith (openTokenOf m) (c :: x)) eqn:E; [|reflexivity].
  exfalso. apply (H m), startsWith_occurs, E.
Qed.

Lemma markerSequence_block inj ps x y :
  replacement inj = nl :: flatten ps (anchor inj) →
  forallb (λ p, sepOK p.2) ps = true →
  markerSequence (x ++ block inj ++ y)
  = markerSequence x ++ concat (map (λ p, markerSequence p.1) ps) ++ markerSequence y.
Proof.
  intros Hr Hs. rewrite (block_pieces inj ps Hr). cbn [app]. rewrite flatten_tail. cbn [app].
  rewrite (markerSequence_sep nl x _ eq_refl), (markerSequence_flatten ps Hs). reflexivity.
Qed.

Lemma markerSequence_block_front inj ps y :
  replacement inj = nl :: flatten ps (anchor inj) →
  forallb (λ p, sepOK p.2) ps = true →
  markerSequence (block inj ++ y)
  = concat (map (λ p, markerSequence p.1) ps) ++ markerSequence y.
Proof. intros Hr Hs. exact (markerSequence_block inj ps [] y Hr Hs). Qed.

Lemma markerSequence_number z : markerSequence (numberToString z) = [].
Proof.
  apply markerSequence_none. intros m. apply numberToString_no_token. destruct m; reflexivity.
Qed.

Lemma occurs_part t x y z : occurs t y → occurs t (x ++ y ++ z).
Proof. intros H. apply occurs_app_r, occurs_app_l, H. Qed.

(** C3, as amended.  Take a document with none of the six opening comments,
    whose first [</head>] comes before its first [</body>], and a fill, a
    folder and a visual path that hold neither a dollar sign nor an opening
    comment (nor, for the folder and the path, [</head>]).  One pass
    splices in six blocks, each once: those of NEBE_POLYFILLS,
    NEBE_VISUAL_CLIENT, NEBE_ENV, NEBE_DOCUMENT_TITLE and NEBE_VISUAL_HELPER,
    in this order, just before the first [</head>], and that of
    NEBE_DEMO_FILL just before the first [</body>]; the rest of the document
    is unchanged.  The markers are tried in the order NEBE_POLYFILLS,
    NEBE_DEMO_FILL, NEBE_VISUAL_CLIENT, NEBE_ENV, NEBE_DOCUMENT_TITLE,
    NEBE_VISUAL_HELPER. *)
Theorem six_markers_in_place (ctx : Ctx) (time : Z) (a b c : Text) :
  let doc := a ++ head_tag ++ b ++ body_tag ++ c in
  (∀ m, ¬ occurs (openTokenOf m) doc) →
  ¬ occurs head_tag a →
  ¬ occurs body_tag (a ++ head_tag ++ b) →
  clean (fill ctx) → clean (folder ctx) → clean (visualPath ctx) →
  ¬ occurs head_tag (folder ctx) → ¬ occurs head_tag (visualPath ctx) →
  postProcess ctx time doc
  = a ++ block polyfills ++ block (visualClient ctx time) ++ block (env ctx)
      ++ block (documentTitle ctx) ++ block (visualHelper ctx)
      ++ head_tag ++ b ++ block (demoFill ctx) ++ body_tag ++ c
  ∧ markerSequence (postProcess ctx time doc)
    = [NEBE_POLYFILLS; NEBE_VISUAL_CLIENT; NEBE_ENV; NEBE_DOCUMENT_TITLE; NEBE_VISUAL_HELPER;
       NEBE_DEMO_FILL]
  ∧ map openToken (injections ctx time)
    = map openTokenOf
        [NEBE_POLYFILLS; NEBE_DEMO_FILL; NEBE_VISUAL_CLIENT; NEBE_ENV; NEBE_DOCUMENT_TITLE;
         NEBE_VISUAL_HELPER].
Proof.
  intros doc Hdoc Ha Hab Hf Hn Hv Hhn Hhv.
  pose proof (postProcess_splices ctx time a b c Hdoc Ha Hab Hf Hn Hv Hhn Hhv) as E.
  fold doc in E. split; [exact E|]. split; [|reflexivity]. rewrite E.
  destruct Hf as [_ Of]. destruct Hn as [_ On]. destruct Hv as [_ Ov].
  assert (Ma : markerSequence a = []).
  { apply markerSequence_none. intros m H. apply (Hdoc m). apply occurs_app_l, H. }
  assert (Mb : markerSequence (head_tag ++ b) = []).
  { apply markerSequence_none. intros m H. apply (Hdoc m). subst doc.
    rewrite (app_assoc head_tag b). apply occurs_part, H. }
  assert (Mc : markerSequence (body_tag ++ c) = []).
  { apply markerSequence_none. intros m H. apply (Hdoc m). subst doc.
    apply occurs_app_r. rewrite app_assoc. apply occurs_app_r, H. }
  rewrite (markerSequence_block _ _ a _ polyfills_pieces eq_refl).
  rewrite (markerSequence_block_front _ _ _ (visualClient_pieces ctx time))
    by (unfold visualClientPieces; destruct (local ctx); reflexivity).
  rewrite (markerSequence_block_front _ _ _ (env_pieces ctx) eq_refl).
  rewrite (markerSequence_block_front _ _ _ (documentTitle_pieces ctx) eq_refl).
  rewrite (markerSequence_block_front _ _ _ (visualHelper_pieces ctx) eq_refl).
  rewrite (app_assoc head_tag b).
  rewrite (markerSequence_block _ _ (head_tag ++ b) _ (demoFill_pieces ctx) eq_refl).
  rewrite Ma, Mb, Mc.
  unfold polyfillsPieces, visualClientPieces, envPieces, documentTitlePieces,
    demoFillPieces, visualHelperPieces, bodyOf, visualHelper, visualHelperUrl.
  cbn [map concat fst].
  rewrite (markerSequence_none _ Of), (markerSequence_none _ On), (markerSequence_none _ Ov),
    markerSequence_number.
  destruct (local ctx); vm_compute; reflexivity.
Qed.
(** C10.  When the anchor tag of a marker does not occur in the text, the
    step of that marker returns the text as it is and prints nothing but
    [console.log] lines, and no line at all without [--debug].  The anchor
    is [</head>] for every marker but NEBE_DEMO_FILL, whose anchor is
    [</body>]. *)
Theorem no_anchor_no_insertion (ctx : Ctx) (time : Z) (inj : Injection)
    (markupContents : Text) :
  indexOf markupContents (anchor inj) = -1 →
  fst (inject ctx inj markupContents) = markupContents
  ∧ (∀ line, line ∈ snd (inject ctx inj markupContents) → ∃ msg, line = console_log msg)
  ∧ (debug ctx = false → snd (inject ctx inj markupContents) = [])
  ∧ map anchor (injections ctx time)
    = [head_tag; body_tag; head_tag; head_tag; head_tag; head_tag].
Proof.
  intros H. apply indexOf_minus_one in H.
  split; [exact (step_skip ctx inj markupContents (or_intror H))|].
  split; [|split; [|reflexivity]].
  - unfold inject, debugLog. intros line.
    destruct (indexOf markupContents (openToken inj) =? -1); destruct (debug ctx);
      cbn [snd]; intros Hin;
      first [apply list_elem_of_singleton in Hin; eauto | inversion Hin].
  - intros Hd. unfold inject, debugLog. rewrite Hd.
    destruct (indexOf markupContents (openToken inj) =? -1); reflexivity.
Qed.

(** A document with neither anchor tag goes through the pass unchanged. *)
Lemma postProcess_without_anchors ctx time doc :
  ¬ occurs head_tag doc → ¬ occurs body_tag doc → postProcess ctx time doc = doc.
Proof.
  intros Hh Hb. rewrite postProcess_steps. apply pass_fixed.
  apply injections_cases; right; assumption.
Qed.

(** *** Examples *)

Import Samples.

Example indexOf_found : indexOf (txt "<html></head>") (txt "</head>") = 6.
Proof. reflexivity. Qed.

Example indexOf_missing : indexOf (txt "<html>") (txt "</head>") = -1.
Proof. reflexivity. Qed.

Example replace_first_only :
  replace (txt "a</head>b</head>") (txt "</head>") (txt "X$$Y$&")
  = txt "aX$Y</head>b</head>".
Proof. reflexivity. Qed.

Example replace_patterns : replace (txt "ab") (txt "b") (txt "[$1$`$']") = txt "a[$1a]".
Proof. reflexivity. Qed.

Example numberToString_port : numberToString 1201 = txt "1201".
Proof. reflexivity. Qed.

Example markerSequence_docA :
  markerSequence (postProcess ctxA 1700000000000 docA)
  = [NEBE_POLYFILLS; NEBE_VISUAL_CLIENT; NEBE_ENV; NEBE_DOCUMENT_TITLE; NEBE_VISUAL_HELPER;
     NEBE_DEMO_FILL].
Proof. vm_compute. reflexivity. Qed.

Lemma postProcess_idempotent_witness :
  (occurs head_tag docB ∨ ¬ occurs body_tag docB ∨ fillKeepsHead ctxA)
  ∧ (occurs body_tag docB ∨ ¬ occurs head_tag docB ∨ namesKeepBody ctxA)
  ∧ postProcess ctxA 1 (postProcess ctxA 1 docB) = postProcess ctxA 1 docB
  ∧ (∀ n, Nat.iter (S n) (postProcess ctxA 1) docB = postProcess ctxA 1 docB)
  ∧ (∀ inj text, occurs (openToken inj) text →
       inject ctxA inj text = (text, debugLog ctxA (name inj ++ txt " already in markup"))).
Proof.
  assert (H1 : occurs head_tag docB ∨ ¬ occurs body_tag docB ∨ fillKeepsHead ctxA).
  { right; right. split.
    - apply hasChar_false. vm_compute. reflexivity.
    - apply occursb_false. vm_compute. reflexivity. }
  assert (H2 : occurs body_tag docB ∨ ¬ occurs head_tag docB ∨ namesKeepBody ctxA).
  { left. apply occursb_true. vm_compute. reflexivity. }
  split; [exact H1|]. split; [exact H2|].
  exact (postProcess_idempotent ctxA 1 docB H1 H2).
Defined.

(** C1 as stated fails: the document has no [</head>], so the first pass
    leaves NEBE_POLYFILLS out; the fill brings a [</head>] in, and the
    second pass splices the block of NEBE_POLYFILLS before it. *)
Lemma idempotence_counterexample :
  let once := postProcess ctxB 1 docB in
  let twice := postProcess ctxB 1 once in
  twice ≠ once
  ∧ occursb (openToken polyfills) once = false
  ∧ occursb (openToken polyfills) twice = true.
Proof.
  cbv zeta. split; [|split; vm_compute; reflexivity].
  intros H. apply (f_equal (@length ascii)) in H. vm_compute in H. discriminate H.
Qed.

Lemma six_markers_in_place_witness :
  let a := txt "<html><head><title>x</title>" in
  let b := txt "<body><main></main>" in
  let c := txt "</html>" in
  let doc := a ++ head_tag ++ b ++ body_tag ++ c in
  (∀ m, ¬ occurs (openTokenOf m) doc)
  ∧ ¬ occurs head_tag a
  ∧ ¬ occurs body_tag (a ++ head_tag ++ b)
  ∧ clean (fill ctxA) ∧ clean (folder ctxA) ∧ clean (visualPath ctxA)
  ∧ ¬ occurs head_tag (folder ctxA) ∧ ¬ occurs head_tag (visualPath ctxA)
  ∧ postProcess ctxA 1 doc
    = a ++ block polyfills ++ block (visualClient ctxA 1) ++ block (env ctxA)
        ++ block (documentTitle ctxA) ++ block (visualHelper ctxA)
        ++ head_tag ++ b ++ block (demoFill ctxA) ++ body_tag ++ c
  ∧ markerSequence (postProcess ctxA 1 doc)
    = [NEBE_POLYFILLS; NEBE_VISUAL_CLIENT; NEBE_ENV; NEBE_DOCUMENT_TITLE; NEBE_VISUAL_HELPER;
       NEBE_DEMO_FILL]
  ∧ map openToken (injections ctxA 1)
    = map openTokenOf
        [NEBE_POLYFILLS; NEBE_DEMO_FILL; NEBE_VISUAL_CLIENT; NEBE_ENV; NEBE_DOCUMENT_TITLE;
         NEBE_VISUAL_HELPER].
Proof.
  intros a b c doc.
  assert (H0 : ∀ m, ¬ occurs (openTokenOf m) doc)
    by (intros m; destruct m; apply occursb_false; vm_compute; reflexivity).
  assert (H1 : ¬ occurs head_tag a) by (apply occursb_false; vm_compute; reflexivity).
  assert (H2 : ¬ occurs body_tag (a ++ head_tag ++ b))
    by (apply occursb_false; vm_compute; reflexivity).
  assert (H3 : clean (fill ctxA)).
  { split; [apply hasChar_false; vm_compute; reflexivity|].
    intros m; destruct m; apply occursb_false; vm_compute; reflexivity. }
  assert (H4 : clean (folder ctxA)).
  { split; [apply hasChar_false; vm_compute; reflexivity|].
    intros m; destruct m; apply occursb_false; vm_compute; reflexivity. }
  assert (H5 : clean (visualPath ctxA)).
  { split; [apply hasChar_false; vm_compute; reflexivity|].
    intros m; destruct m; apply occursb_false; vm_compute; reflexivity. }
  assert (H6 : ¬ occurs head_tag (folder ctxA))
    by (apply occursb_false; vm_compute; reflexivity).
  assert (H7 : ¬ occurs head_tag (visualPath ctxA))
    by (apply occursb_false; vm_compute; reflexivity).
  repeat (split; [assumption|]).
  exact (six_markers_in_place ctxA 1 a b c H0 H1 H2 H3 H4 H5 H6 H7).
Defined.

(** C3 as stated fails: on a plain document the pass leaves six opening
    comments, not five, and the one of NEBE_DEMO_FILL comes last in the
    document, not second. *)
Lemma marker_order_counterexample :
  (∀ m, ¬ occurs (openTokenOf m) docA)
  ∧ markerSequence (postProcess ctxA 1 docA)
    = [NEBE_POLYFILLS; NEBE_VISUAL_CLIENT; NEBE_ENV; NEBE_DOCUMENT_TITLE; NEBE_VISUAL_HELPER;
       NEBE_DEMO_FILL]
  ∧ ¬ (∃ first, markerSequence (postProcess ctxA 1 docA)
                = [first; NEBE_DEMO_FILL; NEBE_VISUAL_CLIENT; NEBE_DOCUMENT_TITLE;
                   NEBE_VISUAL_HELPER]).
Proof.
  split; [intros m; destruct m; apply occursb_false; vm_compute; reflexivity|].
  assert (E : markerSequence (postProcess ctxA 1 docA)
              = [NEBE_POLYFILLS; NEBE_VISUAL_CLIENT; NEBE_ENV; NEBE_DOCUMENT_TITLE;
                 NEBE_VISUAL_HELPER; NEBE_DEMO_FILL]) by (vm_compute; reflexivity).
  split; [exact E|]. rewrite E. intros [first H]. discriminate H.
Qed.

Lemma no_anchor_no_insertion_witness :
  indexOf docB (anchor polyfills) = -1
  ∧ fst (inject ctxA polyfills docB) = docB
  ∧ (∀ line, line ∈ snd (inject ctxA polyfills docB) → ∃ msg, line = console_log msg)
  ∧ (debug ctxA = false → snd (inject ctxA polyfills docB) = [])
  ∧ map anchor (injections ctxA 1)
    = [head_tag; body_tag; head_tag; head_tag; head_tag; head_tag].
Proof.
  assert (H : indexOf docB (anchor polyfills) = -1) by (vm_compute; reflexivity).
  split; [exact H|]. exact (no_anchor_no_insertion ctxA 1 polyfills docB H).
Defined.

End MarkupFacts.

Module DevFacts.

Import CheckConfig Dev DevSpec.

Ltac run_monad :=
  unfold startTarget, tryCatch, newBundler, serve, print, printAll, notify, captureException, listen,
    reset_entry, update_entry, throw, process_exit, modify, get, call;
  unfold mbind, M_bind, mret, M_ret; cbn.

Lemma startTarget_completes w i folder p :
  fst (startTarget w i folder p) = Normal ().
Proof. run_monad. destruct (start w i); reflexivity. Qed.

Lemma startTarget_entry w i folder p :
  state_bundlers (snd (startTarget w i folder p))
  = <[i := entryOf w i folder]> (state_bundlers p).
Proof.
  run_monad. unfold entryOf.
  destruct (start w i); cbn; rewrite ?alter_insert_eq; reflexivity.
Qed.

Lemma startTarget_sentry w i folder p :
  sentry (snd (startTarget w i folder p)) = sentry p ++ errorOf (start w i).
Proof. run_monad. destruct (start w i); cbn; unfold push; rewrite ?app_nil_r; reflexivity. Qed.

Lemma startTarget_serveCalls w i folder p :
  serveCalls (snd (startTarget w i folder p)) = serveCalls p ++ callOf w i.
Proof.
  run_monad. unfold callOf.
  destruct (start w i); cbn; unfold push; rewrite ?app_nil_r; reflexivity.
Qed.

Lemma startTarget_bundlers w i folder p :
  bundlers (snd (startTarget w i folder p))
  = bundlers p ++ (if isServed (start w i) then [i] else []).
Proof. run_monad. destruct (start w i); cbn; unfold push; rewrite ?app_nil_r; reflexivity. Qed.

Lemma startTarget_listening w i folder p :
  listening (snd (startTarget w i folder p))
  = listening p ++ (if isServed (start w i) then [portOf i] else []).
Proof. run_monad. destruct (start w i); cbn; unfold push; rewrite ?app_nil_r; reflexivity. Qed.

Lemma startFrom_step w i folder rest p :
  startFrom w i (folder :: rest) p = startFrom w (S i) rest (snd (startTarget w i folder p)).
Proof.
  cbn [startFrom]. unfold mbind at 1, M_bind.
  pose proof (startTarget_completes w i folder p) as H.
  destruct (startTarget w i folder p) as [c q]. cbn in *. subst c. reflexivity.
Qed.

Lemma startFrom_completes w sel : ∀ i p, fst (startFrom w i sel p) = Normal ().
Proof.
  induction sel as [|folder rest IH]; intros i p; [reflexivity|].
  rewrite startFrom_step. apply IH.
Qed.

Lemma startFrom_entries w sel : ∀ i p j,
  state_bundlers (snd (startFrom w i sel p)) !! j
  = match sel !! (j - i)%nat with
    | Some folder => if decide (i ≤ j)%nat then Some (entryOf w j folder) else state_bundlers p !! j
    | None => state_bundlers p !! j
    end.
Proof.
  induction sel as [|folder rest IH]; intros i p j; [reflexivity|].
  rewrite startFrom_step, IH, startTarget_entry.
  destruct (decide (j = i)) as [->|Hne].
  - rewrite Nat.sub_diag. cbn [lookup list_lookup].
    rewrite lookup_insert_eq, (decide_True (P := (i ≤ i)%nat)) by lia.
    destruct (rest !! (i - S i)%nat); [|reflexivity].
    rewrite decide_False by lia. reflexivity.
  - rewrite lookup_insert_ne by congruence.
    destruct (decide (i ≤ j)%nat) as [Hle|Hgt].
    + replace (j - i)%nat with (S (j - S i)) by lia. cbn [lookup list_lookup].
      destruct (rest !! (j - S i)%nat); [|reflexivity].
      rewrite decide_True by lia. reflexivity.
    + replace (j - i)%nat with 0%nat by lia. replace (j - S i)%nat with 0%nat by lia.
      cbn. destruct rest; cbn; [reflexivity|]. rewrite decide_False by lia. reflexivity.
Qed.

Lemma startFrom_sentry w sel : ∀ i p,
  sentry (snd (startFrom w i sel p))
  = sentry p ++ concat (map (λ j, errorOf (start w j)) (seq i (length sel))).
Proof.
  induction sel as [|folder rest IH]; intros i p; cbn [length seq map concat].
  - cbn. rewrite app_nil_r. reflexivity.
  - rewrite startFrom_step, IH, startTarget_sentry, <- app_assoc. reflexivity.
Qed.

Lemma startFrom_serveCalls w sel : ∀ i p,
  serveCalls (snd (startFrom w i sel p))
  = serveCalls p ++ concat (map (callOf w) (seq i (length sel))).
Proof.
  induction sel as [|folder rest IH]; intros i p; cbn [length seq map concat].
  - cbn. rewrite app_nil_r. reflexivity.
  - rewrite startFrom_step, IH, startTarget_serveCalls, <- app_assoc. reflexivity.
Qed.

Lemma startFrom_bundlers w sel : ∀ i p,
  bundlers (snd (startFrom w i sel p))
  = bundlers p ++ List.filter (λ j, isServed (start w j)) (seq i (length sel)).
Proof.
  induction sel as [|folder rest IH]; intros i p; cbn [length seq List.filter].
  - cbn. rewrite app_nil_r. reflexivity.
  - rewrite startFrom_step, IH, startTarget_bundlers, <- app_assoc.
    destruct (isServed (start w i)); reflexivity.
Qed.

Lemma startFrom_listening w sel : ∀ i p,
  listening (snd (startFrom w i sel p))
  = listening p ++ map portOf (List.filter (λ j, isServed (start w j)) (seq i (length sel))).
Proof.
  induction sel as [|folder rest IH]; intros i p; cbn [length seq List.filter].
  - cbn. rewrite app_nil_r. reflexivity.
  - rewrite startFrom_step, IH, startTarget_listening, <- app_assoc.
    destruct (isServed (start w i)); reflexivity.
Qed.

Lemma parseInt_numberToString z : parseInt (numberToString z) = z.
Proof.
  unfold parseInt, numberToString, txt.
  rewrite string_of_list_ascii_of_string, NilEmpty.isi. apply DecimalZ.of_to.
Qed.

Lemma portOf_eq i : portOf i = 1200 + Z.of_nat i.
Proof. unfold portOf, key. rewrite !parseInt_numberToString. reflexivity. Qed.

Lemma portOf_inj i j : portOf i = portOf j → i = j.
Proof. rewrite !portOf_eq. lia. Qed.

Lemma callOf_elem w i j port : (j, port) ∈ callOf w i → j = i ∧ port = portOf i.
Proof.
  unfold callOf. destruct (isCreated (start w i)); intros H.
  - apply list_elem_of_singleton in H. inversion H; auto.
  - inversion H.
Qed.

Lemma calls_ports w : ∀ l,
  (concat (map (callOf w) l)).*2
  = map portOf (List.filter (λ j, isCreated (start w j)) l).
Proof.
  induction l as [|i l IH]; [reflexivity|].
  cbn [map concat List.filter]. rewrite fmap_app, IH.
  unfold callOf at 1. destruct (isCreated (start w i)); reflexivity.
Qed.

(** C2.  The start-up loop calls [serve] of the bundler of target [i] with
    port [1200 + i] and with no other port, these ports are pairwise
    distinct, and a target that is served has this port in its session
    record. *)
Theorem ports_assigned (w : World) (p : Proc) :
  serveCalls p = [] →
  let q := snd (startAll w p) in
  (∀ i port, (i, port) ∈ serveCalls q → port = 1200 + Z.of_nat i)
  ∧ NoDup (serveCalls q).*2
  ∧ (∀ i folder, selectedFolders w !! i = Some folder → start w i = Served →
       (i, 1200 + Z.of_nat i) ∈ serveCalls q
       ∧ state_bundlers q !! i
         = Some {| folder := Some folder; port := Some (1200 + Z.of_nat i);
                   error := Some false |})
  ∧ (∀ i j, i ≠ j → portOf i ≠ portOf j).
Proof.
  intros Hp q. subst q. unfold startAll.
  rewrite startFrom_serveCalls, Hp. cbn [app].
  split; [|split; [|split]].
  - intros i port H. apply list_elem_of_In, in_concat in H.
    destruct H as (l & Hl & Hin). apply in_map_iff in Hl.
    destruct Hl as (j & <- & _). apply list_elem_of_In, callOf_elem in Hin.
    destruct Hin as [-> ->]. apply portOf_eq.
  - rewrite calls_ports. apply NoDup_fmap_2; [intros i j; apply portOf_inj|].
    apply NoDup_ListNoDup, List.NoDup_filter, seq_NoDup.
  - intros i folder Hi Hs. rewrite <- portOf_eq. split.
    + apply list_elem_of_In, in_concat. exists (callOf w i). split.
      * apply in_map, in_seq. apply lookup_lt_Some in Hi. lia.
      * unfold callOf. rewrite Hs. left. reflexivity.
    + rewrite startFrom_entries, Nat.sub_0_r, Hi. rewrite decide_True by lia.
      unfold entryOf. rewrite Hs. reflexivity.
  - intros i j Hne H. apply Hne, portOf_inj, H.
Qed.

Lemma entryOf_withStart w k s j folder :
  j ≠ k → entryOf (withStart w k s) j folder = entryOf w j folder.
Proof. intros H. unfold entryOf, withStart; cbn. rewrite decide_False by done. reflexivity. Qed.

(** C5.  When the [try] block of target [k] throws, the loop still completes
    normally, the error has been given to Sentry, the session record of
    every other target is what it would be had target [k] been served, and
    every other target that can be served is served on its port and has its
    handle in [bundlers]. *)
Theorem failure_isolated (w : World) (k : nat) (e : Error) (p : Proc) :
  (k < length (selectedFolders w))%nat →
  start w k = BundlerThrows e ∨ start w k = ServeRejects e →
  let r := startAll w p in
  fst r = Normal ()
  ∧ e ∈ sentry (snd r)
  ∧ (∀ j folder, j ≠ k → selectedFolders w !! j = Some folder →
       state_bundlers (snd r) !! j
       = Some {| folder := Some folder;
                 port := if isServed (start w j) then Some (portOf j) else None;
                 error := Some false |})
  ∧ (∀ j s, j ≠ k →
       state_bundlers (snd (startAll (withStart w k s) p)) !! j
       = state_bundlers (snd r) !! j)
  ∧ (∀ j, (j < length (selectedFolders w))%nat → start w j = Served →
       j ∈ bundlers (snd r) ∧ portOf j ∈ listening (snd r) ∧ (j, portOf j) ∈ serveCalls (snd r)).
Proof.
  intros Hk He r. subst r. unfold startAll.
  split; [apply startFrom_completes|].
  split.
  { rewrite startFrom_sentry. apply elem_of_app. right.
    apply list_elem_of_In, in_concat. exists [e]. split; [|left; reflexivity].
    apply in_map_iff. exists k. split; [|apply in_seq; lia].
    destruct He as [-> | ->]; reflexivity. }
  split.
  { intros j folder _ Hj. rewrite startFrom_entries, Nat.sub_0_r, Hj.
    rewrite decide_True by lia. unfold entryOf. destruct (start w j); reflexivity. }
  split.
  { intros j s Hj. rewrite !startFrom_entries. cbn [selectedFolders withStart].
    destruct (selectedFolders w !! (j - 0)%nat); [|reflexivity].
    destruct (decide (0 ≤ j)%nat); [|reflexivity].
    rewrite entryOf_withStart by done. reflexivity. }
  intros j Hj Hs.
  assert (Hin : j ∈ List.filter (λ j, isServed (start w j)) (seq 0 (length (selectedFolders w)))).
  { apply list_elem_of_In, filter_In. split; [apply in_seq; lia|]. rewrite Hs. reflexivity. }
  split; [|split].
  - rewrite startFrom_bundlers. apply elem_of_app. right. exact Hin.
  - rewrite startFrom_listening. apply elem_of_app. right.
    apply list_elem_of_fmap. exists j. split; [reflexivity|exact Hin].
  - rewrite startFrom_serveCalls. apply elem_of_app. right.
    apply list_elem_of_In, in_concat. exists (callOf w j). split.
    + apply in_map, in_seq. lia.
    + unfold callOf. rewrite Hs. left. reflexivity.
Qed.

(** The entry a failed start leaves behind: the [catch] block assigns
    [false] to [error], and no port. *)
Lemma failed_start_entry (w : World) (i : nat) (folder : Text) (p : Proc) :
  isServed (start w i) = false →
  state_bundlers (snd (startTarget w i folder p)) !! i
  = Some {| folder := Some folder; port := None; error := Some false |}.
Proof.
  intros H. rewrite startTarget_entry, lookup_insert_eq. unfold entryOf.
  destruct (start w i); [reflexivity|reflexivity|discriminate].
Qed.

(** C8.  The preflight loop ends the process exactly when the probe finds
    port 1200 or port 1400 in use; it never throws; a probe that fails
    prints two lines and the check of that port completes; and when the
    preflight ends the process, so does [handle], with nothing else
    done. *)
Theorem preflight_aborts_iff_in_use (w : World) (p : Proc) :
  ((∃ code, fst (preflight w portsToCheck p) = Exit code)
     ↔ (portCheck w 1200 = InUse ∨ portCheck w 1400 = InUse))
  ∧ (∀ e, fst (preflight w portsToCheck p) ≠ Throw e)
  ∧ (∀ port e, portCheck w port = ProbeFails e →
       checkPort w port p
       = (Normal (),
          upd_console (push (console_log e))
            (upd_console
               (push (console_log
                  (txt "An error occurred while detecting availability of port "
                     ++ numberToString port ++ txt ", skipping this check"))) p)))
  ∧ (∀ code, fst (preflight w portsToCheck p) = Exit code →
       handle w p = preflight w portsToCheck p).
Proof.
  split; [|split; [|split]].
  - unfold portsToCheck, basePort, preflight, checkPort. run_monad.
    destruct (portCheck w 1200) eqn:H1; cbn.
    + split; [intros _; left; reflexivity | intros _; exists 0; reflexivity].
    + destruct (portCheck w 1400) eqn:H2; cbn.
      * split; [intros _; right; reflexivity | intros _; exists 0; reflexivity].
      * split; [intros [c Hc]; discriminate | intros [H|H]; discriminate].
      * split; [intros [c Hc]; discriminate | intros [H|H]; discriminate].
    + destruct (portCheck w 1400) eqn:H2; cbn.
      * split; [intros _; right; reflexivity | intros _; exists 0; reflexivity].
      * split; [intros [c Hc]; discriminate | intros [H|H]; discriminate].
      * split; [intros [c Hc]; discriminate | intros [H|H]; discriminate].
  - intros e. unfold portsToCheck, basePort, preflight, checkPort. run_monad.
    destruct (portCheck w 1200); cbn; [discriminate|..];
      destruct (portCheck w 1400); cbn; discriminate.
  - intros port e H. unfold checkPort. rewrite H. reflexivity.
  - intros code. unfold handle. generalize (preflight w portsToCheck).
    intros m. unfold mbind at 1. unfold M_bind.
    destruct (m p) as [[[]|c|e] q]; cbn; [discriminate|reflexivity|discriminate].
Qed.

Ltac run_handle :=
  unfold handle, portsToCheck, basePort, preflight, checkPort, checkFolders, checkSelection,
    awaitCheckSchema;
  run_monad.

Ltac finish_abort :=
  repeat match goal with |- _ ∧ _ => split end;
  try done;
  try (intros (H1 & H2 & [v H3] & H4 & H5); done).

(** C7.  With no size folder found, or with folders found and none
    selected, [handle] does not complete normally, no bundler is created,
    [serve] is never called, [bundlers] and [state.bundlers] stay empty and
    the process listens on port 1400 at most; when the start-up gets as far
    as looking for size folders, the process exits through [process.exit()]
    after raising one desktop notification. *)
Theorem no_targets_abort (w : World) :
  folders w = [] ∨ selectedFolders w = [] →
  let r := handle w initial in
  fst r ≠ Normal ()
  ∧ created (snd r) = [] ∧ serveCalls (snd r) = [] ∧ bundlers (snd r) = []
  ∧ state_bundlers (snd r) = ∅
  ∧ (∀ port, port ∈ listening (snd r) → port = 1400)
  ∧ (reachesDiscovery w → fst r = Exit 0 ∧ length (notifications (snd r)) = 1%nat).
Proof.
  intros Hempty r. subst r. unfold reachesDiscovery. run_handle.
  assert (Hl : ∀ port : Z, port ∈ [1400] → port = 1400)
    by (intros port H; apply list_elem_of_singleton in H; exact H).
  assert (Hn : ∀ port : Z, port ∈ @nil Z → port = 1400) by (intros port H; inversion H).
  destruct (portCheck w 1200); cbn; [finish_abort | |];
    (destruct (portCheck w 1400); cbn; [finish_abort | |]);
    (destruct (visual w); cbn; [|finish_abort]);
    (destruct (checkConfig _) as [[[]|c|e] l]; cbn; [| finish_abort ..]);
    (destruct (checkSchema w _); cbn; [finish_abort|]);
    (destruct (folders w) as [|f fs]; cbn; [finish_abort|]);
    (destruct Hempty as [Hempty|Hempty]; [discriminate|]; rewrite Hempty; cbn; finish_abort).
Qed.

(** C9.  The callback of the watcher of [config.json] calls [checkConfig]
    once and prints; it calls [bundle()] on no handle, sets no timer, and
    leaves the build output, the session records, the fill and the
    listening ports as they are. *)
Theorem config_change_only_validates (w : World) (t : Z) (p : Proc) :
  let q := runCallback (onConfigChange w t) p in
  rebuilds q = rebuilds p
  ∧ timers q = timers p
  ∧ dist q = dist p
  ∧ state_bundlers q = state_bundlers p
  ∧ state_folders q = state_folders p
  ∧ bundlers q = bundlers p
  ∧ listening q = listening p
  ∧ fill q = fill p
  ∧ schemaChecks q = schemaChecks p
  ∧ fillUpdates q = fillUpdates p
  ∧ configChecks q = S (configChecks p)
  ∧ console q
    = console p ++ console_log (txt "Config changed, validating")
        :: snd (checkConfig (configFile w t)).
Proof.
  unfold runCallback, onConfigChange. run_monad.
  destruct (checkConfig (configFile w t)) as [[b|c|e] l]; cbn; unfold push;
    rewrite <- app_assoc; repeat split; reflexivity.
Qed.

Lemma onTimeout_effect w d p :
  let q := runCallback (onTimeout w d) p in
  schemaChecks q = S (schemaChecks p)
  ∧ timers q = timers p
  ∧ bundlers q = bundlers p
  ∧ (checkSchema w d = None →
       fillUpdates q = S (fillUpdates p) ∧ rebuilds q = rebuilds p ++ bundlers p).
Proof.
  unfold runCallback, onTimeout, awaitCheckSchema. run_monad.
  destruct (checkSchema w d); cbn; repeat split; done.
Qed.

Lemma timeouts_effect w (Hok : ∀ t, checkSchema w t = None) ds : ∀ p,
  let q := fold_left (λ q d, runCallback (onTimeout w d) q) ds p in
  schemaChecks q = (schemaChecks p + length ds)%nat
  ∧ timers q = timers p
  ∧ bundlers q = bundlers p
  ∧ fillUpdates q = (fillUpdates p + length ds)%nat
  ∧ rebuilds q = rebuilds p ++ concat (replicate (length ds) (bundlers p)).
Proof.
  induction ds as [|d ds IH]; intros p; cbn [fold_left length replicate concat].
  - rewrite !Nat.add_0_r, app_nil_r. done.
  - destruct (onTimeout_effect w d p) as (H1 & H2 & H3 & H4).
    destruct (H4 (Hok d)) as [H5 H6].
    destruct (IH (runCallback (onTimeout w d) p)) as (I1 & I2 & I3 & I4 & I5).
    cbn zeta in *. rewrite I1, I2, I3, I4, I5, H1, H2, H3, H5, H6, <- app_assoc.
    repeat split; try lia; reflexivity.
Qed.

Lemma filter_split_length (t : Z) (l : list Z) :
  (length (filter (λ d, (d ≤ t)%Z) l) + length (filter (λ d, ¬ (d ≤ t)%Z) l))%nat
  = length l.
Proof.
  induction l as [|d l IH]; [reflexivity|].
  rewrite !filter_cons. destruct (decide (d ≤ t)).
  - rewrite decide_False by tauto. cbn. lia.
  - rewrite decide_True by tauto. cbn. lia.
Qed.

Lemma concat_replicate_add {A} (n m : nat) (l : list A) :
  concat (replicate (n + m) l) = concat (replicate n l) ++ concat (replicate m l).
Proof. induction n; cbn; [reflexivity|]. rewrite IHn, app_assoc. reflexivity. Qed.

Lemma runTimers_tally w (Hok : ∀ t, checkSchema w t = None) t p :
  tally (runTimers w t p) = tally p ∧ bundlers (runTimers w t p) = bundlers p.
Proof.
  unfold runTimers.
  destruct (timeouts_effect w Hok (filter (λ d, d ≤ t) (timers p))
              (upd_timers (λ _, filter (λ d, ¬ d ≤ t) (timers p)) p))
    as (H1 & H2 & H3 & H4 & H5).
  cbn zeta in *. cbn [upd_timers schemaChecks timers bundlers fillUpdates rebuilds] in *.
  split; [|exact H3].
  unfold tally. rewrite H1, H2, H3, H4, H5.
  pose proof (filter_split_length t (timers p)) as HL.
  f_equal; try lia.
  rewrite <- app_assoc, <- concat_replicate_add, HL. reflexivity.
Qed.

Lemma dispatch_tally w t e p :
  let q := runCallback (dispatch w t e) p in
  bundlers q = bundlers p
  ∧ tally q
    = if isSchemaChange e then
        {| t_checks := S (t_checks (tally p)); t_fills := S (t_fills (tally p));
           t_rebuilds := t_rebuilds (tally p) ++ bundlers p |}
      else tally p.
Proof.
  destruct e as [| |i file]; cbn [dispatch isSchemaChange].
  - unfold runCallback, onSchemaChange. run_monad. unfold tally, push; cbn.
    split; [reflexivity|]. rewrite length_app. cbn [length].
    rewrite concat_replicate_add. cbn. rewrite app_nil_r, <- app_assoc.
    f_equal; lia.
  - unfold runCallback, onConfigChange. run_monad.
    destruct (checkConfig _) as [[b|c|er] l]; split; reflexivity.
  - unfold runCallback, onBundled. run_monad. split; reflexivity.
Qed.

Lemma run_tally w (Hok : ∀ t, checkSchema w t = None) evs : ∀ p,
  let n := length (List.filter (λ te, isSchemaChange (snd te)) evs) in
  let q := run w evs p in
  bundlers q = bundlers p
  ∧ t_checks (tally q) = (t_checks (tally p) + n)%nat
  ∧ t_fills (tally q) = (t_fills (tally p) + n)%nat
  ∧ t_rebuilds (tally q) = t_rebuilds (tally p) ++ concat (replicate n (bundlers p)).
Proof.
  induction evs as [|[t e] evs IH]; intros p; cbn [run fold_left List.filter snd].
  - cbn. rewrite !Nat.add_0_r, app_nil_r. done.
  - fold (run w evs (step w p (t, e))).
    destruct (IH (step w p (t, e))) as (I0 & I1 & I2 & I3). cbn zeta in *.
    unfold step in *. cbn [fst snd] in *.
    destruct (runTimers_tally w Hok t p) as [R1 R2].
    destruct (dispatch_tally w t e (runTimers w t p)) as [D1 D2]. cbn zeta in *.
    rewrite I0, I1, I2, I3, D1, D2, R1, R2.
    destruct (isSchemaChange e); cbn [length replicate concat t_checks t_fills t_rebuilds].
    + rewrite <- app_assoc. repeat split; try lia; reflexivity.
    + repeat split; reflexivity.
Qed.

Lemma dispatch_sets_timer w t e p :
  let q := runCallback (dispatch w t e) p in
  timers q = timers p ++ (if isSchemaChange e then [t + 200] else [])
  ∧ schemaChecks q = schemaChecks p ∧ fillUpdates q = fillUpdates p
  ∧ rebuilds q = rebuilds p ∧ bundlers q = bundlers p.
Proof.
  destruct e as [| |i file]; cbn [dispatch isSchemaChange].
  - unfold runCallback, onSchemaChange. run_monad. repeat split; reflexivity.
  - unfold runCallback, onConfigChange. run_monad.
    destruct (checkConfig _) as [[b|c|er] l]; cbn; rewrite app_nil_r; repeat split; reflexivity.
  - unfold runCallback, onBundled. run_monad. rewrite app_nil_r. repeat split; reflexivity.
Qed.

Lemma runTimers_effect w (Hok : ∀ t, checkSchema w t = None) t p :
  let q := runTimers w t p in
  let due := filter (λ d, d ≤ t) (timers p) in
  timers q = filter (λ d, ¬ d ≤ t) (timers p)
  ∧ schemaChecks q = (schemaChecks p + length due)%nat
  ∧ fillUpdates q = (fillUpdates p + length due)%nat
  ∧ rebuilds q = rebuilds p ++ concat (replicate (length due) (bundlers p))
  ∧ bundlers q = bundlers p.
Proof.
  unfold runTimers.
  destruct (timeouts_effect w Hok (filter (λ d, d ≤ t) (timers p))
              (upd_timers (λ _, filter (λ d, ¬ d ≤ t) (timers p)) p))
    as (H1 & H2 & H3 & H4 & H5).
  cbn zeta in *. cbn [upd_timers schemaChecks timers bundlers fillUpdates rebuilds] in *.
  repeat split; assumption.
Qed.

Lemma timers_by_time (T' t : Z) (HT : T' ≤ t) (evs : list (Z * Event)) :
  let ts := map timerOf (List.filter (pendingAt T') evs) in
  filter (λ d, ¬ d ≤ t) ts = map timerOf (List.filter (pendingAt t) evs)
  ∧ (length (List.filter (dueBy T') evs) + length (filter (λ d, (d ≤ t)%Z) ts))%nat
    = length (List.filter (dueBy t) evs).
Proof.
  induction evs as [|[t0 e] evs [IH1 IH2]]; [split; reflexivity|].
  cbn zeta in *. cbn [List.filter].
  assert (Hp : ∀ T, pendingAt T (t0, e) = isSchemaChange e && bool_decide (¬ timerOf (t0, e) ≤ T))
    by reflexivity.
  assert (Hd : ∀ T, dueBy T (t0, e) = isSchemaChange e && bool_decide (timerOf (t0, e) ≤ T))
    by reflexivity.
  rewrite !Hp, !Hd. clear Hp Hd.
  destruct (isSchemaChange e); cbn [andb]; [|split; assumption].
  unfold timerOf in *.
  repeat case_bool_decide; cbn [fst] in *; try lia; cbn [map length fst];
    rewrite ?filter_cons; repeat case_decide; try lia; cbn [length]; rewrite ?IH1;
    (split; [reflexivity|lia]).
Qed.

Lemma last_event_time (t : Z) (ts : list Z) :
  Sorted Z.le (ts ++ [t]) →
  Sorted Z.le ts ∧ ∃ T', T' ≤ t ∧ (ts = [] ∨ last ts = Some T').
Proof.
  intros Hs. apply Sorted_StronglySorted in Hs; [|intros ???; lia].
  split; [eapply StronglySorted_Sorted, StronglySorted_app_1_l, Hs|].
  destruct (last ts) as [T'|] eqn:HL.
  - exists T'. split; [|right; reflexivity].
    eapply StronglySorted_app_1_elem_of; [exact Hs| |left].
    apply last_Some_elem_of, HL.
  - exists t. split; [lia|left]. apply last_None in HL. exact HL.
Qed.

Lemma run_by_time w (Hok : ∀ t, checkSchema w t = None) p (Hp : timers p = []) :
  ∀ evs T, Sorted Z.le (map fst evs) → (evs = [] ∨ last (map fst evs) = Some T) →
  let q := run w evs p in
  let m := length (List.filter (dueBy T) evs) in
  timers q = map timerOf (List.filter (pendingAt T) evs)
  ∧ schemaChecks q = (schemaChecks p + m)%nat
  ∧ fillUpdates q = (fillUpdates p + m)%nat
  ∧ rebuilds q = rebuilds p ++ concat (replicate m (bundlers p))
  ∧ bundlers q = bundlers p.
Proof.
  induction evs as [|[t e] evs IH] using rev_ind; intros T Hs HT.
  - cbn. rewrite Hp, !Nat.add_0_r, app_nil_r; done.
  - destruct HT as [HT|HT]; [destruct evs; discriminate HT|].
    rewrite map_app in HT, Hs. cbn [map fst] in HT, Hs.
    rewrite last_snoc in HT. injection HT as <-.
    destruct (last_event_time _ _ Hs) as (Hs1 & T' & HT' & Hl).
    assert (Hl' : evs = [] ∨ last (map fst evs) = Some T').
    { destruct Hl as [Hl|Hl]; [left|right; exact Hl]. destruct evs; [reflexivity|discriminate Hl]. }
    destruct (IH T' Hs1 Hl') as (I1 & I2 & I3 & I4 & I5).
    unfold run. rewrite fold_left_app. cbn [fold_left]. fold (run w evs p).
    unfold step; cbn [fst snd].
    destruct (runTimers_effect w Hok t (run w evs p)) as (R1 & R2 & R3 & R4 & R5).
    destruct (dispatch_sets_timer w t e (runTimers w t (run w evs p)))
      as (D1 & D2 & D3 & D4 & D5).
    destruct (timers_by_time T' t HT' evs) as [L1 L2].
    cbn zeta in *.
    rewrite D1, D2, D3, D4, D5, R1, R2, R3, R4, R5, I1, I2, I3, I4, I5, L1.
    rewrite !List.filter_app, map_app, length_app. cbn [List.filter].
    assert (Hp' : pendingAt t (t, e) = isSchemaChange e).
    { unfold pendingAt, timerOf. cbn [fst snd]. rewrite bool_decide_true by lia.
      apply andb_true_r. }
    assert (Hd : dueBy t (t, e) = false).
    { unfold dueBy, timerOf. cbn [fst snd]. rewrite bool_decide_false by lia.
      apply andb_false_r. }
    rewrite Hp', Hd. cbn [length]. rewrite Nat.add_0_r, <- L2.
    rewrite <- app_assoc, <- concat_replicate_add.
    repeat split; try lia; try reflexivity.
    destruct (isSchemaChange e); reflexivity.
Qed.

(** C6, as amended.  The watcher of [schema.json] does not coalesce: each
    change event sets a timer of its own, 200 ms later, and does nothing
    else.  With no timer pending at first and a [checkSchema] that resolves:
    when the events come in the order of their times and the last one comes
    at time [T], the changes whose 200 ms are over by [T] have each led to
    one call of [checkSchema], one of [getFill] and one of [bundle()] on
    every handle of [bundlers], and the timers of the other changes are
    pending, each for 200 ms after its change; and [n] change events,
    whenever they arrive and whatever else arrives between them, have led
    to [n] calls of [checkSchema], [n] calls of [getFill] and [n] calls of
    [bundle()] on every handle of [bundlers] once all timers have fired. *)
Theorem each_schema_change_runs_a_cycle (w : World) (evs : list (Z * Event)) (p : Proc) :
  timers p = [] →
  (∀ t, checkSchema w t = None) →
  let n := length (List.filter (λ te, isSchemaChange (snd te)) evs) in
  let q := settle w (run w evs p) in
  (∀ t p0, let q0 := runCallback (onSchemaChange t) p0 in
     timers q0 = timers p0 ++ [t + 200]
     ∧ schemaChecks q0 = schemaChecks p0 ∧ fillUpdates q0 = fillUpdates p0
     ∧ rebuilds q0 = rebuilds p0)
  ∧ (∀ T, Sorted Z.le (map fst evs) → last (map fst evs) = Some T →
       let q1 := run w evs p in
       let m := length (List.filter (dueBy T) evs) in
       timers q1 = map timerOf (List.filter (pendingAt T) evs)
       ∧ schemaChecks q1 = (schemaChecks p + m)%nat
       ∧ fillUpdates q1 = (fillUpdates p + m)%nat
       ∧ rebuilds q1 = rebuilds p ++ concat (replicate m (bundlers p)))
  ∧ schemaChecks q = (schemaChecks p + n)%nat
  ∧ fillUpdates q = (fillUpdates p + n)%nat
  ∧ rebuilds q = rebuilds p ++ concat (replicate n (bundlers p))
  ∧ timers q = [].
Proof.
  intros Hp Hok n q. subst n q.
  split.
  { intros t p0.
    destruct (dispatch_sets_timer w t SchemaChange p0) as (D1 & D2 & D3 & D4 & _).
    repeat split; assumption. }
  split.
  { intros T Hs HT.
    destruct (run_by_time w Hok p Hp evs T Hs (or_intror HT)) as (I1 & I2 & I3 & I4 & _).
    repeat split; assumption. }
  destruct (run_tally w Hok evs p) as (I0 & I1 & I2 & I3). cbn zeta in *.
  unfold settle.
  destruct (timeouts_effect w Hok (timers (run w evs p))
              (upd_timers (λ _, []) (run w evs p))) as (H1 & H2 & H3 & H4 & H5).
  cbn zeta in *. cbn [upd_timers schemaChecks timers bundlers fillUpdates rebuilds] in *.
  rewrite H1, H2, H4, H5.
  unfold tally in I1, I2, I3. cbn [t_checks t_fills t_rebuilds] in I1, I2, I3.
  rewrite Hp in I1, I2, I3. cbn [length replicate concat] in I1, I2, I3.
  rewrite app_nil_r in I3. rewrite Nat.add_0_r in I1, I2.
  rewrite I0 in I3. rewrite I0. repeat split; try assumption; reflexivity.
Qed.

(** *** Examples *)

Import Samples.

(** The scenario of two size folders, both served. *)
Example two_targets_served :
  let r := handle worldB initial in
  fst r = Normal ()
  ∧ map_to_list (state_bundlers (snd r))
    ≡ₚ [(0%nat, {| folder := Some (txt "300x300"); port := Some 1200;
                   error := Some false |});
        (1%nat, {| folder := Some (txt "728x90"); port := Some 1201;
                   error := Some false |})]
  ∧ listening (snd r) = [1400; 1200; 1201]
  ∧ bundlers (snd r) = [0; 1]%nat.
Proof.
  cbv zeta. split; [vm_compute; reflexivity|]. split; [|split; vm_compute; reflexivity].
  vm_compute. apply perm_swap.
Qed.

Lemma ports_assigned_witness :
  serveCalls initial = []
  ∧ let q := snd (startAll worldA initial) in
    (∀ i port, (i, port) ∈ serveCalls q → port = 1200 + Z.of_nat i)
    ∧ NoDup (serveCalls q).*2
    ∧ (∀ i folder, selectedFolders worldA !! i = Some folder → start worldA i = Served →
         (i, 1200 + Z.of_nat i) ∈ serveCalls q
         ∧ state_bundlers q !! i
           = Some {| folder := Some folder; port := Some (1200 + Z.of_nat i);
                     error := Some false |})
    ∧ (∀ i j, i ≠ j → portOf i ≠ portOf j).
Proof.
  split; [reflexivity|]. exact (ports_assigned worldA initial eq_refl).
Defined.

(** C4: the code at the failing input.  The first target cannot be served;
    its session record ends with [error] set to [false], as the record of
    the target that is served, and the error went to Sentry. *)
Theorem failed_start_leaves_error_false :
  let q := snd (handle worldA initial) in
  start worldA 0 = ServeRejects (txt "listen EADDRINUSE")
  ∧ sentry q = [txt "listen EADDRINUSE"]
  ∧ state_bundlers q !! 0%nat
    = Some {| folder := Some (txt "300x300"); port := None; error := Some false |}
  ∧ state_bundlers q !! 1%nat
    = Some {| folder := Some (txt "728x90"); port := Some 1201;
              error := Some false |}.
Proof. cbv zeta. repeat split; vm_compute; reflexivity. Qed.

Lemma failure_isolated_witness :
  (0 < length (selectedFolders worldA))%nat
  ∧ (start worldA 0 = BundlerThrows (txt "listen EADDRINUSE")
     ∨ start worldA 0 = ServeRejects (txt "listen EADDRINUSE"))
  ∧ let r := startAll worldA initial in
    fst r = Normal ()
    ∧ txt "listen EADDRINUSE" ∈ sentry (snd r)
    ∧ (∀ j folder, j ≠ 0%nat → selectedFolders worldA !! j = Some folder →
         state_bundlers (snd r) !! j
         = Some {| folder := Some folder;
                   port := if isServed (start worldA j) then Some (portOf j) else None;
                   error := Some false |})
    ∧ (∀ j s, j ≠ 0%nat →
         state_bundlers (snd (startAll (withStart worldA 0 s) initial)) !! j
         = state_bundlers (snd r) !! j)
    ∧ (∀ j, (j < length (selectedFolders worldA))%nat → start worldA j = Served →
         j ∈ bundlers (snd r) ∧ portOf j ∈ listening (snd r)
         ∧ (j, portOf j) ∈ serveCalls (snd r)).
Proof.
  assert (H1 : (0 < length (selectedFolders worldA))%nat) by (cbn; lia).
  assert (H2 : start worldA 0 = BundlerThrows (txt "listen EADDRINUSE")
               ∨ start worldA 0 = ServeRejects (txt "listen EADDRINUSE"))
    by (right; reflexivity).
  split; [exact H1|]. split; [exact H2|].
  exact (failure_isolated worldA 0 (txt "listen EADDRINUSE") initial H1 H2).
Defined.

Lemma no_targets_abort_witness :
  (folders worldC = [] ∨ selectedFolders worldC = [])
  ∧ let r := handle worldC initial in
    fst r ≠ Normal ()
    ∧ created (snd r) = [] ∧ serveCalls (snd r) = [] ∧ bundlers (snd r) = []
    ∧ state_bundlers (snd r) = ∅
    ∧ (∀ port, port ∈ listening (snd r) → port = 1400)
    ∧ (reachesDiscovery worldC → fst r = Exit 0 ∧ length (notifications (snd r)) = 1%nat).
Proof.
  assert (H : folders worldC = [] ∨ selectedFolders worldC = []) by (right; reflexivity).
  split; [exact H|]. exact (no_targets_abort worldC H).
Defined.

Lemma each_schema_change_runs_a_cycle_witness :
  let evs := [(0, SchemaChange); (10, SchemaChange); (500, ConfigChange); (900, SchemaChange)] in
  let p := snd (handle worldB initial) in
  timers p = []
  ∧ (∀ t, checkSchema worldB t = None)
  ∧ let q := settle worldB (run worldB evs p) in
    (∀ t p0, let q0 := runCallback (onSchemaChange t) p0 in
       timers q0 = timers p0 ++ [t + 200]
       ∧ schemaChecks q0 = schemaChecks p0 ∧ fillUpdates q0 = fillUpdates p0
       ∧ rebuilds q0 = rebuilds p0)
    ∧ (∀ T, Sorted Z.le (map fst evs) → last (map fst evs) = Some T →
         let q1 := run worldB evs p in
         let m := length (List.filter (dueBy T) evs) in
         timers q1 = map timerOf (List.filter (pendingAt T) evs)
         ∧ schemaChecks q1 = (schemaChecks p + m)%nat
         ∧ fillUpdates q1 = (fillUpdates p + m)%nat
         ∧ rebuilds q1 = rebuilds p ++ concat (replicate m (bundlers p)))
    ∧ schemaChecks q = (schemaChecks p + 3)%nat
    ∧ fillUpdates q = (fillUpdates p + 3)%nat
    ∧ rebuilds q = rebuilds p ++ concat (replicate 3 (bundlers p))
    ∧ timers q = [].
Proof.
  intros evs p.
  assert (H1 : timers p = []) by (vm_compute; reflexivity).
  assert (H2 : ∀ t, checkSchema worldB t = None) by (intros t; reflexivity).
  split; [exact H1|]. split; [exact H2|].
  exact (each_schema_change_runs_a_cycle worldB evs p H1 H2).
Defined.

(** The cycle of a change comes 200 ms after it, not before: of the three
    changes at 0, 10 and 900 ms, two have had their cycle when the last
    event arrives, and the timer of the third is set for 1100 ms. *)
Example cycle_waits_200_ms :
  let evs := [(0, SchemaChange); (10, SchemaChange); (199, ConfigChange);
              (205, ConfigChange); (900, SchemaChange)] in
  let p := snd (handle worldB initial) in
  schemaChecks (run worldB (take 3 evs) p) = 0%nat
  ∧ timers (run worldB (take 3 evs) p) = [200; 210]
  ∧ schemaChecks (run worldB (take 4 evs) p) = 1%nat
  ∧ timers (run worldB (take 4 evs) p) = [210]
  ∧ schemaChecks (run worldB evs p) = 2%nat
  ∧ rebuilds (run worldB evs p) = [0; 1; 0; 1]%nat
  ∧ timers (run worldB evs p) = [1100].
Proof. cbv zeta. repeat split; vm_compute; reflexivity. Qed.

(** C6 as stated fails: two change events 10 ms apart lead to two calls of
    [checkSchema], two calls of [getFill] and two calls of [bundle()] on
    each of the two handles, not to one. *)
Lemma debounce_counterexample :
  let p := snd (handle worldB initial) in
  let q := settle worldB (run worldB [(0, SchemaChange); (10, SchemaChange)] p) in
  bundlers p = [0; 1]%nat
  ∧ schemaChecks p = 0%nat ∧ fillUpdates p = 0%nat ∧ rebuilds p = []
  ∧ schemaChecks q = 2%nat ∧ fillUpdates q = 2%nat ∧ rebuilds q = [0; 1; 0; 1]%nat
  ∧ ¬ (schemaChecks q = 1%nat ∧ fillUpdates q = 1%nat ∧ rebuilds q = bundlers p).
Proof.
  cbv zeta. repeat (split; [vm_compute; reflexivity|]).
  intros (H & _). vm_compute in H. discriminate H.
Qed.

End DevFacts.

(** * Further properties *)

(** ** Sequencing *)

Module EffectFacts.

Import Effect.

Lemma bind_normal {S A B} (m : Eff S A) (k : A → Eff S B) p a q :
  m p = (Normal a, q) → (m ≫= k) p = k a q.
Proof. intros H. unfold mbind, Eff_bind. rewrite H. reflexivity. Qed.

Lemma bind_exit {S A B} (m : Eff S A) (k : A → Eff S B) p code q :
  m p = (Exit code, q) → (m ≫= k) p = (Exit code, q).
Proof. intros H. unfold mbind, Eff_bind. rewrite H. reflexivity. Qed.

Lemma bind_throw {S A B} (m : Eff S A) (k : A → Eff S B) p e q :
  m p = (Throw e, q) → (m ≫= k) p = (Throw e, q).
Proof. intros H. unfold mbind, Eff_bind. rewrite H. reflexivity. Qed.

(** One step of a sequence whose first part returns, ends the process or
    throws without asking the surroundings. *)
Ltac step_normal := erewrite bind_normal by reflexivity; cbv beta.
Ltac step_exit := erewrite bind_exit by reflexivity.
Ltac step_throw := erewrite bind_throw by reflexivity.

End EffectFacts.

(** ** [checkConfig] *)

Module CheckConfigFacts.

Import CheckConfig.

(** X1.  [checkConfig] resolves to [true] exactly when the file exists,
    holds a truthy value, its [format] is one of the seven known strings
    and its [name] is a string; the description has no part in the
    result. *)
Theorem checkConfig_accepts (file : ConfigFile) :
  fst (checkConfig file) = Normal true
  ↔ ∃ format name description,
      file = Parsed true (JsString format) (JsString name) description
      ∧ format ∈ formats.
Proof.
  split.
  - destruct file as [|e|[] [f|] [n|] d]; cbn; try discriminate.
    + destruct (bool_decide (f ∈ formats)) eqn:E; cbn; [|discriminate].
      intros _. apply bool_decide_eq_true in E. eauto.
    + destruct (bool_decide (f ∈ formats)); cbn; discriminate.
  - intros (f & n & d & -> & Hf). cbn.
    rewrite (bool_decide_eq_true_2 _ Hf). cbn. destruct d; reflexivity.
Qed.

(** X2.  [checkConfig] never ends the process and prints one line whenever
    it returns: an error when the result is [false]; when the result is
    [true], the line [Config seems ok] if the description is a string and
    a warning if it is not.  It throws only when the file cannot be
    parsed, and then prints nothing: the line [config.json is not valid
    JSON] is for a file that parses to a falsy value. *)
Theorem checkConfig_reports (file : ConfigFile) :
  let r := checkConfig file in
  (∀ code, fst r ≠ Exit code)
  ∧ (∀ e, fst r = Throw e ↔ file = Malformed e)
  ∧ (∀ e, file = Malformed e → snd r = [])
  ∧ (fst r = Normal false → ∃ msg, snd r = [console_error msg])
  ∧ (∀ format name description, file = Parsed false format name description →
       r = (Normal false, [console_error (txt "config.json is not valid JSON")]))
  ∧ (fst r = Normal true →
       ∃ format name description, file = Parsed true format name description
         ∧ snd r = if isString description
                   then [console_log (txt "Config seems ok")]
                   else [console_warn (txt "Visual's description is not defined")]).
Proof.
  cbv zeta. repeat match goal with |- _ ∧ _ => split end.
  - intros code. destruct file as [|e|[] [f|] [n|] [d|]]; cbn; try discriminate;
      destruct (bool_decide (f ∈ formats)); cbn; discriminate.
  - intros e. destruct file as [|e'|[] [f|] [n|] [d|]]; cbn;
      try (split; [discriminate|discriminate]);
      try (destruct (bool_decide (f ∈ formats)); cbn; split; discriminate).
    split; [intros [= ->]; reflexivity | intros [= ->]; reflexivity].
  - intros e ->. reflexivity.
  - destruct file as [|e|[] [f|] [n|] [d|]]; cbn; try discriminate; eauto;
      destruct (bool_decide (f ∈ formats)); cbn; try discriminate; eauto.
  - intros f n d ->. reflexivity.
  - destruct file as [|e|[] [f|] [n|] [d|]]; cbn; try discriminate;
      destruct (bool_decide (f ∈ formats)); cbn; try discriminate; intros _; eauto.
Qed.

End CheckConfigFacts.

(** ** The flags of [Dev] *)

Module OptionsFacts.

Import Options TextFacts.

Lemma join_cons sep x y rest :
  join sep (x :: y :: rest) = x ++ sep ++ join sep (y :: rest).
Proof. reflexivity. Qed.

(** A text without the separator occurs in the joined text exactly when it
    occurs in one of the texts joined. *)
Lemma occurs_join (c : ascii) (t : Text) (l : list Text) :
  t ≠ [] → c ∉ t → (occurs t (join [c] l) ↔ ∃ a, a ∈ l ∧ occurs t a).
Proof.
  intros Hne Hc. induction l as [|x [|y rest] IH].
  - cbn. split.
    + intros H. apply occurs_nil in H. contradiction.
    + intros (a & Ha & _). inversion Ha.
  - cbn. split.
    + intros H. exists x. split; [left|exact H].
    + intros (a & Ha & H). apply list_elem_of_singleton in Ha as ->. exact H.
  - rewrite join_cons. cbn [app]. split.
    + intros H. apply occurs_sep in H as [H|H]; [| |exact Hc].
      * exists x. split; [left|exact H].
      * apply IH in H as (a & Ha & H). exists a. split; [right; exact Ha|exact H].
    + intros (a & Ha & H). apply elem_of_cons in Ha as [->|Ha].
      * apply occurs_app_l, H.
      * apply occurs_app_r, occurs_cons, IH. eauto.
Qed.

Lemma hasFlag_spec (args : list Text) (flag : Text) :
  flag ≠ [] → " "%char ∉ flag →
  (hasFlag args flag = true ↔ ∃ a, a ∈ args ∧ occurs flag a).
Proof.
  intros Hne Hc. unfold hasFlag. rewrite indexOf_absent, negb_involutive, occursb_true.
  apply (occurs_join " "%char); assumption.
Qed.

Ltac flag_side :=
  apply hasFlag_spec; [vm_compute; discriminate | apply hasChar_false; vm_compute; reflexivity].

(** X3.  A flag of [Dev] is on exactly when its text occurs somewhere in
    one of the arguments of the command line: as an argument, or inside a
    longer one; it never comes from two arguments put side by side.
    [keepRunning] is always on. *)
Theorem constructor_flags (argv : list Text) :
  let o := constructor argv in
  let given flag := ∃ a, a ∈ drop 2 argv ∧ occurs (txt flag) a in
  keepRunning o = true
  ∧ (debug o = true ↔ given "--debug"%string)
  ∧ (newest o = true ↔ given "--newest"%string)
  ∧ (latest o = true ↔ given "--latest"%string)
  ∧ (local o = true ↔ given "--local"%string).
Proof.
  cbv zeta. unfold constructor. cbn [keepRunning debug newest latest local].
  split; [reflexivity|]. split; [|split; [|split]]; flag_side.
Qed.

End OptionsFacts.

(** ** The entry point *)

Module CliFacts.

Import Effect Cli CliSpec.

Lemma arrayIndexOf_head x l : arrayIndexOf (x :: l) x = 0.
Proof. cbn. rewrite bool_decide_eq_true_2 by reflexivity. reflexivity. Qed.

Lemma arrayIndexOf_nonneg x : ∀ l, arrayIndexOf l x = -1 ∨ 0 ≤ arrayIndexOf l x.
Proof.
  induction l as [|y l IH]; cbn; [left; reflexivity|].
  destruct (bool_decide (y = x)); [right; lia|].
  destruct (arrayIndexOf l x =? -1) eqn:E; [left; reflexivity|].
  right. apply Z.eqb_neq in E. lia.
Qed.

Lemma arrayIndexOf_skip x y l :
  y ≠ x → 0 ≤ arrayIndexOf l x → arrayIndexOf (y :: l) x = arrayIndexOf l x + 1.
Proof.
  intros Hne H. cbn. rewrite bool_decide_eq_false_2 by exact Hne.
  destruct (arrayIndexOf l x =? -1) eqn:E; [|reflexivity].
  apply Z.eqb_eq in E. lia.
Qed.

Lemma commandArgsOf_cases (node script name : Text) (rest : list Text) :
  commandArgsOf (node :: script :: name :: rest) name
  = (if bool_decide (node = name) then []
     else if bool_decide (script = name) then name :: rest
     else rest).
Proof.
  unfold commandArgsOf.
  destruct (bool_decide (node = name)) eqn:E1.
  { apply bool_decide_eq_true in E1 as ->. rewrite arrayIndexOf_head. reflexivity. }
  apply bool_decide_eq_false in E1.
  destruct (bool_decide (script = name)) eqn:E2.
  { apply bool_decide_eq_true in E2 as ->.
    rewrite arrayIndexOf_skip, arrayIndexOf_head by (done || rewrite arrayIndexOf_head; lia).
    reflexivity. }
  apply bool_decide_eq_false in E2.
  rewrite arrayIndexOf_skip; [|exact E1|].
  - rewrite arrayIndexOf_skip, arrayIndexOf_head by (done || rewrite arrayIndexOf_head; lia).
    reflexivity.
  - rewrite arrayIndexOf_skip, arrayIndexOf_head by (done || rewrite arrayIndexOf_head; lia).
    lia.
Qed.

(** X4.  The command is named by the first argument, and is [help] when
    there is none.  Its handler is given the arguments that follow the
    first element of [process.argv] equal to the name: the rest of the
    command line, unless the path of the script is the name, when the name
    itself is passed on as well, or the path of [node] is, when nothing
    is. *)
Theorem command_arguments (node script name : Text) (rest : list Text) :
  let argv := node :: script :: name :: rest in
  commandNameOf argv = name
  ∧ commandArgsOf argv name
    = (if bool_decide (node = name) then []
       else if bool_decide (script = name) then name :: rest
       else rest)
  ∧ commandNameOf [node; script] = txt "help"
  ∧ commandArgsOf [node; script] (txt "help") = [].
Proof.
  cbv zeta. split; [reflexivity|]. split; [apply commandArgsOf_cases|].
  split; [reflexivity|].
  unfold commandArgsOf. cbn [arrayIndexOf].
  destruct (bool_decide (node = txt "help")); [reflexivity|].
  destruct (bool_decide (script = txt "help")); reflexivity.
Qed.

Section Main.
Context {S : Type}.
Implicit Types (h : Host S) (argv : list Text) (s : S).

Lemma main_prelude h argv s :
  main h argv s
  = (prelude h argv ;;
     if negb (commandExists h (commandNameOf argv)) then
       modify (console_out h (console_error
         (txt "Command " ++ commandNameOf argv
            ++ txt " does not exist. Run nebe help for the command list"))) ;;
       process_exit 0
     else
       handle (load h (commandNameOf argv)) (commandArgsOf argv (commandNameOf argv)) ;;
       if keepRunning (load h (commandNameOf argv)) then mret () else process_exit 0) s.
Proof.
  unfold main, prelude, modify. unfold mbind, Eff_bind. cbn.
  destruct (needsInstall (commandNameOf argv)); [|reflexivity].
  destruct (checkInstall h (checkForUpdate h s)) as [[[]|c|e] s']; reflexivity.
Qed.

(** What [main] does once the command is found. *)
Lemma main_runs h argv s :
  fst (prelude h argv s) = Normal () →
  commandExists h (commandNameOf argv) = true →
  let command := load h (commandNameOf argv) in
  let r := handle command (commandArgsOf argv (commandNameOf argv)) (snd (prelude h argv s)) in
  main h argv s = (after command (fst r), snd r).
Proof.
  intros Hp He command r. subst command r. rewrite main_prelude.
  unfold mbind at 1. unfold Eff_bind at 1.
  destruct (prelude h argv s) as [c s']. cbn in Hp. subst c. cbn [snd].
  rewrite He. cbn [negb]. unfold mbind, Eff_bind, after.
  destruct (handle _ _ s') as [[[]|c|e] s'']; cbn; [|reflexivity..].
  destruct (keepRunning _); reflexivity.
Qed.

End Main.

(** X5.  [checkInstall] is awaited for every command but [install],
    [login] and [help], found or not; when it does not complete, the
    script ends as [checkInstall] does and nothing else is done.  For the
    three commands named, [checkInstall] has no part in what the script
    does. *)
Theorem install_checked_first {S} (h : Host S) (argv : list Text) (s : S) :
  let name := commandNameOf argv in
  (needsInstall name = false ↔ name ∈ [txt "install"; txt "login"; txt "help"])
  ∧ (needsInstall name = false → ∀ c, main (withCheckInstall h c) argv s = main h argv s)
  ∧ (needsInstall name = true →
     fst (checkInstall h (checkForUpdate h s)) ≠ Normal () →
     main h argv s = checkInstall h (checkForUpdate h s)).
Proof.
  cbv zeta. split; [|split].
  - unfold needsInstall. rewrite !elem_of_cons, elem_of_nil.
    repeat match goal with |- context [bool_decide ?P] => destruct (bool_decide_reflect P) end;
      cbn; split; intros H; try done; try tauto.
  - intros Hn c. unfold main. rewrite Hn. reflexivity.
  - intros Hn Hc. unfold main, modify. unfold mbind, Eff_bind. cbn. rewrite Hn.
    destruct (checkInstall h (checkForUpdate h s)) as [[[]|c|e] s']; cbn in *; done.
Qed.

(** X6.  A command that is not in [lib/commands] gets one line on the
    error stream and the process exits with code 0; no command is loaded
    and no handler runs. *)
Theorem unknown_command_exits {S} (h : Host S) (argv : list Text) (s : S) :
  fst (prelude h argv s) = Normal () →
  commandExists h (commandNameOf argv) = false →
  main h argv s
  = (Exit 0,
     console_out h
       (console_error (txt "Command " ++ commandNameOf argv
          ++ txt " does not exist. Run nebe help for the command list"))
       (snd (prelude h argv s))).
Proof.
  intros Hp He. rewrite main_prelude.
  unfold mbind at 1. unfold Eff_bind at 1.
  destruct (prelude h argv s) as [c s']. cbn in Hp. subst c. cbn [snd].
  rewrite He. reflexivity.
Qed.

End CliFacts.

(** ** The command [set-root] *)

Module SetRootFacts.

Import Effect Cli CliSpec CliFacts SetRoot Scenarios.

(** X7.  Run from the command line, [set-root] stores the working
    directory as the root, and says so, only when exactly one argument
    follows the name of the command, whatever that argument is; with no
    argument, or with two or more, it stores and prints nothing.  The
    process exits with code 0 in every case. *)
Theorem set_root_needs_one_argument (h : Host Proc) (cwd node script : Text)
    (rest : list Text) (s : Proc) :
  let argv := node :: script :: txt "set-root" :: rest in
  node ≠ txt "set-root" → script ≠ txt "set-root" →
  commandExists h (txt "set-root") = true →
  load h (txt "set-root") = command cwd →
  fst (prelude h argv s) = Normal () →
  let s' := snd (prelude h argv s) in
  main h argv s
  = (Exit 0,
     if (length rest =? 1)%nat
     then {| console := console s' ++ [console_log (txt "Root set")];
             config := <[txt "root" := cwd]> (config s') |}
     else s').
Proof.
  intros argv Hn Hs He Hl Hp s'.
  assert (Hname : commandNameOf argv = txt "set-root") by reflexivity.
  pose proof (commandArgsOf_cases node script (txt "set-root") rest) as Hargs.
  fold argv in Hargs.
  rewrite !bool_decide_eq_false_2 in Hargs by assumption.
  rewrite main_runs; [|exact Hp|rewrite Hname; exact He].
  rewrite Hname, Hargs, Hl. fold s'. unfold command. cbn [Cli.handle Cli.keepRunning].
  unfold handle. destruct (length rest =? 1)%nat; reflexivity.
Qed.

Lemma set_root_needs_one_argument_witness :
  let argv := commandLine [txt "set-root"; txt "."] in
  txt "/usr/bin/node" ≠ txt "set-root" ∧ txt "/usr/bin/nebe" ≠ txt "set-root"
  ∧ commandExists hostA (txt "set-root") = true
  ∧ load hostA (txt "set-root") = command (txt "/work")
  ∧ fst (prelude hostA argv initial) = Normal ()
  ∧ main hostA argv initial
    = (Exit 0,
       {| console := [console_log (txt "Root set")];
          config := <[txt "root" := txt "/work"]> ∅ |}).
Proof.
  assert (H1 : txt "/usr/bin/node" ≠ txt "set-root") by discriminate.
  assert (H2 : txt "/usr/bin/nebe" ≠ txt "set-root") by discriminate.
  assert (H3 : commandExists hostA (txt "set-root") = true) by reflexivity.
  assert (H4 : load hostA (txt "set-root") = command (txt "/work")) by reflexivity.
  assert (H5 : fst (prelude hostA (commandLine [txt "set-root"; txt "."]) initial) = Normal ())
    by reflexivity.
  repeat (split; [assumption|]).
  exact (set_root_needs_one_argument hostA (txt "/work") (txt "/usr/bin/node")
           (txt "/usr/bin/nebe") [txt "."] initial H1 H2 H3 H4 H5).
Defined.

(** With no argument after its name the command stores nothing. *)
Example set_root_alone :
  main hostA (commandLine [txt "set-root"]) initial = (Exit 0, initial).
Proof. reflexivity. Qed.

End SetRootFacts.

(** ** The start-up of [dev], with every call it makes *)

Module SessionFacts.

Import CheckConfig Dev DevSpec DevFacts.

Lemma startTarget_frame w i folder p :
  let q := snd (startTarget w i folder p) in
  notifications q = notifications p ∧ state_visualPath q = state_visualPath p
  ∧ state_folders q = state_folders p ∧ fill q = fill p ∧ timers q = timers p
  ∧ rebuilds q = rebuilds p ∧ dist q = dist p ∧ seenBundle q = seenBundle p.
Proof. run_monad. destruct (start w i); cbn; repeat split; reflexivity. Qed.

Lemma startFrom_frame w sel : ∀ i p,
  let q := snd (startFrom w i sel p) in
  notifications q = notifications p ∧ state_visualPath q = state_visualPath p
  ∧ state_folders q = state_folders p ∧ fill q = fill p ∧ timers q = timers p
  ∧ rebuilds q = rebuilds p ∧ dist q = dist p ∧ seenBundle q = seenBundle p.
Proof.
  induction sel as [|folder rest IH]; intros i p; [cbn; repeat split; reflexivity|].
  cbv zeta. rewrite startFrom_step.
  destruct (IH (S i) (snd (startTarget w i folder p))) as (I1 & I2 & I3 & I4 & I5 & I6 & I7 & I8).
  destruct (startTarget_frame w i folder p) as (T1 & T2 & T3 & T4 & T5 & T6 & T7 & T8).
  cbv zeta in *. rewrite I1, I2, I3, I4, I5, I6, I7, I8. repeat split; assumption.
Qed.

(** The session that the steps of [Dev.handle] leave when the start-up
    gets as far as looking for size folders, finds some and some are
    selected. *)
Lemma session_started (w : World) :
  reachesDiscovery w → folders w ≠ [] → selectedFolders w ≠ [] →
  let r := handle w initial in
  let n := length (selectedFolders w) in
  fst r = Normal ()
  ∧ serveCalls (snd r) = concat (map (callOf w) (seq 0 n))
  ∧ bundlers (snd r) = List.filter (λ j, isServed (start w j)) (seq 0 n)
  ∧ state_visualPath (snd r) = visual w
  ∧ state_folders (snd r) = Some (folders w)
  ∧ (∀ j, is_Some (state_bundlers (snd r) !! j) ↔ (j < n)%nat)
  ∧ fill (snd r) = getFill w (startTime w)
  ∧ notifications (snd r) = []
  ∧ timers (snd r) = []
  ∧ last (console (snd r))
    = Some (console_log
              (txt "Listening to file changes... Press Ctrl+C to stop servers")).
Proof.
  intros (P1 & P2 & [v Hv] & Hc & Hs) Hf Hsel r n. subst r n.
  destruct (checkConfig (configFile w (startTime w))) as [cc l] eqn:E.
  cbn in Hc. subst cc.
  unfold handle, startAll, portsToCheck, basePort, preflight, checkPort, checkFolders,
    checkSelection, awaitCheckSchema.
  unfold print, printAll, notify, listen, throw, process_exit, modify, get, call.
  unfold mbind, M_bind, mret, M_ret. cbn.
  rewrite Hv, E, Hs.
  destruct (folders w) as [|f fs] eqn:Ef; [done|].
  destruct (selectedFolders w) as [|sf sfs] eqn:Es; [done|].
  rewrite <- Es.
  assert (Hl0 : (length (selectedFolders w) =? 0)%nat = false)
    by (rewrite Es; reflexivity).
  destruct (portCheck w 1200); [done| |];
    (destruct (portCheck w 1400); [done| |]); cbn; rewrite ?Hl0; cbn;
    match goal with
    | |- context [startFrom ?w 0%nat ?l ?q] =>
        pose proof (startFrom_completes w l 0%nat q) as Hcomp;
        pose proof (startFrom_serveCalls w l 0%nat q) as Hser;
        pose proof (startFrom_bundlers w l 0%nat q) as Hbun;
        pose proof (startFrom_entries w l 0%nat q) as Hent;
        pose proof (startFrom_frame w l 0%nat q) as (F1 & F2 & F3 & F4 & F5 & _);
        destruct (startFrom w 0%nat l q) as [c q']
    end;
    cbn in Hcomp; subst c; cbn in *;
    (repeat match goal with |- _ ∧ _ => split end;
     [ reflexivity | exact Hser | exact Hbun | exact F2 | exact F3
     | intros j; rewrite Hent, Nat.sub_0_r, lookup_empty;
       destruct (selectedFolders w !! j) as [x|] eqn:Ej;
       [ apply lookup_lt_Some in Ej; rewrite decide_True by lia;
         split; [intros _; exact Ej | intros _; eexists; reflexivity]
       | apply lookup_ge_None in Ej; split; [intros [? ?]; done | lia] ]
     | exact F4 | exact F1 | exact F5
     | unfold push; apply last_snoc ]).
Qed.

End SessionFacts.

Module StartupFacts.

Import Effect EffectFacts CheckConfig Startup StartupSpec DevSpec DevFacts.

(** *** Sequences of stages *)

Lemma bind_same {S A B} (m : Eff S A) (k1 k2 : A → Eff S B) s :
  (∀ a s1, k1 a s1 = k2 a s1) → (m ≫= k1) s = (m ≫= k2) s.
Proof.
  intros H. unfold mbind, Eff_bind. destruct (m s) as [[a|c|e] s1]; [apply H|done|done].
Qed.

Lemma bind_unit {S} (m : Eff S unit) s : (m ≫= λ _, mret ()) s = m s.
Proof. unfold mbind, Eff_bind. destruct (m s) as [[[]|c|e] s1]; reflexivity. Qed.

Lemma bind_lift_ret {A B C} (a : A) (c : C) (k : A → Eff Proc B) (k' : C → Eff Proc B) s :
  (∀ s1, k a s1 = k' c s1) →
  (lift (mret a) ≫= k) s = (lift (mret c) ≫= k') s.
Proof. intros H. unfold mbind, Eff_bind, lift. cbn. apply H. Qed.

Lemma config_stage (r : Completion bool * list Console) (k k' : Eff Proc unit) s :
  (∀ s1, k s1 = k' s1) →
  (lift (Dev.call r) ≫= λ b, (if negb b then process_exit 1 else mret ()) ≫= λ _, k) s
  = (lift (b ← Dev.call r ; if negb b then Dev.process_exit 1 else mret ()) ≫= λ _, k') s.
Proof.
  intros H. destruct r as [[[]|c|e] l];
    unfold mbind, Eff_bind, Dev.M_bind, lift, Dev.call, process_exit, Dev.process_exit,
      mret, Eff_ret, Dev.M_ret; cbn; auto.
Qed.

(** [handle] runs its stages one after the other. *)
Lemma handle_stages (w : World) (s : Proc) : handle w s = runStages w (stages w) s.
Proof.
  unfold handle, stages, stagesToLoop, stagesBeforeConfig, configStage, stagesBeforeLoop,
    loopStage, listeningStage, watchStages.
  cbv zeta. cbn [app runStages runStage].
  do 5 (apply bind_same; intros [] ?).
  destruct (Dev.visual (dev w)) as [v|]; [|reflexivity].
  apply bind_lift_ret; intros ?. cbn [default].
  do 9 (apply bind_same; intros [] ?).
  apply config_stage; intros ?.
  do 18 (apply bind_same; intros [] ?).
  destruct (schemaExists w); cbn [app runStages runStage].
  - apply bind_same; intros [] ?. symmetry. apply bind_unit.
  - unfold mbind at 1. unfold Eff_bind at 1. cbn [mret Eff_ret]. symmetry. apply bind_unit.
Qed.

Lemma bind_assoc {S A B C} (m : Eff S A) (k : A → Eff S B) (h : B → Eff S C) s :
  ((m ≫= k) ≫= h) s = (m ≫= λ a, k a ≫= h) s.
Proof.
  unfold mbind, Eff_bind. destruct (m s) as [[a|c|e] s1]; reflexivity.
Qed.

(** [Dev.handle] runs the steps among the stages, one after the other. *)
Lemma Dev_handle_stages (w : World) (p : Dev.Proc) :
  Dev.handle (dev w) p = devRun (stages w) p.
Proof.
  unfold Dev.handle, stages, stagesToLoop, stagesBeforeConfig, configStage,
    stagesBeforeLoop, loopStage, listeningStage, watchStages.
  cbv zeta. cbn [app devRun].
  apply (@bind_same Dev.Proc); intros [] ?.
  destruct (Dev.visual (dev w)) as [v|]; [|reflexivity].
  unfold mbind at 1. unfold Dev.M_bind at 1. cbn [mret Dev.M_ret default].
  unfold mbind at 15. unfold Dev.M_bind at 1. cbn [mret Dev.M_ret].
  do 3 (apply (@bind_same Dev.Proc); intros [] ?).
  rewrite (@bind_assoc Dev.Proc).
  apply (@bind_same Dev.Proc); intros b ?.
  do 10 (apply (@bind_same Dev.Proc); intros [] ?).
  destruct (schemaExists w); cbn [app devRun]; symmetry; apply (@bind_unit Dev.Proc).
Qed.

(** How a sequence of stages ends. *)
Lemma runStages_app w l1 : ∀ l2 s,
  runStages w (l1 ++ l2) s = (runStages w l1 ;; runStages w l2) s.
Proof.
  induction l1 as [|st l1 IH]; intros l2 s; [reflexivity|].
  cbn [app runStages]. unfold mbind, Eff_bind in *.
  destruct (runStage w st s) as [[[]|c|e] s1]; [apply IH|reflexivity|reflexivity].
Qed.

Lemma runStages_outcome w l :
  Forall (steady w) l → ∀ s, fst (runStages w l s) = firstAbnormal (map (outcome w) l).
Proof.
  induction 1 as [|st l Hst _ IH]; intros s; [reflexivity|].
  cbn [runStages map firstAbnormal]. rewrite <- (Hst s).
  unfold mbind, Eff_bind.
  destruct (runStage w st s) as [[[]|c|e] s1]; [apply IH|reflexivity|reflexivity].
Qed.

Lemma stage_called w st s : called (snd (runStage w st s)) = called s ++ siteOf st.
Proof.
  destruct st as [m|x|x]; cbn [runStage siteOf].
  - cbn. rewrite app_nil_r. reflexivity.
  - unfold site, modify, throw. unfold mbind, Eff_bind, mret, Eff_ret.
    destruct (fails w x); reflexivity.
  - unfold watch, site, modify, throw. unfold mbind, Eff_bind, mret, Eff_ret.
    destruct (fails w x); reflexivity.
Qed.

Lemma runStages_called w l :
  Forall (steady w) l →
  ∀ s, called (snd (runStages w l s)) = called s ++ sitesOf (ran w l).
Proof.
  induction 1 as [|st l Hst _ IH]; intros s.
  - cbn. rewrite app_nil_r. reflexivity.
  - cbn [runStages ran]. rewrite <- (Hst s).
    pose proof (stage_called w st s) as Hc.
    unfold mbind, Eff_bind.
    destruct (runStage w st s) as [[[]|c|e] s1]; cbn [fst snd] in *.
    + rewrite IH, Hc. unfold sitesOf. cbn [map concat]. rewrite app_assoc. reflexivity.
    + rewrite Hc. unfold sitesOf. cbn [map concat]. rewrite app_nil_r. reflexivity.
    + rewrite Hc. unfold sitesOf. cbn [map concat]. rewrite app_nil_r. reflexivity.
Qed.

(** A property of the state that every stage keeps. *)
Lemma runStages_keeps (I : Proc → Prop) w l :
  Forall (λ st, ∀ s, I s → I (snd (runStage w st s))) l →
  ∀ s, I s → I (snd (runStages w l s)).
Proof.
  induction 1 as [|st l Hst _ IH]; intros s Hs; [exact Hs|].
  cbn [runStages]. specialize (Hst s Hs). unfold mbind, Eff_bind.
  destruct (runStage w st s) as [[[]|c|e] s1]; cbn [fst snd] in *;
    [apply IH, Hst|exact Hst|exact Hst].
Qed.

(** When every call returns, the stages are the steps of [Dev.handle]. *)
Lemma runStages_session w (Hok : ∀ x, fails w x = None) l : ∀ s,
  fst (runStages w l s) = fst (devRun l (session s))
  ∧ session (snd (runStages w l s)) = snd (devRun l (session s)).
Proof.
  induction l as [|st l IH]; intros s; [split; reflexivity|].
  cbn [runStages devRun]. destruct st as [m|x|x]; cbn [runStage].
  - unfold mbind, Eff_bind, Dev.M_bind, lift.
    destruct (m (session s)) as [[[]|c|e] p1]; cbn [fst snd];
      [|split; reflexivity|split; reflexivity].
    apply (IH (upd_session (λ _, p1) s)).
  - unfold site, modify. unfold mbind, Eff_bind, mret, Eff_ret. rewrite (Hok x).
    apply (IH (upd_called (λ l0, l0 ++ [x]) s)).
  - unfold watch, site, modify. unfold mbind, Eff_bind, mret, Eff_ret. rewrite (Hok x).
    apply (IH (upd_watchers (λ l0, l0 ++ [x]) (upd_called (λ l0, l0 ++ [x]) s))).
Qed.

(** When every call returns and the stages end normally, every watcher
    among them is registered. *)
Lemma runStages_watchers w (Hok : ∀ x, fails w x = None) l : ∀ s,
  fst (runStages w l s) = Normal () →
  watchers (snd (runStages w l s)) = watchers s ++ sitesOf (List.filter isWatch l).
Proof.
  induction l as [|st l IH]; intros s.
  - intros _. cbn. rewrite app_nil_r. reflexivity.
  - cbn [runStages List.filter]. destruct st as [m|x|x]; cbn [runStage isWatch].
    + unfold mbind, Eff_bind, lift.
      destruct (m (session s)) as [[[]|c|e] p1]; cbn [fst snd]; [|discriminate..].
      apply (IH (upd_session (λ _, p1) s)).
    + unfold site, modify. unfold mbind, Eff_bind, mret, Eff_ret. rewrite (Hok x).
      apply (IH (upd_called (λ l0, l0 ++ [x]) s)).
    + unfold watch, site, modify. unfold mbind, Eff_bind, mret, Eff_ret. rewrite (Hok x).
      intros H. rewrite IH by exact H. unfold sitesOf. cbn [map concat siteOf watchers
        upd_watchers upd_called]. rewrite <- app_assoc. reflexivity.
Qed.

(** *** The stages of [handle], one by one *)

Lemma outcome_call w x :
  outcome w (Call x) = match fails w x with Some e => Throw e | None => Normal () end.
Proof.
  unfold outcome. cbn [runStage]. unfold site, modify, throw.
  unfold mbind, Eff_bind, mret, Eff_ret. destruct (fails w x); reflexivity.
Qed.

Lemma outcome_watch w x :
  outcome w (Watch x) = match fails w x with Some e => Throw e | None => Normal () end.
Proof.
  unfold outcome. cbn [runStage]. unfold watch, site, modify, throw.
  unfold mbind, Eff_bind, mret, Eff_ret. destruct (fails w x); reflexivity.
Qed.

Lemma steady_call w x : steady w (Call x).
Proof.
  intros s. rewrite outcome_call. cbn [runStage]. unfold site, modify, throw.
  unfold mbind, Eff_bind, mret, Eff_ret. destruct (fails w x); reflexivity.
Qed.

Lemma steady_watch w x : steady w (Watch x).
Proof.
  intros s. rewrite outcome_watch. cbn [runStage]. unfold watch, site, modify, throw.
  unfold mbind, Eff_bind, mret, Eff_ret. destruct (fails w x); reflexivity.
Qed.

Lemma steady_step w m : constant m → steady w (Step m).
Proof. intros H s. unfold outcome. cbn [runStage]. unfold lift. cbn [fst]. apply H. Qed.

Lemma constant_preflight d : constant (Dev.preflight d Dev.portsToCheck).
Proof.
  intros p. unfold Dev.portsToCheck, Dev.basePort, Dev.preflight, Dev.checkPort.
  unfold Dev.print, Dev.notify, Dev.process_exit, Dev.modify.
  unfold mbind, Dev.M_bind, mret, Dev.M_ret.
  destruct (Dev.portCheck d 1200), (Dev.portCheck d 1400); reflexivity.
Qed.

Lemma constant_chosen (v : option Text) :
  constant (match v with Some _ => mret () | None => Dev.process_exit 0 end).
Proof. intros p. destruct v; reflexivity. Qed.

Lemma constant_modify f : constant (Dev.modify f).
Proof. intros p. reflexivity. Qed.

Lemma constant_config (r : Completion bool * list Console) :
  constant (b ← Dev.call r ; if negb b then Dev.process_exit 1 else mret ()).
Proof. intros p. destruct r as [[[]|c|e] l]; reflexivity. Qed.

Lemma constant_checkSchema d t : constant (Dev.awaitCheckSchema d t).
Proof. intros p. unfold Dev.awaitCheckSchema. destruct (Dev.checkSchema d t); reflexivity. Qed.

Lemma constant_checkFolders d : constant (Dev.checkFolders d).
Proof.
  intros p. unfold Dev.checkFolders. destruct (length (Dev.folders d) =? 0)%nat; reflexivity.
Qed.

Lemma constant_checkSelection d : constant (Dev.checkSelection d).
Proof.
  intros p. unfold Dev.checkSelection.
  destruct (length (Dev.selectedFolders d) =? 0)%nat; reflexivity.
Qed.

Lemma constant_startAll d : constant (Dev.startAll d).
Proof. intros p. unfold Dev.startAll. rewrite !startFrom_completes. reflexivity. Qed.

Ltac steady_stage :=
  first
    [ apply steady_call | apply steady_watch
    | apply steady_step;
      first [ apply constant_preflight | apply constant_chosen | apply constant_modify
            | apply constant_config | apply constant_checkSchema
            | apply constant_checkFolders | apply constant_checkSelection
            | apply constant_startAll ] ].

Ltac each_stage tac :=
  repeat first [ apply Forall_nil; exact I | apply Forall_cons; split; [tac|] ].

Ltac open_stages :=
  unfold stages, stagesToLoop, stagesBeforeConfig, configStage, stagesBeforeLoop,
    loopStage, listeningStage, watchStages; cbv zeta.

Lemma steady_toLoop w : Forall (steady w) (stagesToLoop w).
Proof. open_stages. cbn [app]. each_stage steady_stage. Qed.

Lemma steady_stages w : Forall (steady w) (stages w).
Proof.
  unfold stages. apply Forall_app. split; [apply steady_toLoop|].
  open_stages. destruct (schemaExists w); cbn [app]; each_stage steady_stage.
Qed.

(** *** How [handle] ends *)

Lemma firstAbnormal_app l1 l2 :
  firstAbnormal (l1 ++ l2)
  = match firstAbnormal l1 with
    | Normal _ => firstAbnormal l2
    | c => c
    end.
Proof.
  induction l1 as [|[[]|c|e] l1 IH]; cbn [app firstAbnormal]; [reflexivity|exact IH|done..].
Qed.

Lemma firstAbnormal_normal l :
  firstAbnormal l = Normal () ↔ Forall (λ c, c = Normal ()) l.
Proof.
  induction l as [|[[]|c|e] l IH]; cbn [firstAbnormal].
  - split; [constructor|reflexivity].
  - rewrite IH, Forall_cons. split; [intros H; split; [reflexivity|exact H]|intros [_ H]; exact H].
  - split; [discriminate|]. intros H. apply Forall_cons in H as [H _]. discriminate H.
  - split; [discriminate|]. intros H. apply Forall_cons in H as [H _]. discriminate H.
Qed.

Lemma firstAbnormal_elem l c : firstAbnormal l = c → c = Normal () ∨ c ∈ l.
Proof.
  induction l as [|[[]|c'|e] l IH]; cbn [firstAbnormal].
  - intros <-. left. reflexivity.
  - intros H. destruct (IH H) as [H1|H1]; [left; exact H1|right; right; exact H1].
  - intros <-. right. left.
  - intros <-. right. left.
Qed.

Lemma normal_stages w l :
  firstAbnormal (map (outcome w) l) = Normal ()
  ↔ Forall (λ st, outcome w st = Normal ()) l.
Proof. rewrite firstAbnormal_normal, Forall_fmap. reflexivity. Qed.

(** The codes with which the stages end the process. *)
Lemma exit_of_call w x code : outcome w (Call x) ≠ Exit code.
Proof. rewrite outcome_call. destruct (fails w x); discriminate. Qed.

Lemma exit_of_watch w x code : outcome w (Watch x) ≠ Exit code.
Proof. rewrite outcome_watch. destruct (fails w x); discriminate. Qed.

Lemma checkConfig_cases file :
  (∃ b l, checkConfig file = (Normal b, l)) ∨ (∃ e, checkConfig file = (Throw e, [])).
Proof.
  destruct file as [|e|[] [f|] [n|] [d|]]; cbn; eauto;
    destruct (bool_decide (f ∈ formats)); cbn; eauto.
Qed.

(** How a step ends, by the answers of the surroundings. *)
Ltac open_outcome :=
  unfold outcome; cbn [runStage]; unfold lift; cbn [fst session initial];
  unfold Dev.startAll; rewrite ?startFrom_completes;
  unfold Dev.portsToCheck, Dev.basePort, Dev.preflight, Dev.checkPort,
    Dev.checkFolders, Dev.checkSelection, Dev.awaitCheckSchema, Dev.call;
  unfold Dev.print, Dev.notify, Dev.listen, Dev.process_exit, Dev.modify, Dev.throw;
  unfold mbind, Dev.M_bind, Eff_bind, mret, Dev.M_ret, Eff_ret;
  repeat match goal with
  | |- context [Dev.portCheck ?d ?port] => destruct (Dev.portCheck d port)
  | |- context [Dev.visual ?d] => destruct (Dev.visual d)
  | |- context [Dev.checkSchema ?d ?t] => destruct (Dev.checkSchema d t)
  | |- context [(length ?l =? 0)%nat] => destruct (length l =? 0)%nat
  | |- context [checkConfig ?f] =>
      let E := fresh in
      destruct (checkConfig_cases f) as [([] & ? & E)|(? & E)]; rewrite E in *
  end; cbn [fst snd negb] in *.

Ltac stage_codes :=
  first
    [ exact (exit_of_call _ _ _) | exact (exit_of_watch _ _ _)
    | open_outcome; discriminate ].

Lemma no_code_1_before_config w :
  Forall (λ st, outcome w st ≠ Exit 1) (stagesBeforeConfig w).
Proof. open_stages. each_stage stage_codes. Qed.

Lemma no_code_1_after_config w :
  Forall (λ st, outcome w st ≠ Exit 1)
    (stagesBeforeLoop w ++ loopStage w :: listeningStage :: watchStages w).
Proof. open_stages. destruct (schemaExists w); cbn [app]; each_stage stage_codes. Qed.

Lemma codes_of_stages w st code :
  st ∈ stages w → outcome w st = Exit code → code = 0 ∨ code = 1.
Proof.
  intros Hin Hc.
  destruct (decide (code = 0)) as [->|H0]; [left; reflexivity|].
  destruct (decide (code = 1)) as [->|H1]; [right; reflexivity|]. exfalso.
  revert st Hin Hc.
  refine (proj1 (Forall_forall (λ st, outcome w st = Exit code → False) (stages w)) _).
  open_stages. destruct (schemaExists w); cbn [app];
    each_stage ltac:(first
      [ intros Hc; exact (exit_of_call _ _ _ Hc) | intros Hc; exact (exit_of_watch _ _ _ Hc)
      | open_outcome; intros [=]; congruence ]).
Qed.

(** The stages before the check of [config.json] all end normally. *)
Lemma before_config_normal w :
  Forall (λ st, outcome w st = Normal ()) (stagesBeforeConfig w)
  ↔ Dev.portCheck (dev w) 1200 ≠ Dev.InUse ∧ Dev.portCheck (dev w) 1400 ≠ Dev.InUse
    ∧ Forall (λ x, fails w x = None) sitesBeforeConfig
    ∧ is_Some (Dev.visual (dev w)).
Proof.
  assert (Hcall : ∀ x, outcome w (Call x) = Normal () ↔ fails w x = None).
  { intros x. rewrite outcome_call. destruct (fails w x); split; done. }
  assert (Hports :
    outcome w (Step (Dev.preflight (dev w) Dev.portsToCheck)) = Normal ()
    ↔ Dev.portCheck (dev w) 1200 ≠ Dev.InUse ∧ Dev.portCheck (dev w) 1400 ≠ Dev.InUse).
  { unfold outcome. cbn [runStage]. unfold lift. cbn [fst session initial].
    unfold Dev.portsToCheck, Dev.basePort, Dev.preflight, Dev.checkPort.
    unfold Dev.print, Dev.notify, Dev.process_exit, Dev.modify.
    unfold mbind, Dev.M_bind, mret, Dev.M_ret.
    destruct (Dev.portCheck (dev w) 1200), (Dev.portCheck (dev w) 1400); cbn;
      split; try done; intros [? ?]; done. }
  assert (Hvis :
    outcome w (Step (match Dev.visual (dev w) with
                     | Some _ => mret ()
                     | None => Dev.process_exit 0
                     end)) = Normal ()
    ↔ is_Some (Dev.visual (dev w))).
  { unfold outcome. cbn [runStage]. unfold lift. cbn [fst session initial].
    destruct (Dev.visual (dev w)) as [v|]; cbn.
    - split; [intros _; eexists; reflexivity|reflexivity].
    - split; [discriminate|intros [? ?]; done]. }
  unfold stagesBeforeConfig, sitesBeforeConfig. cbv zeta.
  rewrite !Forall_cons, !Forall_nil, !Hcall, Hports, Hvis.
  split.
  - intros (P & G1 & G2 & G3 & G4 & V & _ & S1 & S2 & S3 & S4 & S5 & _ & S6 & _).
    destruct P. done.
  - intros ((P1 & P2) & (G1 & G2 & G3 & G4 & S1 & S2 & S3 & S4 & S5 & S6 & _) & V)
      || intros (P1 & P2 & (G1 & G2 & G3 & G4 & S1 & S2 & S3 & S4 & S5 & S6 & _) & V).
    repeat split; done.
Qed.

Lemma config_exits w :
  outcome w (configStage w) = Exit 1
  ↔ fst (checkConfig (Dev.configFile (dev w) (Dev.startTime (dev w)))) = Normal false.
Proof.
  unfold outcome, configStage. cbv zeta. cbn [runStage]. unfold lift. cbn [fst session initial].
  unfold Dev.call. unfold mbind, Dev.M_bind, Eff_bind.
  destruct (checkConfig_cases (Dev.configFile (dev w) (Dev.startTime (dev w))))
    as [([] & ? & E)|(? & E)]; rewrite E; cbn; split; done.
Qed.

(** X8.  [handle] ends the process with code 1 exactly when no port is
    found in use, every call before the check of [config.json] returns, a
    visual is chosen and [checkConfig] resolves to [false]; every other
    [process.exit] of [handle] is the one without a code, which ends the
    process with code 0. *)
Theorem handle_exit_codes (w : World) (s : Proc) :
  (∀ code, fst (handle w s) = Exit code → code = 0 ∨ code = 1)
  ∧ (fst (handle w s) = Exit 1
     ↔ Dev.portCheck (dev w) 1200 ≠ Dev.InUse ∧ Dev.portCheck (dev w) 1400 ≠ Dev.InUse
       ∧ Forall (λ x, fails w x = None) sitesBeforeConfig
       ∧ is_Some (Dev.visual (dev w))
       ∧ fst (checkConfig (Dev.configFile (dev w) (Dev.startTime (dev w)))) = Normal false).
Proof.
  rewrite handle_stages, runStages_outcome by apply steady_stages. split.
  - intros code H. apply firstAbnormal_elem in H as [H|H]; [discriminate H|].
    apply list_elem_of_fmap in H as (st & Hst & Hin).
    apply (codes_of_stages w st code Hin). symmetry. exact Hst.
  - pose proof (before_config_normal w) as Hpre. pose proof (config_exits w) as Hcfg.
    enough (H : firstAbnormal (map (outcome w) (stages w)) = Exit 1
                ↔ Forall (λ st, outcome w st = Normal ()) (stagesBeforeConfig w)
                  ∧ outcome w (configStage w) = Exit 1) by tauto.
    clear Hpre Hcfg.
    unfold stages, stagesToLoop. rewrite <- app_assoc, map_app, firstAbnormal_app.
    cbn [app map firstAbnormal].
    pose proof (no_code_1_before_config w) as Hb.
    pose proof (no_code_1_after_config w) as Ha.
    destruct (firstAbnormal (map (outcome w) (stagesBeforeConfig w))) as [[]|c|e] eqn:E1.
    + apply normal_stages in E1.
      destruct (outcome w (configStage w)) as [[]|c|e] eqn:E2.
      * split; [|intros [_ H]; discriminate H]. intros H. exfalso.
        apply firstAbnormal_elem in H as [H|H]; [discriminate H|].
        apply list_elem_of_fmap in H as (st & Hst & Hin).
        rewrite Forall_forall in Ha. apply (Ha st Hin). symmetry. exact Hst.
      * split; [intros H; split; [exact E1|exact H]|intros [_ H]; exact H].
      * split; [discriminate|intros [_ H]; discriminate H].
    + split.
      * intros [= ->]. exfalso. apply firstAbnormal_elem in E1 as [H|H]; [discriminate H|].
        apply list_elem_of_fmap in H as (st & Hst & Hin).
        rewrite Forall_forall in Hb. apply (Hb st Hin). symmetry. exact Hst.
      * intros [H _]. exfalso. apply normal_stages in H.
        rewrite E1 in H. discriminate H.
    + split; [discriminate|]. intros [H _]. exfalso.
      apply normal_stages in H. rewrite E1 in H. discriminate H.
Qed.

(** *** What has been started when [handle] ends *)

Lemma call_leaves_session w x s :
  session (snd (site w x s)) = session s ∧ watchers (snd (site w x s)) = watchers s.
Proof.
  unfold site, modify, throw. unfold mbind, Eff_bind, mret, Eff_ret.
  destruct (fails w x); split; reflexivity.
Qed.

Ltac keeps_nothing :=
  first
    [ intros s Hs; unfold nothingStarted in *; cbn [runStage];
      match goal with
      | |- context [site ?w ?x s] =>
          destruct (call_leaves_session w x s) as [-> ->]; exact Hs
      end
    | intros s (H1 & H2 & H3 & H4 & H5 & H6); unfold nothingStarted;
      cbn [runStage]; unfold lift; cbn [fst snd session watchers upd_session];
      unfold Dev.portsToCheck, Dev.basePort, Dev.preflight, Dev.checkPort,
        Dev.checkFolders, Dev.checkSelection, Dev.awaitCheckSchema, Dev.call;
      unfold Dev.print, Dev.notify, Dev.listen, Dev.process_exit, Dev.modify, Dev.throw;
      unfold mbind, Dev.M_bind, Eff_bind, mret, Dev.M_ret, Eff_ret;
      repeat match goal with
      | |- context [Dev.portCheck ?d ?port] => destruct (Dev.portCheck d port)
      | |- context [Dev.visual ?d] => destruct (Dev.visual d)
      | |- context [Dev.checkSchema ?d ?t] => destruct (Dev.checkSchema d t)
      | |- context [(length ?l =? 0)%nat] => destruct (length l =? 0)%nat
      | |- context [checkConfig ?f] => destruct (checkConfig f) as [[[]|?|?] ?]
      end;
      cbn;
      repeat match goal with |- _ ∧ _ => split end;
      first [ assumption | reflexivity
            | intros port Hin; unfold Dev.push in Hin;
              apply elem_of_app in Hin as [Hin|Hin];
              [exact (H6 port Hin)|apply list_elem_of_singleton in Hin; exact Hin] ] ].

Lemma toLoop_starts_nothing w :
  Forall (λ st, ∀ s, nothingStarted s → nothingStarted (snd (runStage w st s)))
    (stagesToLoop w).
Proof. open_stages. cbn [app]. each_stage keeps_nothing. Qed.

Lemma loop_returns w s :
  runStage w (loopStage w) s
  = (Normal (), upd_session (λ _, snd (Dev.startAll (dev w) (session s))) s).
Proof.
  unfold loopStage. cbn [runStage]. unfold lift, Dev.startAll.
  rewrite startFrom_completes. reflexivity.
Qed.

Lemma nothingStarted_initial : nothingStarted initial.
Proof.
  unfold nothingStarted. cbn. repeat split; try reflexivity. intros port H. inversion H.
Qed.

(** X9.  The start-up is all or nothing, but for the watchers.  When
    [handle] does not return, because the process is ended or because an
    exception gets out, then either no bundler has been created, [serve]
    has not been called, no session record has been made, no watcher is
    registered and the process listens on port 1400 at most; or the
    exception is the one of a call of [fs.watch], thrown after the loop
    that starts the targets: that of the watcher of [schema.json], with no
    watcher registered, or that of the watcher of [config.json], with the
    watcher of [schema.json] registered when this file exists. *)
Theorem abort_starts_nothing (w : World) :
  fst (handle w initial) ≠ Normal () →
  let r := handle w initial in
  nothingStarted (snd r)
  ∨ ∃ e, fst r = Throw e
      ∧ ((schemaExists w = true ∧ fails w WatchSchema = Some e ∧ watchers (snd r) = [])
         ∨ ((schemaExists w = true → fails w WatchSchema = None)
            ∧ fails w WatchConfig = Some e
            ∧ watchers (snd r) = if schemaExists w then [WatchSchema] else [])).
Proof.
  cbv zeta. rewrite handle_stages. unfold stages. rewrite runStages_app.
  pose proof (runStages_keeps nothingStarted w _ (toLoop_starts_nothing w) initial
                nothingStarted_initial) as Hq.
  destruct (runStages w (stagesToLoop w) initial) as [[[]|c|e] s1] eqn:E1;
    cbn [fst snd] in Hq.
  2:{ rewrite (bind_exit _ _ _ _ _ E1). intros _. left. exact Hq. }
  2:{ rewrite (bind_throw _ _ _ _ _ E1). intros _. left. exact Hq. }
  rewrite (bind_normal _ _ _ _ _ E1). clear E1.
  destruct Hq as (_ & _ & _ & _ & Hw & _).
  cbn [runStages]. rewrite (bind_normal _ _ _ _ _ (loop_returns w s1)).
  unfold listeningStage. erewrite bind_normal by reflexivity.
  unfold watchStages, watch, site, modify, throw.
  destruct (schemaExists w); cbn [app runStages runStage];
    unfold watch, site, modify, throw; unfold mbind, Eff_bind, mret, Eff_ret;
    cbn [fst snd].
  - destruct (fails w WatchSchema) as [e|] eqn:Hs; cbn [fst snd].
    { intros _. right. exists e. split; [reflexivity|]. left. cbn. rewrite Hw. done. }
    destruct (fails w WatchConfig) as [e|] eqn:Hc; cbn [fst snd].
    { intros _. right. exists e. split; [reflexivity|]. right. cbn. rewrite Hw. done. }
    intros H. exfalso. apply H. reflexivity.
  - destruct (fails w WatchConfig) as [e|] eqn:Hc; cbn [fst snd].
    { intros _. right. exists e. split; [reflexivity|]. right. cbn. rewrite Hw. done. }
    intros H. exfalso. apply H. reflexivity.
Qed.

(** *** The calls made *)

Lemma ran_sites w l :
  Forall (λ st, isStep st = true → outcome w st = Normal ()) l →
  sitesOf (ran w l) = fst (upToFailure w (sitesOf l))
  ∧ firstAbnormal (map (outcome w) l)
    = match snd (upToFailure w (sitesOf l)) with
      | Some e => Throw e
      | None => Normal ()
      end.
Proof.
  induction 1 as [|st l Hst _ [IH1 IH2]]; [split; reflexivity|].
  cbn [ran map firstAbnormal]. unfold sitesOf in *. cbn [map concat].
  destruct st as [m|x|x]; cbn [siteOf app].
  - rewrite (Hst eq_refl). cbn [map concat siteOf app]. split; assumption.
  - rewrite outcome_call. cbn [upToFailure].
    destruct (fails w x); cbn [map concat siteOf app fst snd]; [split; reflexivity|].
    rewrite IH1. split; [reflexivity|exact IH2].
  - rewrite outcome_watch. cbn [upToFailure].
    destruct (fails w x); cbn [map concat siteOf app fst snd]; [split; reflexivity|].
    rewrite IH1. split; [reflexivity|exact IH2].
Qed.

Lemma sites_of_stages w : sitesOf (stages w) = allSites w.
Proof.
  unfold allSites, sitesAfterLoop. open_stages. destruct (schemaExists w); reflexivity.
Qed.

Lemma steps_return (w : World) :
  reachesDiscovery (dev w) →
  Dev.folders (dev w) ≠ [] → Dev.selectedFolders (dev w) ≠ [] →
  Forall (λ st, isStep st = true → outcome w st = Normal ()) (stages w).
Proof.
  intros (P1 & P2 & [v Hv] & Hc & Hs) Hf Hsel.
  assert (Hf0 : (length (Dev.folders (dev w)) =? 0)%nat = false)
    by (destruct (Dev.folders (dev w)); [done|reflexivity]).
  assert (Hl0 : (length (Dev.selectedFolders (dev w)) =? 0)%nat = false)
    by (destruct (Dev.selectedFolders (dev w)); [done|reflexivity]).
  open_stages. destruct (schemaExists w); cbn [app];
    each_stage ltac:(first
      [ intros H; discriminate H
      | intros _; open_outcome; first [reflexivity | done | congruence] ]).
Qed.

(** *** The session *)

Lemma runStages_returned w l : ∀ s,
  fst (runStages w l s) = Normal () →
  fst (devRun l (session s)) = Normal ()
  ∧ session (snd (runStages w l s)) = snd (devRun l (session s)).
Proof.
  induction l as [|st l IH]; intros s; [split; reflexivity|].
  cbn [runStages devRun]. destruct st as [m|x|x]; cbn [runStage].
  - unfold mbind, Eff_bind, Dev.M_bind, lift.
    destruct (m (session s)) as [[[]|c|e] p1]; cbn [fst snd]; [|discriminate..].
    apply (IH (upd_session (λ _, p1) s)).
  - unfold site, modify, throw. unfold mbind, Eff_bind, mret, Eff_ret.
    destruct (fails w x); [discriminate|].
    apply (IH (upd_called (λ l0, l0 ++ [x]) s)).
  - unfold watch, site, modify, throw. unfold mbind, Eff_bind, mret, Eff_ret.
    destruct (fails w x); [discriminate|].
    apply (IH (upd_watchers (λ l0, l0 ++ [x]) (upd_called (λ l0, l0 ++ [x]) s))).
Qed.

Lemma watchers_of_stages w : sitesOf (List.filter isWatch (stages w)) = sitesAfterLoop w.
Proof. unfold sitesAfterLoop. open_stages. destruct (schemaExists w); reflexivity. Qed.

Lemma upToFailure_none w (Hok : ∀ x, fails w x = None) l : upToFailure w l = (l, None).
Proof.
  induction l as [|x l IH]; [reflexivity|]. cbn [upToFailure]. rewrite (Hok x), IH.
  reflexivity.
Qed.

(** X10.  When no port is found in use, a visual is chosen, the
    configuration and the schema pass their checks, size folders are found
    and selected, and every call returns, [handle] returns, whatever the
    bundlers do: every call has been made, in the order of the source; the
    watcher of [config.json] is registered, after that of [schema.json]
    when this file exists; [serve] has been called once for every target
    whose bundler could be created; [bundlers] holds the handles of the
    targets that are served, in the order of the selection; the session
    holds the path of the visual, every folder found and one record for
    each selected folder; the fill is the one made at start-up; no desktop
    notification is raised; and the last line printed says that the
    process listens to file changes. *)
Theorem handle_starts_up (w : World) :
  reachesDiscovery (dev w) → (∀ x, fails w x = None) →
  Dev.folders (dev w) ≠ [] → Dev.selectedFolders (dev w) ≠ [] →
  let r := handle w initial in
  let p := session (snd r) in
  let n := length (Dev.selectedFolders (dev w)) in
  fst r = Normal ()
  ∧ called (snd r) = allSites w
  ∧ watchers (snd r) = sitesAfterLoop w
  ∧ Dev.serveCalls p = concat (map (callOf (dev w)) (seq 0 n))
  ∧ Dev.bundlers p = List.filter (λ j, isServed (Dev.start (dev w) j)) (seq 0 n)
  ∧ Dev.state_visualPath p = Dev.visual (dev w)
  ∧ Dev.state_folders p = Some (Dev.folders (dev w))
  ∧ (∀ j, is_Some (Dev.state_bundlers p !! j) ↔ (j < n)%nat)
  ∧ Dev.fill p = Dev.getFill (dev w) (Dev.startTime (dev w))
  ∧ Dev.notifications p = []
  ∧ Dev.timers p = []
  ∧ last (Dev.console p)
    = Some (console_log
              (txt "Listening to file changes... Press Ctrl+C to stop servers")).
Proof.
  intros Hg Hok Hf Hsel r p n. subst r p n.
  destruct (SessionFacts.session_started (dev w) Hg Hf Hsel)
    as (D1 & D2 & D3 & D4 & D5 & D6 & D7 & D8 & D9 & D10).
  cbv zeta in *.
  rewrite handle_stages.
  destruct (runStages_session w Hok (stages w) initial) as [Hfst Hses].
  rewrite <- Dev_handle_stages in Hfst, Hses. cbn [session initial] in Hfst, Hses.
  rewrite D1 in Hfst. rewrite Hses.
  split; [exact Hfst|].
  split.
  { rewrite runStages_called by apply steady_stages.
    destruct (ran_sites w (stages w) (steps_return w Hg Hf Hsel)) as [H1 _].
    rewrite H1, sites_of_stages, upToFailure_none by exact Hok. reflexivity. }
  split.
  { rewrite (runStages_watchers w Hok) by exact Hfst. apply watchers_of_stages. }
  repeat match goal with |- _ ∧ _ => split end; assumption.
Qed.

(** X29.  The calls are made in the order of the source, and the first
    that throws ends [handle] with its exception.  When no port is found
    in use, a visual is chosen, the configuration and the schema pass their
    checks, and size folders are found and selected, the calls made are
    those up to and including the first that throws, [handle] ends with
    the exception of that call, and it returns when none throws, whatever
    the bundlers do. *)
Theorem first_failing_call_ends_handle (w : World) (s : Proc) :
  reachesDiscovery (dev w) →
  Dev.folders (dev w) ≠ [] → Dev.selectedFolders (dev w) ≠ [] →
  let r := handle w s in
  let made := upToFailure w (allSites w) in
  called (snd r) = called s ++ fst made
  ∧ fst r = match snd made with
            | Some e => Throw e
            | None => Normal ()
            end.
Proof.
  intros Hg Hf Hsel r made. subst r made.
  rewrite handle_stages, runStages_called, runStages_outcome by apply steady_stages.
  destruct (ran_sites w (stages w) (steps_return w Hg Hf Hsel)) as [H1 H2].
  rewrite H1, H2, sites_of_stages. split; reflexivity.
Qed.

(** X30.  [Dev.handle] is [handle] without its calls.  When [handle]
    returns, [Dev.handle] returns from the same session and leaves the
    session that [handle] leaves; and when every call returns, the two end
    alike, with the same exit code or the same exception, and leave the
    same session. *)
Theorem session_of_handle (w : World) (s : Proc) :
  (fst (handle w s) = Normal () →
     fst (Dev.handle (dev w) (session s)) = Normal ()
     ∧ session (snd (handle w s)) = snd (Dev.handle (dev w) (session s)))
  ∧ ((∀ x, fails w x = None) →
     fst (handle w s) = fst (Dev.handle (dev w) (session s))
     ∧ session (snd (handle w s)) = snd (Dev.handle (dev w) (session s))).
Proof.
  rewrite handle_stages, Dev_handle_stages. split.
  - apply runStages_returned.
  - intros Hok. apply (runStages_session w Hok).
Qed.

End StartupFacts.

(** ** The [bundled] handler: what it prints *)

Module HandlerFacts.

Import Markup MarkupSpec TextFacts MarkupFacts WatchSpec.

Lemma debugLog_logs ctx m : Forall isLog (debugLog ctx m).
Proof.
  unfold debugLog. destruct (debug ctx); [|constructor].
  constructor; [eexists; reflexivity | constructor].
Qed.

Lemma inject_logs ctx inj doc : Forall isLog (snd (inject ctx inj doc)).
Proof.
  unfold inject. destruct (indexOf doc (openToken inj) =? -1); apply debugLog_logs.
Qed.

(** The lines of a run: lines for [--debug], then the warning, then the
    line of a bundle after the first. *)
Lemma printed_bundled ctx time file :
  ∃ dbg, Forall isLog dbg
    ∧ ∀ first : bool,
      printed (bundled ctx time first file)
      = dbg
        ++ (if (indexOf (postProcess ctx time file) (txt "<main>") =? -1)
               && (indexOf (postProcess ctx time file) (txt "<main ") =? -1)
            then [mainWarning ctx] else [])
        ++ (if first then [] else [bundledLine ctx]).
Proof.
  unfold bundled, postProcess, injections. cbn [fold_left].
  repeat match goal with |- context [inject ?c ?i ?m] =>
    let r := fresh "r" in
    let E := fresh "E" in
    pose proof (inject_logs c i m) as E;
    remember (inject c i m) as r; destruct r as [? ?]; cbn [fst snd] in *
  end.
  eexists. split; [|intros f; cbn [printed]; rewrite !(@app_assoc Console); reflexivity].
  repeat (apply Forall_app; split); try assumption; apply debugLog_logs.
Qed.

Lemma headed_main : headed (txt "<main>") = true ∧ headed (txt "<main ") = true.
Proof. split; reflexivity. Qed.

(** X11.  The handler prints the line about a missing [<main>] exactly
    when the markup it has written holds neither [<main>] nor [<main ];
    the markers spliced in hide no element of the built file, so that a
    file that holds one of the two gets no error line at all. *)
Theorem main_element_warning (ctx : Ctx) (time : Z) (first : bool) (file : Text) :
  let r := bundled ctx time first file in
  (mainWarning ctx ∈ printed r
     ↔ ¬ occurs (txt "<main>") (written r) ∧ ¬ occurs (txt "<main ") (written r))
  ∧ (occurs (txt "<main>") file ∨ occurs (txt "<main ") file →
       ∀ msg, console_error msg ∉ printed r).
Proof.
  cbv zeta. rewrite written_postProcess.
  destruct (printed_bundled ctx time file) as (dbg & Hdbg & Hp).
  rewrite (Hp first). rewrite !indexOf_absent.
  assert (Hnot : ∀ msg, console_error msg ∉ dbg).
  { intros msg Hin. rewrite Forall_forall in Hdbg. destruct (Hdbg _ Hin) as [m Hm].
    discriminate Hm. }
  assert (Hline : ∀ msg, console_error msg ∉ (if first then [] else [bundledLine ctx])).
  { intros msg Hin. destruct first; [inversion Hin|].
    apply list_elem_of_singleton in Hin. discriminate Hin. }
  split.
  - rewrite <- !occursb_false.
    destruct (occursb (txt "<main>") _), (occursb (txt "<main ") _); cbn [negb andb];
      (split; [intros Hin | intros [H1 H2]; try discriminate]).
    all: try (apply elem_of_app in Hin as [Hin|Hin]; [exfalso; eapply Hnot, Hin|];
              apply elem_of_app in Hin as [Hin|Hin]; [inversion Hin|];
              exfalso; eapply Hline, Hin).
    + split; reflexivity.
    + apply elem_of_app. right. apply elem_of_app. left. left.
  - intros Hocc msg Hin.
    assert (Hkept : occurs (txt "<main>") (postProcess ctx time file)
                    ∨ occurs (txt "<main ") (postProcess ctx time file)).
    { destruct Hocc as [H|H]; [left|right];
        (apply pass_preserves; [apply shaped_injections | reflexivity | exact H]). }
    apply elem_of_app in Hin as [Hin|Hin]; [eapply Hnot, Hin|].
    apply elem_of_app in Hin as [Hin|Hin]; [|eapply Hline, Hin].
    destruct Hkept as [H|H]; apply occursb_true in H; rewrite H in Hin;
      cbn [negb andb] in Hin; [inversion Hin|].
    rewrite andb_false_r in Hin. inversion Hin.
Qed.

Lemma debugLog_off ctx m : debug ctx = false → debugLog ctx m = [].
Proof. unfold debugLog. intros ->. reflexivity. Qed.

Lemma inject_line ctx inj doc :
  snd (inject ctx inj doc)
  = debugLog ctx (if indexOf doc (openToken inj) =? -1
                  then txt "Adding " ++ name inj ++ txt " to markup"
                  else name inj ++ txt " already in markup").
Proof. unfold inject. destruct (indexOf doc (openToken inj) =? -1); reflexivity. Qed.

(** X12.  The lines about the markers need [--debug].  Without it the
    handler prints the warning about [<main>] and the line of a bundle
    after the first, when they are due, and nothing else.  With it the
    handler prints eight lines more, before these: the two addresses it
    uses and, for each of the six markers, one line that says whether the
    marker is being added or is already in the markup. *)
Theorem marker_lines_need_debug (ctx : Ctx) (time : Z) (first : bool) (file : Text) :
  let r := bundled ctx time first file in
  let rest :=
    (if (indexOf (written r) (txt "<main>") =? -1)
        && (indexOf (written r) (txt "<main ") =? -1)
     then [mainWarning ctx] else [])
    ++ (if first then [] else [bundledLine ctx]) in
  (debug ctx = false → printed r = rest)
  ∧ (debug ctx = true →
     ∃ lines, printed r = map console_log lines ++ rest
       ∧ length lines = 8%nat
       ∧ txt "Using VisualClient on URL " ++ visualClientScript ctx time ∈ lines
       ∧ txt "Using VisualHelper on URL " ++ visualHelperUrl ctx ∈ lines
       ∧ ∀ inj, inj ∈ injections ctx time →
           txt "Adding " ++ name inj ++ txt " to markup" ∈ lines
           ∨ name inj ++ txt " already in markup" ∈ lines).
Proof.
  cbv zeta. rewrite written_postProcess.
  unfold bundled, postProcess, injections. cbn [fold_left].
  repeat match goal with |- context [inject ?c ?i ?m] =>
    let r := fresh "r" in
    let E := fresh "E" in
    pose proof (inject_line c i m) as E;
    remember (inject c i m) as r; destruct r as [? ?]; cbn [fst snd] in *
  end.
  cbn [printed]. subst. split.
  - intros Hd. rewrite !debugLog_off by exact Hd. reflexivity.
  - intros Hd. unfold debugLog. rewrite Hd.
    refine (ex_intro _ [_; _; _; _; _; _; _; _] _). split.
    + reflexivity.
    + split; [reflexivity|].
      split; [left|]. split; [do 6 right; left|].
      intros inj Hin.
      repeat (apply elem_of_cons in Hin as [->|Hin]); [..|inversion Hin];
        match goal with
        | |- (_ ++ name ?i ++ _ ∈ _) ∨ _ =>
            match goal with
            | |- context [indexOf ?d (openToken i) =? -1] =>
                destruct (indexOf d (openToken i) =? -1)
            end
        end;
        first
          [ left;
            solve [repeat first [apply list_elem_of_here | apply list_elem_of_further]]
          | right;
            solve [repeat first [apply list_elem_of_here | apply list_elem_of_further]] ].
Qed.

Lemma step_inserts ctx inj doc : Shaped inj → sublist doc (step ctx doc inj).
Proof.
  intros Hs.
  destruct (occursb (openToken inj) doc) eqn:Eo.
  { rewrite step_skip; [reflexivity | left; apply occursb_true, Eo]. }
  destruct (occursb (anchor inj) doc) eqn:Ea.
  2:{ rewrite step_skip; [reflexivity | right; apply occursb_false, Ea]. }
  apply occursb_false in Eo. apply occursb_true in Ea.
  destruct (step_splice ctx inj doc Hs Eo Ea) as (a & b & x & _ & Hd & ->).
  rewrite Hd at 1. apply sublist_app; [reflexivity|].
  apply sublist_inserts_l. reflexivity.
Qed.

(** X13.  Post-processing only inserts: whatever the fill, the folder and
    the path hold, the characters of the built file are all in the markup
    that is written, in their order, so that nothing of the file is lost
    and the markup is never shorter than the file. *)
Theorem postProcess_only_inserts (ctx : Ctx) (time : Z) (doc : Text) :
  sublist doc (postProcess ctx time doc)
  ∧ (length doc ≤ length (postProcess ctx time doc))%nat.
Proof.
  assert (H : sublist doc (postProcess ctx time doc)).
  { rewrite postProcess_steps.
    pose proof (shaped_injections ctx time) as Hs. revert doc.
    induction Hs as [|inj injs Hinj _ IH]; intros doc; cbn [fold_left]; [reflexivity|].
    etransitivity; [apply (step_inserts ctx inj doc Hinj)|apply IH]. }
  split; [exact H|apply sublist_length, H].
Qed.

End HandlerFacts.

(** ** The watchers and the handler on the event loop *)

Module WatchFacts.

Import CheckConfig Dev DevSpec DevFacts WatchSpec MarkupFacts HandlerFacts.

(** What the callback of a timer leaves as it is. *)
Lemma onTimeout_frame w d p :
  let q := runCallback (onTimeout w d) p in
  console q = console p ∧ seenBundle q = seenBundle p
  ∧ state_bundlers q = state_bundlers p ∧ state_visualPath q = state_visualPath p
  ∧ dist q = dist p.
Proof.
  unfold runCallback, onTimeout, awaitCheckSchema. run_monad.
  destruct (checkSchema w d); cbn; repeat split; reflexivity.
Qed.

Lemma timeouts_frame w ds : ∀ p,
  let q := fold_left (λ q d, runCallback (onTimeout w d) q) ds p in
  console q = console p ∧ seenBundle q = seenBundle p
  ∧ state_bundlers q = state_bundlers p ∧ state_visualPath q = state_visualPath p
  ∧ dist q = dist p.
Proof.
  induction ds as [|d ds IH]; intros p; cbn [fold_left]; [repeat split; reflexivity|].
  destruct (IH (runCallback (onTimeout w d) p)) as (I1 & I2 & I3 & I4 & I5).
  destruct (onTimeout_frame w d p) as (T1 & T2 & T3 & T4 & T5).
  cbv zeta in *. rewrite I1, I2, I3, I4, I5. repeat split; assumption.
Qed.

Lemma runTimers_frame w t p :
  let q := runTimers w t p in
  console q = console p ∧ seenBundle q = seenBundle p
  ∧ state_bundlers q = state_bundlers p ∧ state_visualPath q = state_visualPath p
  ∧ dist q = dist p.
Proof.
  unfold runTimers. cbv zeta.
  match goal with
  | |- context [fold_left _ ?ds ?p0] =>
      destruct (timeouts_frame w ds p0) as (H1 & H2 & H3 & H4 & H5)
  end.
  cbv zeta in *. rewrite H1, H2, H3, H4, H5. repeat split; reflexivity.
Qed.




Lemma step_bundled_dist w q t i file :
  dist (step w q (t, BundledEvent i file)) !! i
  = Some (Markup.postProcess (ctxOf w (runTimers w t q) i) t file).
Proof.
  unfold step. cbn [fst snd dispatch].
  generalize (runTimers w t q). intros q'.
  unfold runCallback, onBundled.
  unfold printAll, modify, get. unfold mbind, M_bind, mret, M_ret.
  cbn [fst snd dist upd_dist upd_console upd_seenBundle].
  rewrite lookup_insert_eq, written_postProcess. reflexivity.
Qed.

(** X15.  A change of [schema.json] reaches the markup 200 ms later and
    not before: with no timer pending, a file bundled after a change gets
    the fill made from the changed schema when the bundle comes at least
    200 ms after the change and the check of the schema resolves, and the
    fill as it was otherwise. *)
Theorem bundle_gets_fill_after_delay (w : World) (t0 t1 : Z) (i : nat) (file : Text)
    (p : Proc) :
  timers p = [] →
  let q := run w [(t0, SchemaChange); (t1, BundledEvent i file)] p in
  let fill' :=
    if decide (t0 + 200 ≤ t1) then
      match checkSchema w (t0 + 200) with
      | None => getFill w (t0 + 200)
      | Some _ => fill p
      end
    else fill p in
  dist q !! i = Some (Markup.postProcess (withFill (ctxOf w p i) fill') t1 file).
Proof.
  intros Hp q fill'. subst q. unfold run. cbn [fold_left].
  rewrite step_bundled_dist.
  set (q := step w p (t0, SchemaChange)).
  enough (Hctx : ctxOf w (runTimers w t1 q) i = withFill (ctxOf w p i) fill')
    by (rewrite Hctx; reflexivity).
  destruct (runTimers_frame w t1 q) as (_ & _ & Hb & Hv & _).
  assert (Hq : state_bundlers q = state_bundlers p
               ∧ state_visualPath q = state_visualPath p).
  { subst q. unfold step. cbn [fst snd dispatch].
    destruct (runTimers_frame w t0 p) as (_ & _ & Hb0 & Hv0 & _).
    unfold runCallback, onSchemaChange. run_monad. split; assumption. }
  destruct Hq as [Hb1 Hv1].
  assert (Hfill : fill (runTimers w t1 q) = fill').
  { subst q fill'. unfold step, runTimers. cbn [fst snd dispatch]. rewrite Hp.
    rewrite !filter_nil. cbn [fold_left].
    unfold runCallback at 2. unfold onSchemaChange. run_monad.
    destruct (decide (t0 + 200 ≤ t1)) as [Hle|Hgt].
    - rewrite decide_False by tauto. cbn [fold_left].
      unfold runCallback, onTimeout, awaitCheckSchema. run_monad.
      destruct (checkSchema w (t0 + 200)); reflexivity.
    - rewrite decide_True by tauto. reflexivity. }
  unfold ctxOf, withFill. cbn [Markup.local Markup.debug Markup.fill Markup.folder
    Markup.visualPath Markup.port].
  rewrite Hb, Hv, Hb1, Hv1, Hfill. reflexivity.
Qed.

(** X16.  The handler sets nothing in motion: it calls [bundle()] on no
    handle and sets no timer, and it leaves the fill, the session, the
    handles and the listening ports as they are.  It writes the markup of
    its own target, post-processed with the fill and the names of that
    target, and leaves the markup of every other target alone. *)
Theorem bundled_event_rebuilds_nothing (w : World) (i : nat) (file : Text) (t : Z)
    (p : Proc) :
  let q := runCallback (onBundled w i file t) p in
  rebuilds q = rebuilds p
  ∧ timers q = timers p
  ∧ fill q = fill p
  ∧ schemaChecks q = schemaChecks p
  ∧ fillUpdates q = fillUpdates p
  ∧ configChecks q = configChecks p
  ∧ bundlers q = bundlers p
  ∧ state_bundlers q = state_bundlers p
  ∧ state_folders q = state_folders p
  ∧ listening q = listening p
  ∧ dist q !! i = Some (Markup.postProcess (ctxOf w p i) t file)
  ∧ (∀ j, j ≠ i → dist q !! j = dist p !! j ∧ seenBundle q !! j = seenBundle p !! j).
Proof.
  unfold runCallback, onBundled.
  unfold printAll, modify, get. unfold mbind, M_bind, mret, M_ret.
  cbn [fst snd dist upd_dist upd_console upd_seenBundle rebuilds timers fill schemaChecks
       fillUpdates configChecks bundlers state_bundlers state_folders listening seenBundle].
  repeat match goal with |- _ ∧ _ => split end; try reflexivity.
  - rewrite lookup_insert_eq, written_postProcess. reflexivity.
  - intros j Hj. rewrite !lookup_insert_ne by congruence. split; reflexivity.
Qed.


End WatchFacts.

(** ** Choosing the visual *)

Module VisualFacts.

Import Effect EffectFacts Visual VisualSpec TextFacts.

Ltac run_eff :=
  unfold prompt, await, visualExists, print, tryCatch, throw, process_exit, modify, get;
  unfold mbind, Eff_bind, mret, Eff_ret; cbn.

(** Texts and errors written as the lists they are, so that the terms of
    the two sides of an equation read alike. *)
Ltac plain_types := unfold txt, Text, Error in *; cbn [list_ascii_of_string] in *.

Ltac case_listing :=
  match goal with
  | |- context [getDirectories ?w ?path] => destruct (getDirectories w path); plain_types
  end.

Ltac case_answer :=
  match goal with
  | |- context [answer ?w ?q] => destruct (answer w q); plain_types
  end.

Ltac case_filter :=
  match goal with
  | |- context [@List.filter ?A visible ?l] => destruct (@List.filter A visible l); plain_types
  end.

(** The test [folder[0] !== '.'] lets through the names that do not start
    with a dot. *)
Lemma visible_shown (f : Text) : visible f = shown f.
Proof.
  destruct f as [|c f]; [reflexivity|]. unfold shown, startsWith, visible.
  change (txt ".") with ["."%char]. cbn [stripPrefix].
  rewrite (Ascii.eqb_sym c). destruct (Ascii.eqb "." c); reflexivity.
Qed.

Lemma filter_shown (l : list Text) : List.filter shown l = List.filter visible l.
Proof. apply filter_ext. intros f. symmetry. apply visible_shown. Qed.

Lemma listing_visible (w : World) (path : list Text) :
  listing w path
  = match getDirectories w path with
    | inl e => inl e
    | inr l => inr (List.filter visible l)
    end.
Proof. unfold listing. destruct (getDirectories w path); [|rewrite filter_shown]; done. Qed.

(** [selectVisual], case by case. *)
Lemma selectVisual_cases (w : World) (p : Proc) :
  selectVisual w p
  = match brandsOf w with
    | inl e => (Throw e, p)
    | inr [] => (Exit 0, upd_console (λ l, l ++ [console_error (txt "No brands")]) p)
    | inr ((b :: bs) as brands) =>
        let p0 :=
          match bs with
          | [] => p
          | _ => upd_asked (λ l, l ++ [brandQuestion w brands]) p
          end in
        match (match bs with
               | [] => inr b
               | _ => answer w (brandQuestion w brands)
               end) with
        | inl e => (Throw e, p0)
        | inr brand =>
            let p1 :=
              match bs with
              | [] => p0
              | _ => upd_console (λ l, l ++ [console_log brand]) p0
              end in
            match templatesOf w brand with
            | inl e => (Throw e, p1)
            | inr [] =>
                (Exit 0, upd_console (λ l, l ++ [console_error (txt "No templates")]) p1)
            | inr ts =>
                let p2 := upd_asked (λ l, l ++ [templateQuestion w brand ts]) p1 in
                match answer w (templateQuestion w brand ts) with
                | inl e => (Throw e, p2)
                | inr a => (Normal (brand ++ txt "/" ++ a), p2)
                end
            end
        end
    end.
Proof.
  assert (Htail : ∀ (brand : Text) (p1 : Proc),
    (visualFolders ← await (getDirectories w [root w; txt "src"; brand]) ;
     let visuals := List.filter visible visualFolders in
     (if (length visuals =? 0)%nat
      then print (console_error (txt "No templates")) ;; process_exit 0
      else mret ()) ;;
     let visuals := rev visuals in
     selectedVisual ← prompt w {| message := txt "Select template";
                                  choices := map (visualChoice w brand) visuals |} ;
     mret (brand ++ txt "/" ++ selectedVisual)) p1
    = match templatesOf w brand with
      | inl e => (Throw e, p1)
      | inr [] =>
          (Exit 0, upd_console (λ l, l ++ [console_error (txt "No templates")]) p1)
      | inr ts =>
          let p2 := upd_asked (λ l, l ++ [templateQuestion w brand ts]) p1 in
          match answer w (templateQuestion w brand ts) with
          | inl e => (Throw e, p2)
          | inr a => (Normal (brand ++ txt "/" ++ a), p2)
          end
      end).
  { intros brand p1. unfold templatesOf. rewrite listing_visible.
    destruct (getDirectories w [root w; txt "src"; brand]) as [e|l2].
    { step_throw. reflexivity. }
    step_normal. cbv zeta.
    destruct (List.filter visible l2) as [|t ts]; [reflexivity|].
    cbn [length Nat.eqb]. step_normal. unfold templateQuestion, prompt.
    set (q := {| message := txt "Select template";
                 choices := map (visualChoice w brand) (rev (t :: ts)) |}).
    unfold mbind, Eff_bind, modify, await, throw, mret, Eff_ret.
    destruct (answer w q); reflexivity. }
  unfold selectVisual, brandsOf. rewrite listing_visible.
  destruct (getDirectories w [root w; txt "src"]) as [e|l].
  { step_throw. reflexivity. }
  step_normal. cbv zeta.
  destruct (List.filter visible l) as [|b [|b' bs]].
  - reflexivity.
  - cbn [length Nat.eqb]. do 2 step_normal. apply Htail.
  - cbn [length Nat.eqb]. step_normal. unfold brandQuestion.
    set (q := {| message := txt "Select brand";
                 choices := map (brandChoice w) (b :: b' :: bs) |}).
    destruct (answer w q) as [e|brand] eqn:Ea.
    + erewrite bind_throw; [reflexivity|]. unfold prompt, modify, await, throw.
      unfold mbind, Eff_bind. rewrite Ea. reflexivity.
    + erewrite bind_normal; [apply Htail|]. unfold prompt, modify, await, print.
      unfold mbind, Eff_bind, mret, Eff_ret. rewrite Ea. reflexivity.
Qed.

Lemma truthy_default v : truthy v = true → truthy (Some (default [] v)) = true.
Proof. destruct v as [[|c l]|]; done. Qed.

Lemma isDirectory_found w :
  default false (isDirectory w (lastDevPath w))
  = bool_decide (isDirectory w (lastDevPath w) = Some true).
Proof. destruct (isDirectory w (lastDevPath w)) as [[]|]; reflexivity. Qed.

(** [chooseVisual], case by case. *)
Lemma chooseVisual_cases (w : World) (p : Proc) :
  chooseVisual w p
  = if newest w && truthy (newestVisual w) then (Normal (default [] (newestVisual w)), p)
    else if truthy (lastDev w) then
      let p1 := upd_stats (λ l, l ++ [lastDevPath w]) p in
      if bool_decide (isDirectory w (lastDevPath w) = Some true) then
        if latest w then (Normal (default [] (lastDev w)), p1)
        else
          let p2 := upd_asked (λ l, l ++ [recent w]) p1 in
          match answer w (recent w) with
          | inl e => (Throw e, p2)
          | inr a =>
              if bool_decide (a = txt "Yes")
              then (Normal (default [] (lastDev w)), p2)
              else selectVisual w p2
          end
      else selectVisual w p1
    else selectVisual w p.
Proof.
  unfold chooseVisual.
  destruct (newest w && truthy (newestVisual w)) eqn:En.
  { apply andb_true_iff in En as [_ En].
    unfold mbind, Eff_bind, mret, Eff_ret. rewrite En. reflexivity. }
  unfold getLastVisual, detectLastVisual.
  destruct (truthy (lastDev w)) eqn:El; cbn [negb].
  2:{ destruct (latest w); reflexivity. }
  pose proof (truthy_default _ El) as Hd.
  unfold visualExists, prompt, await, throw, modify. unfold mbind, Eff_bind, mret, Eff_ret.
  cbv zeta.
  fold (lastDevPath w). fold (recent w). rewrite isDirectory_found.
  destruct (bool_decide (isDirectory w (lastDevPath w) = Some true)); cbn [negb];
    destruct (latest w); rewrite ?Hd; cbn [negb]; try reflexivity.
  destruct (answer w (recent w)) as [e|a]; [reflexivity|].
  destruct (bool_decide (a = txt "Yes")); rewrite ?Hd; reflexivity.
Qed.

(** What [selectVisual] asks. *)
Lemma selectVisual_asked (w : World) (p : Proc) :
  ∃ qs, asked (snd (selectVisual w p)) = asked p ++ qs
    ∧ Forall (λ q,
        (∃ brands, brandsOf w = inr brands ∧ q = brandQuestion w brands
                   ∧ (2 ≤ length brands)%nat)
        ∨ (∃ brand ts, brandPicked w = Some (inr brand)
                       ∧ templatesOf w brand = inr ts ∧ ts ≠ []
                       ∧ q = templateQuestion w brand ts)) qs.
Proof.
  rewrite selectVisual_cases. unfold brandPicked.
  destruct (brandsOf w) as [e|[|b [|b' bs]]] eqn:Eb.
  - exists []. rewrite app_nil_r. split; [reflexivity|constructor].
  - exists []. rewrite app_nil_r. split; [reflexivity|constructor].
  - cbv zeta. destruct (templatesOf w b) as [e|[|t ts]] eqn:Et.
    + exists []. rewrite app_nil_r. split; [reflexivity|constructor].
    + exists []. rewrite app_nil_r. split; [reflexivity|constructor].
    + exists [templateQuestion w b (t :: ts)].
      split; [destruct (answer w _); reflexivity|].
      constructor; [|constructor]. right. exists b, (t :: ts). done.
  - cbv zeta. set (bq := brandQuestion w (b :: b' :: bs)).
    assert (Hbq : ∃ brands, (inr (b :: b' :: bs) : Error + list Text) = inr brands
                    ∧ bq = brandQuestion w brands ∧ (2 ≤ length brands)%nat).
    { exists (b :: b' :: bs). split; [reflexivity|]. split; [reflexivity|]. cbn. lia. }
    destruct (answer w bq) as [e|brand] eqn:Ea.
    { exists [bq]. split; [reflexivity|]. constructor; [left; exact Hbq|constructor]. }
    destruct (templatesOf w brand) as [e|[|t ts]] eqn:Et.
    + exists [bq]. split; [reflexivity|]. constructor; [left; exact Hbq|constructor].
    + exists [bq]. split; [reflexivity|]. constructor; [left; exact Hbq|constructor].
    + exists [bq; templateQuestion w brand (t :: ts)]. split.
      * destruct (answer w (templateQuestion _ _ _)); cbn; rewrite <- app_assoc; reflexivity.
      * constructor; [left; exact Hbq|].
        constructor; [|constructor]. right. exists brand, (t :: ts). done.
Qed.

Lemma elem_of_filter_shown f l : f ∈ List.filter shown l ↔ f ∈ l ∧ shown f = true.
Proof. rewrite !list_elem_of_In. apply filter_In. Qed.

Lemma shown_true f : shown f = true ↔ startsWith (txt ".") f = false.
Proof. unfold shown. destruct (startsWith (txt ".") f); split; done. Qed.

Lemma elem_of_rev (f : Text) l : f ∈ rev l ↔ f ∈ l.
Proof. rewrite !list_elem_of_In. symmetry. apply in_rev. Qed.

(** A text in which a character of [t] is missing does not hold [t]. *)
Lemma occurs_elem (t s : Text) (c : ascii) : c ∈ t → c ∉ s → ¬ occurs t s.
Proof.
  intros Hc Hs (a & b & ->). apply Hs.
  apply elem_of_app. right. apply elem_of_app. left. exact Hc.
Qed.

(** A name is offered as it is. *)
Lemma brandChoice_name (w : World) (f : Text) : "/"%char ∉ f → brandChoice w f = f.
Proof.
  intros Hf. unfold brandChoice.
  rewrite (replace_absent f).
  - apply replace_absent, (occurs_elem _ _ "/"%char); [|exact Hf].
    change (txt "/brand.json") with ("/"%char :: txt "brand.json"). left.
  - apply (occurs_elem _ _ "/"%char); [|exact Hf].
    apply elem_of_app. right. change (txt "/src/") with ("/"%char :: txt "src/"). left.
Qed.

Lemma visualChoice_name (w : World) (brand f : Text) :
  "/"%char ∉ f → visualChoice w brand f = f.
Proof.
  intros Hf. unfold visualChoice.
  rewrite (replace_absent f).
  - apply replace_absent, (occurs_elem _ _ "/"%char); [|exact Hf].
    change (txt "/") with ["/"%char]. left.
  - apply (occurs_elem _ _ "/"%char); [|exact Hf].
    apply elem_of_app. right. change (txt "/src/") with ("/"%char :: txt "src/").
    rewrite <- app_comm_cons. left.
Qed.

Lemma map_names (g : Text → Text) (l : list Text) :
  (∀ f, f ∈ l → g f = f) → map g l = l.
Proof.
  induction l as [|x l IH]; intros H; [reflexivity|]. cbn [map].
  rewrite H by left. rewrite IH; [reflexivity|]. intros f Hf. apply H. right. exact Hf.
Qed.

(** X18.  When the listings hold names, [selectVisual] offers no hidden
    directory: the names offered in the question about the brand are the
    brands listed under [src] that do not start with a dot, those offered in
    the question about the template are the templates listed for the brand
    chosen that do not start with a dot, in the reverse of the order in
    which they are listed; so no name offered starts with a dot.  It asks
    for the brand only when there are two such brands or more. *)
Theorem hidden_folders_not_offered (w : World) (p : Proc) :
  listsNames w →
  ∃ qs, asked (snd (selectVisual w p)) = asked p ++ qs
    ∧ ∀ q, q ∈ qs →
        (∀ c, c ∈ choices q → startsWith (txt ".") c = false)
        ∧ ((message q = txt "Select brand"
            ∧ ∃ l, getDirectories w [root w; txt "src"] = inr l
                 ∧ choices q
                   = List.filter (λ name, negb (startsWith (txt ".") name)) l
                 ∧ (2 ≤ length (choices q))%nat)
           ∨ (message q = txt "Select template"
              ∧ ∃ brand l, brandPicked w = Some (inr brand)
                   ∧ getDirectories w [root w; txt "src"; brand] = inr l
                   ∧ choices q
                     = rev (List.filter (λ name, negb (startsWith (txt ".") name)) l))).
Proof.
  intros Hnames.
  destruct (selectVisual_asked w p) as (qs & Hqs & Hall).
  exists qs. split; [exact Hqs|]. rewrite Forall_forall in Hall.
  intros q Hq. fold shown.
  destruct (Hall q Hq) as [(brands & Hb & -> & Hlen)|(brand & ts & Hb & Ht & _ & ->)].
  - unfold brandsOf, listing in Hb.
    destruct (getDirectories w [root w; txt "src"]) as [e|l] eqn:El; [discriminate Hb|].
    injection Hb as <-. cbn [choices message brandQuestion].
    rewrite map_names.
    2:{ intros f Hf. apply elem_of_filter_shown in Hf as [Hf _].
        apply brandChoice_name, (Hnames _ _ _ El Hf). }
    split.
    + intros c Hc. apply elem_of_filter_shown in Hc as [_ Hc]. apply shown_true, Hc.
    + left. split; [reflexivity|]. exists l. done.
  - unfold templatesOf, listing in Ht.
    destruct (getDirectories w [root w; txt "src"; brand]) as [e|l] eqn:El;
      [discriminate Ht|].
    injection Ht as <-. cbn [choices message templateQuestion].
    rewrite map_names.
    2:{ intros f Hf. apply elem_of_rev, elem_of_filter_shown in Hf as [Hf _].
        apply visualChoice_name, (Hnames _ _ _ El Hf). }
    split.
    + intros c Hc. apply elem_of_rev, elem_of_filter_shown in Hc as [_ Hc].
      apply shown_true, Hc.
    + right. split; [reflexivity|]. exists brand, l. done.
Qed.

(** The cases of a statement about how [selectVisual] ends, once the
    answers of the surroundings are known; [Hl] relates a listing to the
    call behind it. *)
Ltac outcome_cases Hl :=
  repeat match goal with
  | |- _ ∧ _ => split
  | |- _ ↔ _ => split
  | |- ∀ _, _ => intro
  | H : _ ∧ _ |- _ => destruct H
  | H : ∃ _, _ |- _ => destruct H
  | H : _ ∨ _ |- _ => destruct H
  | H : getDirectories _ _ = inl _ |- _ => apply Hl in H
  end;
  simplify_eq;
  repeat match goal with
  | H1 : ?x = _, H2 : ?x = _ |- _ => rewrite H1 in H2; simplify_eq
  end;
  try congruence; try reflexivity;
  try (apply Hl; assumption);
  try solve [left; reflexivity];
  try solve [right; eexists; split; [reflexivity|eassumption]];
  try solve [left; apply Hl; congruence];
  try solve [right; left; congruence];
  try solve [right; right; eexists; split; [reflexivity|]; left; apply Hl; eassumption];
  try solve [right; right; eexists; split; [reflexivity|]; right;
             eexists; split; [eassumption|]; split; [discriminate|assumption]];
  try solve [split; [reflexivity|]; left; assumption];
  try solve [split; [reflexivity|]; right; eexists; split; [reflexivity|assumption]];
  try solve [do 3 eexists; split; [reflexivity|]; split; [eassumption|];
             split; [discriminate|]; split; [eassumption|reflexivity]].

(** X19.  How [selectVisual] ends.  It ends the process, with code 0 and
    after an error line, exactly when the brands can be listed and none is
    visible, or the templates of the brand it goes on with can be listed
    and none is visible.  It throws exactly when one of its four awaited
    calls rejects, with the error of that call: the listing of the brands,
    the question about the brand, the listing of the templates or the
    question about the template.  Otherwise it returns the brand and the
    answer to the question about the template, joined by a slash.  When the
    brands cannot be listed or none is visible, nothing is asked. *)
Theorem selectVisual_outcome (w : World) (p : Proc) :
  let r := selectVisual w p in
  (∀ code, fst r = Exit code
     ↔ code = 0
       ∧ (brandsOf w = inr []
          ∨ ∃ brand, brandPicked w = Some (inr brand) ∧ templatesOf w brand = inr []))
  ∧ (∀ e, fst r = Throw e
       ↔ getDirectories w [root w; txt "src"] = inl e
         ∨ brandPicked w = Some (inl e)
         ∨ ∃ brand, brandPicked w = Some (inr brand)
             ∧ (getDirectories w [root w; txt "src"; brand] = inl e
                ∨ ∃ ts, templatesOf w brand = inr ts ∧ ts ≠ []
                    ∧ answer w (templateQuestion w brand ts) = inl e))
  ∧ (∀ v, fst r = Normal v
       ↔ ∃ brand ts a, brandPicked w = Some (inr brand)
           ∧ templatesOf w brand = inr ts ∧ ts ≠ []
           ∧ answer w (templateQuestion w brand ts) = inr a
           ∧ v = brand ++ txt "/" ++ a)
  ∧ (brandsOf w = inr [] →
       r = (Exit 0, upd_console (λ l, l ++ [console_error (txt "No brands")]) p))
  ∧ (∀ e, getDirectories w [root w; txt "src"] = inl e → r = (Throw e, p))
  ∧ (∀ brand, brandPicked w = Some (inr brand) → templatesOf w brand = inr [] →
       last (console (snd r)) = Some (console_error (txt "No templates"))).
Proof.
  cbv zeta. rewrite selectVisual_cases.
  assert (Hl : ∀ path e, listing w path = inl e ↔ getDirectories w path = inl e).
  { intros path e. unfold listing. destruct (getDirectories w path); split; congruence. }
  unfold templatesOf in *. unfold brandPicked.
  destruct (brandsOf w) as [e0|[|b [|b' bs]]] eqn:Eb; unfold brandsOf in Eb.
  - cbn [fst snd]. outcome_cases Hl.
  - cbn [fst snd]. outcome_cases Hl.
  - cbv zeta.
    destruct (listing w [root w; txt "src"; b]) as [e1|[|t ts]] eqn:Et;
      [| |destruct (answer w (templateQuestion w b (t :: ts))) as [e2|a] eqn:Ea];
      cbn [fst snd]; outcome_cases Hl.
    apply last_snoc.
  - cbv zeta.
    destruct (answer w (brandQuestion w (b :: b' :: bs))) as [e1|brand] eqn:Eq;
      [cbn [fst snd]; outcome_cases Hl|].
    destruct (listing w [root w; txt "src"; brand]) as [e1|[|t ts]] eqn:Et;
      [| |destruct (answer w (templateQuestion w brand (t :: ts))) as [e2|a] eqn:Ea];
      cbn [fst snd]; outcome_cases Hl.
    apply last_snoc.
Qed.

Lemma selectVisual_keeps_recent w p :
  recent w ∈ asked (snd (selectVisual w p)) ↔ recent w ∈ asked p.
Proof.
  destruct (selectVisual_asked w p) as (qs & -> & Hall).
  rewrite elem_of_app. split; [|auto]. intros [H|H]; [exact H|].
  rewrite Forall_forall in Hall.
  destruct (Hall _ H) as [(brands & _ & Hq & _)|(brand & ts & _ & _ & _ & Hq)];
    apply (f_equal message) in Hq; discriminate Hq.
Qed.

(** X20.  With [--newest] and a newest visual in the configuration, this
    visual is taken as it is: nothing is asked, nothing is printed and the
    path is not looked at, whatever [--latest] says.  Otherwise, with
    [--latest] and a visual developed last that is a directory, that
    visual is taken after one look at its path, and nothing is asked. *)
Theorem flags_settle_the_choice (w : World) (p : Proc) :
  (newest w = true → truthy (newestVisual w) = true →
     chooseVisual w p = (Normal (default [] (newestVisual w)), p))
  ∧ (newest w && truthy (newestVisual w) = false → latest w = true →
     lastDevFound w = true →
     chooseVisual w p
     = (Normal (default [] (lastDev w)),
        {| console := console p; asked := asked p;
           stats := stats p ++ [lastDevPath w] |})).
Proof.
  rewrite chooseVisual_cases. split.
  - intros -> ->. reflexivity.
  - intros -> Hl Hf. apply andb_true_iff in Hf as [-> ->]. rewrite Hl. reflexivity.
Qed.

(** X21.  The question about the visual developed last is put exactly
    when no flag settles the choice and that visual is set and is a
    directory.  The answer [Yes] takes this visual and nothing else is
    asked; any other answer leads to [selectVisual]; a question that
    rejects ends the choice with its error. *)
Theorem recent_template_question (w : World) (p : Proc) :
  recent w ∉ asked p →
  let r := chooseVisual w p in
  let asking :=
    {| console := console p; asked := asked p ++ [recent w];
       stats := stats p ++ [lastDevPath w] |} in
  (recent w ∈ asked (snd r) ↔ noShortcut w = true ∧ lastDevFound w = true)
  ∧ (noShortcut w = true → lastDevFound w = true →
       r = match answer w (recent w) with
           | inl e => (Throw e, asking)
           | inr a =>
               if bool_decide (a = txt "Yes")
               then (Normal (default [] (lastDev w)), asking)
               else selectVisual w asking
           end).
Proof.
  intros Hp r asking. subst r asking. rewrite chooseVisual_cases.
  unfold noShortcut, lastDevFound.
  destruct (newest w && truthy (newestVisual w)); cbn [negb andb fst snd].
  { split; [|intros H; discriminate H].
    split; [intros H; contradiction|intros [H _]; discriminate]. }
  destruct (truthy (lastDev w)); cbn [negb andb].
  2:{ rewrite selectVisual_keeps_recent. split; [|intros _ H; discriminate H].
      split; [intros H; contradiction|intros [_ H]; discriminate]. }
  cbv zeta.
  destruct (bool_decide (isDirectory w (lastDevPath w) = Some true)).
  2:{ rewrite selectVisual_keeps_recent. split; [|intros _ H; discriminate H].
      split; [intros H; contradiction|intros [_ H]; discriminate]. }
  destruct (latest w); cbn [negb fst snd].
  { split; [|intros H; discriminate H].
    split; [intros H; contradiction|intros [H _]; discriminate]. }
  split; [|intros _ _; reflexivity].
  split; [intros _; split; reflexivity|intros _].
  destruct (answer w (recent w)) as [e|a]; cbn [fst snd].
  { cbn. apply elem_of_app. right. left. }
  destruct (bool_decide (a = txt "Yes")); cbn [fst snd].
  - cbn. apply elem_of_app. right. left.
  - apply selectVisual_keeps_recent. cbn. apply elem_of_app. right. left.
Qed.

End VisualFacts.

(** ** The command [sync] *)

Module SyncFacts.

Import Effect EffectFacts CheckConfig Sync SyncSpec.

Ltac run_eff :=
  unfold print, perform, ask, tryCatch, throw, process_exit, modify, get;
  unfold mbind, Eff_bind, mret, Eff_ret; cbn.

(** *** Computations that differ in what they print only *)

Lemma alike_ret {A} (a : A) : alike (mret a) (mret a).
Proof. intros p p' H. split; [reflexivity|exact H]. Qed.

Lemma alike_bind {A B} (m m' : Eff Proc A) (k k' : A → Eff Proc B) :
  alike m m' → (∀ a, alike (k a) (k' a)) → alike (m ≫= k) (m' ≫= k').
Proof.
  intros Hm Hk p p' H. destruct (Hm p p' H) as [H1 H2].
  unfold mbind, Eff_bind.
  destruct (m p) as [c q], (m' p') as [c' q']. cbn in H1, H2. subst c'.
  destruct c as [a|code|e]; [apply Hk, H2 | split; [reflexivity|exact H2] ..].
Qed.

Lemma alike_tryCatch {A} (m m' : Eff Proc A) (k k' : Error → Eff Proc A) :
  alike m m' → (∀ e, alike (k e) (k' e)) → alike (tryCatch m k) (tryCatch m' k').
Proof.
  intros Hm Hk p p' H. destruct (Hm p p' H) as [H1 H2].
  unfold tryCatch.
  destruct (m p) as [c q], (m' p') as [c' q']. cbn in H1, H2. subst c'.
  destruct c as [a|code|e]; [split; [reflexivity|exact H2] .. | apply Hk, H2].
Qed.

Lemma alike_print_l {A} c (m m' : Eff Proc A) : alike m m' → alike (print c ;; m) m'.
Proof. intros Hm p p' H. run_eff. apply Hm. exact H. Qed.

Lemma alike_print_r {A} c (m m' : Eff Proc A) : alike m m' → alike m (print c ;; m').
Proof. intros Hm p p' H. run_eff. apply Hm. exact H. Qed.

Lemma alike_print c : alike (print c) (mret ()).
Proof. intros p p' H. split; [reflexivity|exact H]. Qed.

Lemma alike_print_same c : alike (print c) (print c).
Proof. intros p p' H. split; [reflexivity|exact H]. Qed.

Lemma alike_perform w op : alike (perform w op) (perform w op).
Proof. intros p p' H. unfold perform. cbn. rewrite H. split; reflexivity. Qed.

Lemma alike_ask {A} (r : list Op → Error + A) : alike (ask r) (ask r).
Proof. intros p p' H. unfold ask. cbn. rewrite H. split; reflexivity. Qed.

Lemma alike_get {A} (f : list Op → A) :
  alike (get (λ p, f (ops p))) (get (λ p, f (ops p))).
Proof. intros p p' H. unfold get. cbn. rewrite H. split; reflexivity. Qed.

Lemma alike_refl_throw {A} e : alike (throw e : Eff Proc A) (throw e).
Proof. intros p p' H. split; [reflexivity|exact H]. Qed.

Lemma alike_ensureDirectory w path what :
  alike (ensureDirectory w path what) (ensureDirectory w path what).
Proof.
  unfold ensureDirectory. apply alike_tryCatch.
  - apply alike_bind; [apply alike_ask|]. intros [|]; cbn [negb].
    + apply alike_ret.
    + apply alike_refl_throw.
  - intros _. apply alike_bind; [apply alike_perform|]. intros _. apply alike_print_same.
Qed.

Lemma alike_forEach {A B} (f : A → Eff Proc unit) (g : B → Eff Proc unit) l l' :
  Forall2 (λ a b, alike (f a) (g b)) l l' → alike (forEach f l) (forEach g l').
Proof.
  induction 1 as [|a b l l' Hab _ IH]; cbn [forEach]; [apply alike_ret|].
  apply alike_bind; [exact Hab|]. intros _. exact IH.
Qed.

(** The category of a visual changes what is printed and nothing else. *)
Lemma alike_syncVisual w brand visual data data' :
  origin data = origin data' →
  alike (syncVisual w brand (visual, data)) (syncVisual w brand (visual, data')).
Proof.
  intros Ho. unfold syncVisual. cbn [fst snd]. rewrite Ho.
  apply alike_bind.
  { destruct (isSource (output_category data)), (isSource (output_category data')).
    - apply alike_print_same.
    - apply alike_print.
    - intros p p' H. split; [reflexivity|exact H].
    - apply alike_ret. }
  intros _. apply alike_bind; [apply alike_ensureDirectory|]. intros _.
  apply alike_bind; [apply alike_ask|]. intros files.
  destruct (0 <? length files)%nat.
  - apply alike_tryCatch; [|intros _; apply alike_ret].
    repeat (apply alike_bind; [apply alike_perform|]; intros _).
    apply alike_print_same.
  - apply alike_bind.
    { apply (alike_get (λ h, existsSync w h _)). }
    intros [|]; cbn [negb]; [apply alike_ret|].
    apply alike_bind; [apply alike_perform|]. intros _. apply alike_print_same.
Qed.

Lemma alike_syncBrand w f brand visuals :
  alike (syncBrand w (brand, visuals))
        (syncBrand w (brand,
           map (λ v, (fst v, {| output_category := f (fst v);
                                origin := origin (snd v) |})) visuals)).
Proof.
  unfold syncBrand. cbn [fst snd].
  apply alike_bind; [apply alike_ensureDirectory|]. intros _.
  apply alike_forEach. induction visuals as [|[v d] vs IH]; cbn [map]; constructor.
  - apply alike_syncVisual. reflexivity.
  - exact IH.
Qed.

(** What [handle] does with the brands of a response. *)
Lemma handle_brands w brands :
  handle (withRequest w (inr brands))
  = (perform w (WriteFileSync (root w ++ txt "/.gitignore") (txt "*.url")) ;;
     tryCatch (perform w (Mkdir (root w ++ txt "/src"))) (λ _, mret ()) ;;
     forEach (syncBrand w) brands ;;
     mret None).
Proof. reflexivity. Qed.

Lemma withRequest_same w brands : request w = inr brands → withRequest w (inr brands) = w.
Proof. intros <-. destruct w; reflexivity. Qed.

(** X22.  A visual of category [source] is not skipped: the line that
    announces it is all that its category brings.  What the command does
    to the file system and through [git], and how it ends, do not depend
    on the categories of the visuals. *)
Theorem source_visuals_not_skipped (w : World) (brands : Brands)
    (f : Text → Text → JsValue) (p : Proc) :
  request w = inr brands →
  let r := handle w p in
  let r' := handle (withRequest w (inr (recategorise f brands))) p in
  fst r' = fst r ∧ ops (snd r') = ops (snd r).
Proof.
  intros Hr r r'. subst r r'.
  enough (H : alike (handle w) (handle (withRequest w (inr (recategorise f brands)))))
    by (destruct (H p p eq_refl) as [H1 H2]; split; symmetry; assumption).
  rewrite <- (withRequest_same w brands Hr) at 1. rewrite !handle_brands.
  apply alike_bind; [apply alike_perform|]. intros _.
  apply alike_bind.
  { apply alike_tryCatch; [apply alike_perform | intros _; apply alike_ret]. }
  intros _. apply alike_bind; [|intros _; apply alike_ret].
  apply alike_forEach. unfold recategorise. clear Hr.
  induction brands as [|[b vs] bs IH]; cbn [map]; constructor.
  - apply (alike_syncBrand w (f b)).
  - exact IH.
Qed.


(** *** Which failures stop the command *)

Lemma returns_noExit {A} (m : Eff Proc A) : returns m → noExit m.
Proof. intros H p code E. destruct (H p) as [a Ha]. congruence. Qed.

Lemma returns_ret {A} (a : A) : returns (mret a : Eff Proc A).
Proof. intros p. exists a. reflexivity. Qed.

Lemma returns_print c : returns (print c).
Proof. intros p. exists (). reflexivity. Qed.

Lemma returns_bind {A B} (m : Eff Proc A) (k : A → Eff Proc B) :
  returns m → (∀ a, returns (k a)) → returns (m ≫= k).
Proof.
  intros Hm Hk p. destruct (Hm p) as [a Ha]. unfold mbind, Eff_bind.
  destruct (m p) as [c q]. cbn in Ha. subst c. apply Hk.
Qed.

Lemma noExit_bind {A B} (m : Eff Proc A) (k : A → Eff Proc B) :
  noExit m → (∀ a, noExit (k a)) → noExit (m ≫= k).
Proof.
  intros Hm Hk p code. specialize (Hm p). unfold mbind, Eff_bind.
  destruct (m p) as [[a|c|e] q]; cbn in *;
    [apply Hk | intros _; apply (Hm c); reflexivity | discriminate].
Qed.

Lemma returns_tryCatch {A} (m : Eff Proc A) (k : Error → Eff Proc A) :
  noExit m → (∀ e, returns (k e)) → returns (tryCatch m k).
Proof.
  intros Hm Hk p. specialize (Hm p). unfold tryCatch.
  destruct (m p) as [[a|c|e] q]; cbn in *; [eauto | exfalso; eapply Hm; eauto | apply Hk].
Qed.

Lemma noExit_tryCatch {A} (m : Eff Proc A) (k : Error → Eff Proc A) :
  noExit m → (∀ e, noExit (k e)) → noExit (tryCatch m k).
Proof.
  intros Hm Hk p code. specialize (Hm p). unfold tryCatch.
  destruct (m p) as [[a|c|e] q]; cbn in *; [discriminate | apply Hm | apply Hk].
Qed.

Lemma noExit_perform w op : noExit (perform w op).
Proof. intros p code. unfold perform. cbn. destruct (outcome w (ops p) op); discriminate. Qed.

Lemma noExit_ask {A} (r : list Op → Error + A) : noExit (ask r).
Proof. intros p code. unfold ask. cbn. destruct (r (ops p)); discriminate. Qed.

Lemma noExit_throw {A} e : noExit (throw e : Eff Proc A).
Proof. intros p code. discriminate. Qed.

Lemma returns_forEach {A} (f : A → Eff Proc unit) l :
  (∀ a, returns (f a)) → returns (forEach f l).
Proof.
  intros Hf. induction l as [|a l IH]; cbn [forEach]; [apply returns_ret|].
  apply returns_bind; [apply Hf | intros _; exact IH].
Qed.

Lemma noExit_forEach {A} (f : A → Eff Proc unit) l :
  (∀ a, noExit (f a)) → noExit (forEach f l).
Proof.
  intros Hf. induction l as [|a l IH]; cbn [forEach]; [apply returns_noExit, returns_ret|].
  apply noExit_bind; [apply Hf | intros _; exact IH].
Qed.

Lemma noExit_ensureDirectory w path what : noExit (ensureDirectory w path what).
Proof.
  unfold ensureDirectory. apply noExit_tryCatch.
  - apply noExit_bind; [apply noExit_ask|]. intros [|]; cbn [negb].
    + apply returns_noExit, returns_ret.
    + apply noExit_throw.
  - intros _. apply noExit_bind; [apply noExit_perform|]. intros _.
    apply returns_noExit, returns_print.
Qed.

Lemma noExit_syncVisual w brand entry : noExit (syncVisual w brand entry).
Proof.
  unfold syncVisual. apply noExit_bind.
  { destruct (isSource _); apply returns_noExit; [apply returns_print|apply returns_ret]. }
  intros _. apply noExit_bind; [apply noExit_ensureDirectory|]. intros _.
  apply noExit_bind; [apply noExit_ask|]. intros files.
  destruct (0 <? length files)%nat.
  - apply noExit_tryCatch; [|intros _; apply returns_noExit, returns_ret].
    repeat (apply noExit_bind; [apply noExit_perform|]; intros _).
    apply returns_noExit, returns_print.
  - apply noExit_bind; [intros p code; discriminate|].
    intros [|]; cbn [negb]; [apply returns_noExit, returns_ret|].
    apply noExit_bind; [apply noExit_perform|]. intros _.
    apply returns_noExit, returns_print.
Qed.

Lemma noExit_handle w : noExit (handle w).
Proof.
  unfold handle. destruct (request w) as [e|brands].
  - apply returns_noExit. repeat (apply returns_bind; [apply returns_print|]; intros _).
    apply returns_ret.
  - apply noExit_bind; [apply noExit_perform|]. intros _.
    apply noExit_bind.
    { apply noExit_tryCatch; [apply noExit_perform|]. intros _.
      apply returns_noExit, returns_ret. }
    intros _. apply noExit_bind; [|intros _; apply returns_noExit, returns_ret].
    apply noExit_forEach. intros [brand visuals]. unfold syncBrand.
    apply noExit_bind; [apply noExit_ensureDirectory|]. intros _.
    apply noExit_forEach. intros entry. apply noExit_syncVisual.
Qed.

Section Robust.
Context (w : World).
Hypothesis writes : ∀ h path content, outcome w h (WriteFileSync path content) = None.
Hypothesis makes : ∀ h path, outcome w h (MkdirSync path) = None.
Hypothesis clones : ∀ h url path, outcome w h (GitClone url path) = None.
Hypothesis reads : ∀ h path, ∃ files, readdirSync w h path = inr files.

Lemma returns_ensureDirectory path what : returns (ensureDirectory w path what).
Proof.
  unfold ensureDirectory. apply returns_tryCatch.
  - apply noExit_bind; [apply noExit_ask|]. intros [|]; cbn [negb].
    + apply returns_noExit, returns_ret.
    + apply noExit_throw.
  - intros _. apply returns_bind; [|intros _; apply returns_print].
    intros p. exists (). unfold perform. cbn. rewrite makes. reflexivity.
Qed.

Lemma returns_syncVisual brand entry : returns (syncVisual w brand entry).
Proof.
  unfold syncVisual. apply returns_bind.
  { destruct (isSource _); [apply returns_print|apply returns_ret]. }
  intros _. apply returns_bind; [apply returns_ensureDirectory|]. intros _.
  apply returns_bind.
  { intros p. unfold ask. cbn [fst].
    match goal with
    | |- context [readdirSync w ?h ?path] => destruct (reads h path) as [files ->]
    end. eauto. }
  intros files. destruct (0 <? length files)%nat.
  - apply returns_tryCatch; [|intros _; apply returns_ret].
    repeat (apply noExit_bind; [apply noExit_perform|]; intros _).
    apply returns_noExit, returns_print.
  - apply returns_bind; [intros p; eexists; reflexivity|].
    intros [|]; cbn [negb]; [apply returns_ret|].
    apply returns_bind; [|intros _; apply returns_print].
    intros p. exists (). unfold perform. cbn. rewrite clones. reflexivity.
Qed.

Lemma returns_handle : returns (handle w).
Proof.
  unfold handle. destruct (request w) as [e|brands].
  - repeat (apply returns_bind; [apply returns_print|]; intros _). apply returns_ret.
  - apply returns_bind.
    { intros p. exists (). unfold perform. cbn. rewrite writes. reflexivity. }
    intros _. apply returns_bind.
    { apply returns_tryCatch; [apply noExit_perform | intros _; apply returns_ret]. }
    intros _. apply returns_bind; [|intros _; apply returns_ret].
    apply returns_forEach. intros [brand visuals]. unfold syncBrand.
    apply returns_bind; [apply returns_ensureDirectory|]. intros _.
    apply returns_forEach. intros entry. apply returns_syncVisual.
Qed.

End Robust.

(** X23.  [handle] never ends the process itself.  It returns whenever
    writing [.gitignore], [fs.mkdirSync], [fs.readdirSync] and [git.clone]
    do not throw: a failure of [fs.lstatSync], of creating [src], or of
    [git.cwd], [git.init] and [git.addRemote] on a directory that holds
    files is caught and the command goes on with the next visual. *)
Theorem only_four_failures_stop_sync (w : World) (p : Proc) :
  (∀ h path content, outcome w h (WriteFileSync path content) = None) →
  (∀ h path, outcome w h (MkdirSync path) = None) →
  (∀ h url path, outcome w h (GitClone url path) = None) →
  (∀ h path, ∃ files, readdirSync w h path = inr files) →
  (∃ result, fst (handle w p) = Normal result)
  ∧ (∀ code, fst (handle w p) ≠ Exit code).
Proof.
  intros Hw Hm Hc Hr. split.
  - apply (returns_handle w Hw Hm Hc Hr).
  - apply noExit_handle.
Qed.

Lemma handle_result_brands w brands p b :
  fst (handle (withRequest w (inr brands)) p) = Normal b → b = None.
Proof.
  rewrite handle_brands. unfold mbind, Eff_bind, mret, Eff_ret.
  destruct (perform w _ p) as [[[]|c|e] q]; [|discriminate..].
  destruct (tryCatch _ _ q) as [[[]|c|e] q1]; [|discriminate..].
  destruct (forEach _ _ q1) as [[[]|c|e] q2]; [|discriminate..].
  intros [= <-]. reflexivity.
Qed.

Lemma failed_request w p e :
  request w = inl e →
  handle w p
  = (Normal (Some false),
     {| console := console p ++ [console_log (inspect w e);
                                 console_error (messageOf w e)];
        ops := ops p |}).
Proof.
  intros He. unfold handle. rewrite He. run_eff. unfold upd_console. cbn [console ops].
  rewrite <- app_assoc. reflexivity.
Qed.

Lemma failed_request_result w p e :
  request w = inl e → fst (handle w p) = Normal (Some false).
Proof. intros He. rewrite (failed_request w p e He). reflexivity. Qed.

(** X24.  [handle] returns [false] exactly when the request to the server
    fails; it has then printed the error and its message and has done
    nothing to the file system or through [git]. *)
Theorem failed_request_changes_nothing (w : World) (p : Proc) :
  (fst (handle w p) = Normal (Some false) ↔ ∃ e, request w = inl e)
  ∧ (∀ e, request w = inl e →
       handle w p
       = (Normal (Some false),
          {| console := console p ++ [console_log (inspect w e);
                                      console_error (messageOf w e)];
             ops := ops p |})).
Proof.
  assert (H := failed_request w p).
  split; [|exact H]. split.
  - destruct (request w) as [e|brands] eqn:Er; [eauto|].
    rewrite <- (withRequest_same w brands Er). intros Hf.
    apply handle_result_brands in Hf. discriminate Hf.
  - intros [e He]. rewrite (H e He). reflexivity.
Qed.

(** X25.  A directory that holds files is never cloned into: for a visual
    whose directory exists and is not empty, the command makes no
    directory and clones nothing.  It calls [git.cwd], [git.init] and
    [git.addRemote] with the origin of the visual, in this order, and
    stops at the first of them that fails: the calls made are exactly
    those up to and including the first that throws.  It prints
    [Repository successfully inited] exactly when none of them throws, and
    goes on with the next visual whether one throws or not. *)
Theorem filled_directory_not_cloned (w : World) (brand : Text)
    (entry : Text * VisualData) (files : list Text) (p : Proc) :
  let path := repoPathOf w brand (fst entry) in
  lstatSync w (ops p) path = inr true →
  readdirSync w (ops p) path = inr files →
  files ≠ [] →
  let r := syncVisual w brand entry p in
  let made := upToFailure w (ops p)
                [GitCwd path; GitInit; GitAddRemote (txt "origin") (origin (snd entry))] in
  fst r = Normal ()
  ∧ ops (snd r) = ops p ++ fst made
  ∧ console (snd r)
    = console p
      ++ (if isSource (output_category (snd entry))
          then [console_log (txt "Skipping source visual " ++ fst entry)] else [])
      ++ (if snd made then [console_log (txt "Repository successfully inited")] else []).
Proof.
  intros path Hl Hr Hf r made. subst r made.
  unfold syncVisual. fold (repoPathOf w brand (fst entry)). fold path.
  assert (H0 : ∃ p0,
    (if isSource (output_category (snd entry))
     then print (console_log (txt "Skipping source visual " ++ fst entry))
     else mret ()) p = (Normal (), p0) ∧ ops p0 = ops p
    ∧ console p0 = console p
        ++ (if isSource (output_category (snd entry))
            then [console_log (txt "Skipping source visual " ++ fst entry)] else [])).
  { destruct (isSource _); eexists; (split; [reflexivity|]); (split; [reflexivity|]).
    - reflexivity.
    - cbn. rewrite app_nil_r. reflexivity. }
  destruct H0 as (p0 & E0 & Hp0 & Hc0). rewrite (bind_normal _ _ _ _ _ E0).
  rewrite (@app_assoc Console), <- Hc0.
  assert (E1 : ensureDirectory w path (txt "Creating repo directory ") p0 = (Normal (), p0)).
  { unfold ensureDirectory, tryCatch, ask. unfold mbind, Eff_bind, mret, Eff_ret.
    rewrite Hp0, Hl. reflexivity. }
  rewrite (bind_normal _ _ _ _ _ E1).
  assert (E2 : ask (λ h, readdirSync w h path) p0 = (Normal files, p0))
    by (unfold ask; rewrite Hp0, Hr; reflexivity).
  rewrite (bind_normal _ _ _ _ _ E2).
  destruct files as [|f fs]; [contradiction|]. cbn [length Nat.ltb Nat.leb].
  unfold tryCatch, perform, print, modify. unfold mbind, Eff_bind, mret, Eff_ret.
  cbn [ops upd_ops upd_console fst snd upToFailure]. rewrite !Hp0.
  destruct (outcome w (ops p) (GitCwd path)); cbn [fst snd ops console upd_ops upd_console];
    rewrite ?Hp0.
  { rewrite app_nil_r. repeat split; reflexivity. }
  destruct (outcome w (ops p ++ [GitCwd path]) GitInit);
    cbn [fst snd ops console upd_ops upd_console]; rewrite ?Hp0.
  { rewrite app_nil_r, <- app_assoc. repeat split; reflexivity. }
  destruct (outcome w ((ops p ++ [GitCwd path]) ++ [GitInit]) _);
    cbn [fst snd ops console upd_ops upd_console]; rewrite ?Hp0, ?app_nil_r, <- !app_assoc;
    repeat split; reflexivity.
Qed.

Section Fresh.
Context (w : World).
Hypothesis missing : ∀ h path, ∃ e, lstatSync w h path = inl e.
Hypothesis empty : ∀ h path, readdirSync w h path = inr [].
Hypothesis noGit : ∀ h path, existsSync w h path = false.
Hypothesis succeeds : ∀ h op, outcome w h op = None.

Lemma fresh_perform op p :
  perform w op p = (Normal (), {| console := console p; ops := ops p ++ [op] |}).
Proof. unfold perform. rewrite succeeds. reflexivity. Qed.

Lemma fresh_ensureDirectory path what p :
  ∃ q, ensureDirectory w path what p = (Normal (), q) ∧ ops q = ops p ++ [MkdirSync path].
Proof.
  unfold ensureDirectory, tryCatch, ask. unfold mbind at 1. unfold Eff_bind at 1.
  destruct (missing (ops p) path) as [e ->].
  rewrite (bind_normal _ _ _ _ _ (fresh_perform _ _)).
  eexists. split; reflexivity.
Qed.

Lemma fresh_syncVisual brand entry p :
  ∃ q, syncVisual w brand entry p = (Normal (), q)
    ∧ ops q
      = ops p ++ [MkdirSync (repoPathOf w brand (fst entry));
                  GitClone (origin (snd entry)) (repoPathOf w brand (fst entry))].
Proof.
  unfold syncVisual. fold (repoPathOf w brand (fst entry)).
  set (path := repoPathOf w brand (fst entry)).
  assert (H0 : ∃ p0,
    (if isSource (output_category (snd entry))
     then print (console_log (txt "Skipping source visual " ++ fst entry))
     else mret ()) p = (Normal (), p0) ∧ ops p0 = ops p)
    by (destruct (isSource _); eexists; split; reflexivity).
  destruct H0 as (p0 & E0 & Hp0). rewrite (bind_normal _ _ _ _ _ E0).
  destruct (fresh_ensureDirectory path (txt "Creating repo directory ") p0)
    as (p1 & E1 & Hp1).
  rewrite (bind_normal _ _ _ _ _ E1).
  assert (E2 : ask (λ h, readdirSync w h path) p1 = (Normal [], p1))
    by (unfold ask; rewrite empty; reflexivity).
  rewrite (bind_normal _ _ _ _ _ E2). cbn [length Nat.ltb Nat.leb].
  assert (E3 : get (λ p, existsSync w (ops p) (pathJoin w [path; txt ".git"])) p1
               = (Normal false, p1))
    by (unfold get; rewrite noGit; reflexivity).
  rewrite (bind_normal _ _ _ _ _ E3). cbn [negb].
  rewrite (bind_normal _ _ _ _ _ (fresh_perform _ _)).
  eexists. split; [reflexivity|]. cbn [ops upd_console].
  rewrite Hp1, Hp0, <- app_assoc. reflexivity.
Qed.

Lemma fresh_visuals brand visuals : ∀ p,
  ∃ q, forEach (syncVisual w brand) visuals p = (Normal (), q)
    ∧ ops q
      = ops p ++ concat (map (λ v,
          [MkdirSync (repoPathOf w brand (fst v));
           GitClone (origin (snd v)) (repoPathOf w brand (fst v))]) visuals).
Proof.
  induction visuals as [|v vs IH]; intros p; cbn [forEach map concat].
  - exists p. rewrite app_nil_r. split; reflexivity.
  - destruct (fresh_syncVisual brand v p) as (q & E & Hq).
    rewrite (bind_normal _ _ _ _ _ E).
    destruct (IH q) as (q' & E' & Hq'). exists q'. split; [exact E'|].
    rewrite Hq', Hq, <- app_assoc. reflexivity.
Qed.

Lemma fresh_brands brands : ∀ p,
  ∃ q, forEach (syncBrand w) brands p = (Normal (), q)
    ∧ ops q
      = ops p ++ concat (map (λ b,
          MkdirSync (brandPathOf w (fst b))
          :: concat (map (λ v,
               [MkdirSync (repoPathOf w (fst b) (fst v));
                GitClone (origin (snd v)) (repoPathOf w (fst b) (fst v))]) (snd b)))
          brands).
Proof.
  induction brands as [|b bs IH]; intros p; cbn [forEach map concat].
  - exists p. rewrite app_nil_r. split; reflexivity.
  - unfold syncBrand at 1. fold (brandPathOf w (fst b)).
    destruct (fresh_ensureDirectory (brandPathOf w (fst b)) (txt "Creating directory ") p)
      as (q & E & Hq).
    destruct (fresh_visuals (fst b) (snd b) q) as (q1 & E1 & Hq1).
    assert (Eb : (ensureDirectory w (brandPathOf w (fst b)) (txt "Creating directory ") ;;
                  forEach (syncVisual w (fst b)) (snd b)) p = (Normal (), q1))
      by (rewrite (bind_normal _ _ _ _ _ E); exact E1).
    rewrite (bind_normal _ _ _ _ _ Eb).
    destruct (IH q1) as (q' & E' & Hq'). exists q'. split; [exact E'|].
    rewrite Hq', Hq1, Hq. cbn [app]. rewrite <- !app_assoc. reflexivity.
Qed.

Lemma fresh_handle brands p :
  request w = inr brands →
  fst (handle w p) = Normal None
  ∧ ops (snd (handle w p)) = ops p ++ downloadOps w brands.
Proof.
  intros Hr. rewrite <- (withRequest_same w brands Hr) at 1 2. rewrite handle_brands.
  rewrite (bind_normal _ _ _ _ _ (fresh_perform _ _)). cbv beta.
  match goal with
  | |- context [(tryCatch ?m ?k ≫= _) ?q] =>
      assert (Et : tryCatch m k q
                   = (Normal (), {| console := console q;
                                    ops := ops q ++ [Mkdir (root w ++ txt "/src")] |}))
        by (unfold tryCatch; rewrite fresh_perform; reflexivity)
  end.
  rewrite (bind_normal _ _ _ _ _ Et). cbv beta.
  match goal with
  | |- context [(forEach (syncBrand w) brands ≫= _) ?q] =>
      destruct (fresh_brands brands q) as (q1 & E1 & Hq1)
  end.
  rewrite (bind_normal _ _ _ _ _ E1). cbn [fst snd mret Eff_ret].
  split; [reflexivity|]. cbn [ops] in Hq1. rewrite Hq1. unfold downloadOps.
  rewrite <- !app_assoc. reflexivity.
Qed.

End Fresh.

(** X26.  On a root that holds nothing of the response (no path that is
    looked at exists, the directories made are empty and hold no [.git])
    and when no operation throws, the command writes [.gitignore], makes
    [src], and then, brand by brand in the order of the response, makes
    the directory of the brand and, for every visual of the brand, makes
    its directory and clones its origin into it; it returns
    [undefined]. *)
Theorem fresh_root_downloads_everything (w : World) (brands : Brands) (p : Proc) :
  request w = inr brands →
  (∀ h path, ∃ e, lstatSync w h path = inl e) →
  (∀ h path, readdirSync w h path = inr []) →
  (∀ h path, existsSync w h path = false) →
  (∀ h op, outcome w h op = None) →
  fst (handle w p) = Normal None
  ∧ ops (snd (handle w p)) = ops p ++ downloadOps w brands.
Proof. intros Hr H1 H2 H3 H4. apply fresh_handle; assumption. Qed.

End SyncFacts.

(** ** The commands, run from the command line *)

Module CommandFacts.

Import Effect Cli CliSpec CliFacts.

(** X27.  For [dev] the script adds nothing to what [handle] does: the
    process ends when [handle] ends it, with the code [handle] gives, and
    when [handle] returns the script returns as well, without
    [process.exit], so that the servers and the watchers stay. *)
Theorem dev_keeps_running (h : Host Dev.Proc) (argv : list Text) (w : Dev.World)
    (p : Dev.Proc) :
  commandExists h (commandNameOf argv) = true →
  load h (commandNameOf argv) = devCommand argv w →
  fst (prelude h argv p) = Normal () →
  main h argv p
  = Dev.handle (withFlags (Options.constructor argv) w) (snd (prelude h argv p)).
Proof.
  intros He Hl Hp. rewrite main_runs by assumption. cbv zeta. rewrite Hl.
  unfold devCommand. cbn [handle keepRunning Options.keepRunning Options.constructor].
  destruct (Dev.handle _ _) as [[[]|c|e] q]; reflexivity.
Qed.

(** X28.  Run from the command line, [sync] ends the process with code 0
    whenever its [handle] returns: also when the request to the server has
    failed and nothing has been downloaded. *)
Theorem sync_exits_with_zero (h : Host Sync.Proc) (argv : list Text) (w : Sync.World)
    (s : Sync.Proc) :
  commandExists h (commandNameOf argv) = true →
  load h (commandNameOf argv) = Sync.command w →
  fst (prelude h argv s) = Normal () →
  (fst (main h argv s) = Exit 0
     ↔ ∃ result, fst (Sync.handle w (snd (prelude h argv s))) = Normal result)
  ∧ (∀ e, Sync.request w = inl e → fst (main h argv s) = Exit 0).
Proof.
  intros He Hl Hp. rewrite main_runs by assumption. cbv zeta. rewrite Hl.
  unfold Sync.command. cbn [handle keepRunning fst].
  assert (Hiff : after {| keepRunning := false;
                         handle := λ _, _ ← Sync.handle w; mret () |}
                   (fst ((_ ← Sync.handle w; mret ()) (snd (prelude h argv s)))) = Exit 0
                 ↔ ∃ result, fst (Sync.handle w (snd (prelude h argv s))) = Normal result).
  { unfold mbind, Eff_bind, mret, Eff_ret.
    pose proof (SyncFacts.noExit_handle w (snd (prelude h argv s))) as Hn.
    destruct (Sync.handle w _) as [[b|c|e] q]; cbn in *.
    - split; [eauto|reflexivity].
    - exfalso. apply (Hn c). reflexivity.
    - split; [discriminate|intros [r Hr]; discriminate]. }
  split; [exact Hiff|].
  intros e Hr. apply Hiff. exists (Some false).
  apply (SyncFacts.failed_request_result w _ e Hr).
Qed.

End CommandFacts.

(** ** The properties at concrete inputs *)

Module Instances.

Import Effect Scenarios Samples.

(** The command line [nebe serve], where no command [serve] exists. *)
Lemma unknown_command_exits_witness :
  let argv := commandLine [txt "serve"] in
  fst (CliSpec.prelude hostA argv SetRoot.initial) = Normal ()
  ∧ Cli.commandExists hostA (Cli.commandNameOf argv) = false
  ∧ Cli.main hostA argv SetRoot.initial
    = (Exit 0,
       Cli.console_out hostA
         (console_error (txt "Command " ++ Cli.commandNameOf argv
            ++ txt " does not exist. Run nebe help for the command list"))
         (snd (CliSpec.prelude hostA argv SetRoot.initial))).
Proof.
  intros argv.
  assert (H1 : fst (CliSpec.prelude hostA argv SetRoot.initial) = Normal ()) by reflexivity.
  assert (H2 : Cli.commandExists hostA (Cli.commandNameOf argv) = false) by reflexivity.
  split; [exact H1|]. split; [exact H2|].
  exact (CliFacts.unknown_command_exits hostA argv SetRoot.initial H1 H2).
Defined.

(** What the user sees then. *)
Example unknown_command_line :
  SetRoot.console (snd (Cli.main hostA (commandLine [txt "serve"]) SetRoot.initial))
  = [console_error (txt "Command serve does not exist. Run nebe help for the command list")].
Proof. reflexivity. Qed.

(** The two size folders of [worldB], both served, with calls that all
    return. *)
Lemma handle_starts_up_witness :
  let w := startupB in
  DevSpec.reachesDiscovery (Startup.dev w)
  ∧ (∀ x, Startup.fails w x = None)
  ∧ Dev.folders (Startup.dev w) ≠ []
  ∧ Dev.selectedFolders (Startup.dev w) ≠ []
  ∧ let r := Startup.handle w Startup.initial in
    let p := Startup.session (snd r) in
    let n := length (Dev.selectedFolders (Startup.dev w)) in
    fst r = Normal ()
    ∧ Startup.called (snd r) = StartupSpec.allSites w
    ∧ Startup.watchers (snd r) = StartupSpec.sitesAfterLoop w
    ∧ Dev.serveCalls p = concat (map (DevSpec.callOf (Startup.dev w)) (seq 0 n))
    ∧ Dev.bundlers p
      = List.filter (λ j, DevSpec.isServed (Dev.start (Startup.dev w) j)) (seq 0 n)
    ∧ Dev.state_visualPath p = Dev.visual (Startup.dev w)
    ∧ Dev.state_folders p = Some (Dev.folders (Startup.dev w))
    ∧ (∀ j, is_Some (Dev.state_bundlers p !! j) ↔ (j < n)%nat)
    ∧ Dev.fill p = Dev.getFill (Startup.dev w) (Dev.startTime (Startup.dev w))
    ∧ Dev.notifications p = []
    ∧ Dev.timers p = []
    ∧ last (Dev.console p)
      = Some (console_log
                (txt "Listening to file changes... Press Ctrl+C to stop servers")).
Proof.
  intros w.
  assert (H1 : DevSpec.reachesDiscovery (Startup.dev w)).
  { unfold DevSpec.reachesDiscovery. cbn.
    repeat split; try discriminate. eexists; reflexivity. }
  assert (H0 : ∀ x, Startup.fails w x = None) by reflexivity.
  assert (H2 : Dev.folders (Startup.dev w) ≠ []) by discriminate.
  assert (H3 : Dev.selectedFolders (Startup.dev w) ≠ []) by discriminate.
  split; [exact H1|]. split; [exact H0|]. split; [exact H2|]. split; [exact H3|].
  exact (StartupFacts.handle_starts_up w H1 H0 H2 H3).
Defined.

(** A visual without [config.json]. *)
Lemma abort_starts_nothing_witness :
  let w := startupE in
  fst (Startup.handle w Startup.initial) ≠ Normal ()
  ∧ let r := Startup.handle w Startup.initial in
    StartupSpec.nothingStarted (snd r)
    ∨ ∃ e, fst r = Throw e
        ∧ ((Startup.schemaExists w = true ∧ Startup.fails w Startup.WatchSchema = Some e
            ∧ Startup.watchers (snd r) = [])
           ∨ ((Startup.schemaExists w = true → Startup.fails w Startup.WatchSchema = None)
              ∧ Startup.fails w Startup.WatchConfig = Some e
              ∧ Startup.watchers (snd r)
                = if Startup.schemaExists w then [Startup.WatchSchema] else [])).
Proof.
  intros w.
  assert (H : fst (Startup.handle w Startup.initial) ≠ Normal ())
    by (vm_compute; discriminate).
  split; [exact H|].
  exact (StartupFacts.abort_starts_nothing w H).
Defined.

(** The process ends with code 1, and port 1400 had been opened. *)
Example missing_config_exit :
  let r := Startup.handle startupE Startup.initial in
  fst r = Exit 1 ∧ Dev.listening (Startup.session (snd r)) = [1400]
  ∧ Dev.console (Startup.session (snd r))
    = [console_log (txt "Building brand/visual");
       console_error (txt "config.json does not exist!")]
  ∧ Startup.called (snd r) = StartupSpec.sitesBeforeConfig.
Proof. cbv zeta. repeat split; vm_compute; reflexivity. Qed.

(** A [config.json] that cannot be watched: [handle] throws when both
    targets are served and the watcher of [schema.json] is registered. *)
Example watcher_fails_after_start :
  let r := Startup.handle startupW Startup.initial in
  fst r = Throw (txt "ENOSPC: System limit for number of file watchers reached")
  ∧ Dev.bundlers (Startup.session (snd r)) = [0; 1]%nat
  ∧ Dev.listening (Startup.session (snd r)) = [1400; 1200; 1201]
  ∧ Startup.watchers (snd r) = [Startup.WatchSchema].
Proof. cbv zeta. repeat split; vm_compute; reflexivity. Qed.

(** A [git.status] that rejects: nothing after it is called. *)
Lemma first_failing_call_ends_handle_witness :
  let w := startupG in
  DevSpec.reachesDiscovery (Startup.dev w)
  ∧ Dev.folders (Startup.dev w) ≠ []
  ∧ Dev.selectedFolders (Startup.dev w) ≠ []
  ∧ let r := Startup.handle w Startup.initial in
    let made := StartupSpec.upToFailure w (StartupSpec.allSites w) in
    Startup.called (snd r) = Startup.called Startup.initial ++ fst made
    ∧ fst r = match snd made with
              | Some e => Throw e
              | None => Normal ()
              end.
Proof.
  intros w.
  assert (H1 : DevSpec.reachesDiscovery (Startup.dev w)).
  { unfold DevSpec.reachesDiscovery. cbn.
    repeat split; try discriminate. eexists; reflexivity. }
  assert (H2 : Dev.folders (Startup.dev w) ≠ []) by discriminate.
  assert (H3 : Dev.selectedFolders (Startup.dev w) ≠ []) by discriminate.
  split; [exact H1|]. split; [exact H2|]. split; [exact H3|].
  exact (StartupFacts.first_failing_call_ends_handle w Startup.initial H1 H2 H3).
Defined.

(** The calls made then, and the port that was never opened. *)
Example git_status_rejects :
  let r := Startup.handle startupG Startup.initial in
  fst r = Throw (txt "fatal: not a git repository")
  ∧ Startup.called (snd r)
    = [Startup.GetRoot; Startup.PathJoin; Startup.PrepareFolder; Startup.ChooseVisual;
       Startup.SetLastDev; Startup.RemoveDist; Startup.SimpleGit; Startup.GitCwd;
       Startup.GitStatus]
  ∧ Dev.listening (Startup.session (snd r)) = [].
Proof. cbv zeta. repeat split; vm_compute; reflexivity. Qed.


(** The line of the second bundle. *)
Example second_bundle_line :
  let p := snd (Dev.handle worldB Dev.initial) in
  let q := Dev.run worldB [(0, Dev.BundledEvent 0 docA); (5, Dev.BundledEvent 0 docA)] p in
  Dev.console q
  = Dev.console p ++ [console_log (txt "Bundled 300x300 on http://localhost:1200")].
Proof. vm_compute. reflexivity. Qed.

(** A change of the schema at time 0 and a bundle at time 300. *)
Lemma bundle_gets_fill_after_delay_witness :
  let p := snd (Dev.handle worldB Dev.initial) in
  Dev.timers p = []
  ∧ let q := Dev.run worldB [(0, Dev.SchemaChange); (300, Dev.BundledEvent 0 docA)] p in
    let fill' :=
      if decide (0 + 200 ≤ 300) then
        match Dev.checkSchema worldB (0 + 200) with
        | None => Dev.getFill worldB (0 + 200)
        | Some _ => Dev.fill p
        end
      else Dev.fill p in
    Dev.dist q !! 0%nat
    = Some (Markup.postProcess (WatchSpec.withFill (Dev.ctxOf worldB p 0) fill') 300 docA).
Proof.
  intros p.
  assert (H : Dev.timers p = []) by (vm_compute; reflexivity).
  split; [exact H|].
  exact (WatchFacts.bundle_gets_fill_after_delay worldB 0 300 0 docA p H).
Defined.

(** The check made at time 210 rejects: the callback ends there, and the
    session is as it was but for the count of the checks. *)
Example rejected_check_at_210 :
  let p := snd (Dev.handle worldD Dev.initial) in
  Dev.onTimeout worldD 210 p
  = (Throw (txt "schema.json is not valid"), Dev.upd_schemaChecks S p)
  ∧ fst (Dev.onTimeout worldD 200 p) = Normal ()
  ∧ Dev.rebuilds (snd (Dev.onTimeout worldD 200 p)) = [0; 1]%nat.
Proof. cbv zeta. repeat split; vm_compute; reflexivity. Qed.

(** The command line [nebe dev --debug]. *)
Lemma dev_keeps_running_witness :
  let argv := commandLine [txt "dev"; txt "--debug"] in
  Cli.commandExists (hostB argv) (Cli.commandNameOf argv) = true
  ∧ Cli.load (hostB argv) (Cli.commandNameOf argv) = CliSpec.devCommand argv worldB
  ∧ fst (CliSpec.prelude (hostB argv) argv Dev.initial) = Normal ()
  ∧ Cli.main (hostB argv) argv Dev.initial
    = Dev.handle (CliSpec.withFlags (Options.constructor argv) worldB)
        (snd (CliSpec.prelude (hostB argv) argv Dev.initial)).
Proof.
  intros argv.
  assert (H1 : Cli.commandExists (hostB argv) (Cli.commandNameOf argv) = true)
    by reflexivity.
  assert (H2 : Cli.load (hostB argv) (Cli.commandNameOf argv)
               = CliSpec.devCommand argv worldB) by reflexivity.
  assert (H3 : fst (CliSpec.prelude (hostB argv) argv Dev.initial) = Normal ())
    by reflexivity.
  split; [exact H1|]. split; [exact H2|]. split; [exact H3|].
  exact (CommandFacts.dev_keeps_running (hostB argv) argv worldB Dev.initial H1 H2 H3).
Defined.

(** The flags read from [nebe dev --debug]. *)
Example dev_debug_flags :
  Options.constructor (commandLine [txt "dev"; txt "--debug"])
  = {| Options.keepRunning := true; Options.debug := true; Options.newest := false;
       Options.latest := false; Options.local := false |}.
Proof. vm_compute. reflexivity. Qed.

(** A flag inside a longer argument counts as well. *)
Example flag_inside_argument :
  Options.local (Options.constructor (commandLine [txt "dev"; txt "x--localhost"])) = true.
Proof. vm_compute. reflexivity. Qed.

(** The visual developed last is there and no flag is given. *)
Lemma recent_template_question_witness :
  let w := visualWorld in
  let p := Visual.initial in
  (VisualSpec.recent w ∉ Visual.asked p)
  ∧ let r := Visual.chooseVisual w p in
    let asking :=
      {| Visual.console := Visual.console p;
         Visual.asked := Visual.asked p ++ [VisualSpec.recent w];
         Visual.stats := Visual.stats p ++ [VisualSpec.lastDevPath w] |} in
    (VisualSpec.recent w ∈ Visual.asked (snd r)
       ↔ VisualSpec.noShortcut w = true ∧ VisualSpec.lastDevFound w = true)
    ∧ (VisualSpec.noShortcut w = true → VisualSpec.lastDevFound w = true →
         r = match Visual.answer w (VisualSpec.recent w) with
             | inl e => (Throw e, asking)
             | inr a =>
                 if bool_decide (a = txt "Yes")
                 then (Normal (default [] (Visual.lastDev w)), asking)
                 else Visual.selectVisual w asking
             end).
Proof.
  intros w p.
  assert (H : VisualSpec.recent w ∉ Visual.asked p) by (intros H; inversion H).
  split; [exact H|].
  exact (VisualFacts.recent_template_question w p H).
Defined.

(** Listings that hold names. *)
Lemma hidden_folders_not_offered_witness :
  let w := visualWorld in
  let p := Visual.initial in
  VisualSpec.listsNames w
  ∧ ∃ qs, Visual.asked (snd (Visual.selectVisual w p)) = Visual.asked p ++ qs
      ∧ ∀ q, q ∈ qs →
          (∀ c, c ∈ Visual.choices q → startsWith (txt ".") c = false)
          ∧ ((Visual.message q = txt "Select brand"
              ∧ ∃ l, Visual.getDirectories w [Visual.root w; txt "src"] = inr l
                   ∧ Visual.choices q
                     = List.filter (λ name, negb (startsWith (txt ".") name)) l
                   ∧ (2 ≤ length (Visual.choices q))%nat)
             ∨ (Visual.message q = txt "Select template"
                ∧ ∃ brand l, VisualSpec.brandPicked w = Some (inr brand)
                     ∧ Visual.getDirectories w [Visual.root w; txt "src"; brand] = inr l
                     ∧ Visual.choices q
                       = rev (List.filter (λ name, negb (startsWith (txt ".") name)) l))).
Proof.
  intros w p.
  assert (H : VisualSpec.listsNames w).
  { intros path l f. unfold w, visualWorld. cbn [Visual.getDirectories].
    repeat case_bool_decide; intros [= <-] Hf;
      repeat (apply elem_of_cons in Hf as [->|Hf];
              [apply TextFacts.hasChar_false; vm_compute; reflexivity|]);
      inversion Hf. }
  split; [exact H|].
  exact (VisualFacts.hidden_folders_not_offered w p H).
Defined.

(** With listings that hold paths the first character is the slash, and
    the hidden directories are offered with the others. *)
Example paths_hide_nothing :
  let r := Visual.selectVisual visualWorldPaths Visual.initial in
  fst r = Normal (txt "acme/banner")
  ∧ map Visual.choices (Visual.asked (snd r))
    = [[txt ".git"; txt "acme"]; [txt ".cache"; txt "banner"]].
Proof. cbv zeta. split; vm_compute; reflexivity. Qed.

(** The three questions, and the visual chosen. *)
Example visual_chosen :
  let r := Visual.chooseVisual visualWorld Visual.initial in
  fst r = Normal (txt "acme/poster")
  ∧ map Visual.message (Visual.asked (snd r))
    = [txt "Develop recent template? acme/banner"; txt "Select brand";
       txt "Select template"]
  ∧ map Visual.choices (Visual.asked (snd r))
    = [[txt "Yes"; txt "No"]; [txt "acme"; txt "zeta"]; [txt "poster"; txt "banner"]].
Proof. cbv zeta. repeat split; vm_compute; reflexivity. Qed.

(** The visuals of [acme], with no category at all. *)
Lemma source_visuals_not_skipped_witness :
  let f := λ _ _ : Text, CheckConfig.JsOther in
  Sync.request syncWorld = inr acme
  ∧ let r := Sync.handle syncWorld Sync.initial in
    let r' := Sync.handle (SyncSpec.withRequest syncWorld (inr (SyncSpec.recategorise f acme)))
                Sync.initial in
    fst r' = fst r ∧ Sync.ops (snd r') = Sync.ops (snd r).
Proof.
  intros f.
  assert (H : Sync.request syncWorld = inr acme) by reflexivity.
  split; [exact H|].
  exact (SyncFacts.source_visuals_not_skipped syncWorld acme f Sync.initial H).
Defined.

Lemma only_four_failures_stop_sync_witness :
  (∀ h path content, Sync.outcome syncWorld h (Sync.WriteFileSync path content) = None)
  ∧ (∀ h path, Sync.outcome syncWorld h (Sync.MkdirSync path) = None)
  ∧ (∀ h url path, Sync.outcome syncWorld h (Sync.GitClone url path) = None)
  ∧ (∀ h path, ∃ files, Sync.readdirSync syncWorld h path = inr files)
  ∧ (∃ result, fst (Sync.handle syncWorld Sync.initial) = Normal result)
  ∧ (∀ code, fst (Sync.handle syncWorld Sync.initial) ≠ Exit code).
Proof.
  assert (H1 : ∀ h path content,
    Sync.outcome syncWorld h (Sync.WriteFileSync path content) = None) by reflexivity.
  assert (H2 : ∀ h path, Sync.outcome syncWorld h (Sync.MkdirSync path) = None)
    by reflexivity.
  assert (H3 : ∀ h url path, Sync.outcome syncWorld h (Sync.GitClone url path) = None)
    by reflexivity.
  assert (H4 : ∀ h path, ∃ files, Sync.readdirSync syncWorld h path = inr files)
    by (intros h path; exists []; reflexivity).
  split; [exact H1|]. split; [exact H2|]. split; [exact H3|]. split; [exact H4|].
  exact (SyncFacts.only_four_failures_stop_sync syncWorld Sync.initial H1 H2 H3 H4).
Defined.

Lemma fresh_root_downloads_everything_witness :
  Sync.request syncWorld = inr acme
  ∧ (∀ h path, ∃ e, Sync.lstatSync syncWorld h path = inl e)
  ∧ (∀ h path, Sync.readdirSync syncWorld h path = inr [])
  ∧ (∀ h path, Sync.existsSync syncWorld h path = false)
  ∧ (∀ h op, Sync.outcome syncWorld h op = None)
  ∧ fst (Sync.handle syncWorld Sync.initial) = Normal None
  ∧ Sync.ops (snd (Sync.handle syncWorld Sync.initial))
    = Sync.ops Sync.initial ++ SyncSpec.downloadOps syncWorld acme.
Proof.
  assert (H0 : Sync.request syncWorld = inr acme) by reflexivity.
  assert (H1 : ∀ h path, ∃ e, Sync.lstatSync syncWorld h path = inl e)
    by (intros h path; eexists; reflexivity).
  assert (H2 : ∀ h path, Sync.readdirSync syncWorld h path = inr []) by reflexivity.
  assert (H3 : ∀ h path, Sync.existsSync syncWorld h path = false) by reflexivity.
  assert (H4 : ∀ h op, Sync.outcome syncWorld h op = None) by reflexivity.
  split; [exact H0|]. split; [exact H1|]. split; [exact H2|]. split; [exact H3|].
  split; [exact H4|].
  exact (SyncFacts.fresh_root_downloads_everything syncWorld acme Sync.initial
           H0 H1 H2 H3 H4).
Defined.

(** The directory of a visual that holds a file already. *)
Lemma filled_directory_not_cloned_witness :
  let w := syncWorldFilled in
  let entry := (txt "banner", {| Sync.output_category := CheckConfig.JsOther;
                                 Sync.origin := txt "git@example.org:acme/banner.git" |}) in
  let path := SyncSpec.repoPathOf w (txt "acme") (fst entry) in
  Sync.lstatSync w (Sync.ops Sync.initial) path = inr true
  ∧ Sync.readdirSync w (Sync.ops Sync.initial) path = inr [txt "index.html"]
  ∧ [txt "index.html"] ≠ []
  ∧ let r := Sync.syncVisual w (txt "acme") entry Sync.initial in
    let made := SyncSpec.upToFailure w (Sync.ops Sync.initial)
                  [Sync.GitCwd path; Sync.GitInit;
                   Sync.GitAddRemote (txt "origin") (Sync.origin (snd entry))] in
    fst r = Normal ()
    ∧ Sync.ops (snd r) = Sync.ops Sync.initial ++ fst made
    ∧ Sync.console (snd r)
      = Sync.console Sync.initial
        ++ (if Sync.isSource (Sync.output_category (snd entry))
            then [console_log (txt "Skipping source visual " ++ fst entry)] else [])
        ++ (if snd made then [console_log (txt "Repository successfully inited")] else []).
Proof.
  intros w entry path.
  assert (H1 : Sync.lstatSync w (Sync.ops Sync.initial) path = inr true) by reflexivity.
  assert (H2 : Sync.readdirSync w (Sync.ops Sync.initial) path = inr [txt "index.html"])
    by reflexivity.
  assert (H3 : [txt "index.html"] ≠ []) by discriminate.
  split; [exact H1|]. split; [exact H2|]. split; [exact H3|].
  exact (SyncFacts.filled_directory_not_cloned w (txt "acme") entry [txt "index.html"]
           Sync.initial H1 H2 H3).
Defined.

(** The remote [origin] exists already: [git.addRemote] fails, nothing is
    printed and the command goes on. *)
Example sync_filled :
  let r := Sync.handle syncWorldFilled Sync.initial in
  fst r = Normal None
  ∧ Sync.ops (snd r)
    = [Sync.WriteFileSync (txt "/work/.gitignore") (txt "*.url");
       Sync.Mkdir (txt "/work/src");
       Sync.GitCwd (txt "/work/src/acme/banner");
       Sync.GitInit;
       Sync.GitAddRemote (txt "origin") (txt "git@example.org:acme/banner.git");
       Sync.GitCwd (txt "/work/src/acme/poster");
       Sync.GitInit;
       Sync.GitAddRemote (txt "origin") (txt "git@example.org:acme/poster.git")]
  ∧ Sync.console (snd r) = [console_log (txt "Skipping source visual banner")].
Proof. cbv zeta. repeat split; vm_compute; reflexivity. Qed.

(** What [sync] does on the fresh root, and what it prints. *)
Example sync_acme :
  let r := Sync.handle syncWorld Sync.initial in
  Sync.ops (snd r)
  = [Sync.WriteFileSync (txt "/work/.gitignore") (txt "*.url");
     Sync.Mkdir (txt "/work/src");
     Sync.MkdirSync (txt "/work/src/acme");
     Sync.MkdirSync (txt "/work/src/acme/banner");
     Sync.GitClone (txt "git@example.org:acme/banner.git") (txt "/work/src/acme/banner");
     Sync.MkdirSync (txt "/work/src/acme/poster");
     Sync.GitClone (txt "git@example.org:acme/poster.git") (txt "/work/src/acme/poster")]
  ∧ Sync.console (snd r)
    = [console_log (txt "Creating directory /work/src/acme");
       console_log (txt "Skipping source visual banner");
       console_log (txt "Creating repo directory /work/src/acme/banner");
       console_log (txt "Repository successfully cloned");
       console_log (txt "Creating repo directory /work/src/acme/poster");
       console_log (txt "Repository successfully cloned")].
Proof. cbv zeta. split; vm_compute; reflexivity. Qed.

(** The command line [nebe sync], with a server that cannot be reached. *)
Lemma sync_exits_with_zero_witness :
  let argv := commandLine [txt "sync"] in
  let h := hostC syncWorldDown in
  Cli.commandExists h (Cli.commandNameOf argv) = true
  ∧ Cli.load h (Cli.commandNameOf argv) = Sync.command syncWorldDown
  ∧ fst (CliSpec.prelude h argv Sync.initial) = Normal ()
  ∧ (fst (Cli.main h argv Sync.initial) = Exit 0
       ↔ ∃ result,
           fst (Sync.handle syncWorldDown (snd (CliSpec.prelude h argv Sync.initial)))
           = Normal result)
  ∧ (∀ e, Sync.request syncWorldDown = inl e → fst (Cli.main h argv Sync.initial) = Exit 0).
Proof.
  intros argv h.
  assert (H1 : Cli.commandExists h (Cli.commandNameOf argv) = true) by reflexivity.
  assert (H2 : Cli.load h (Cli.commandNameOf argv) = Sync.command syncWorldDown)
    by reflexivity.
  assert (H3 : fst (CliSpec.prelude h argv Sync.initial) = Normal ()) by reflexivity.
  split; [exact H1|]. split; [exact H2|]. split; [exact H3|].
  exact (CommandFacts.sync_exits_with_zero h argv syncWorldDown Sync.initial H1 H2 H3).
Defined.

End Instances.
